(** * libdstructs: the index-addressable linked list of [src/linkedlist.c]

    The C program is embedded function by function.  Pointers are
    optional locations, [NULL] being [None].  The heap is a typed store,
    one finite map per struct type and one for the payload objects of the
    caller; node blocks never leave the library, so an element pointer
    never aliases a node.  Every function is a computation in a small
    state and error monad whose faults are the undefined behaviours the C
    code can run into: null or dangling dereference, signed overflow,
    invalid free, read past an object, read of an uninitialised local.

    The file has three parts: the model of the code, the predicates that
    describe a well-formed list, and the proofs. *)

From Stdlib Require Import ZArith Lia.
From Stdlib.Strings Require Import Byte.
From stdpp Require Import base option list gmap.

Local Open Scope Z_scope.

(** ** Memory model *)

Definition loc := positive.

(** A C pointer: [None] is [NULL]. *)
Definition ptr := option loc.

Definition NULL : ptr := None.

Definition is_null (p : ptr) : bool :=
  match p with None => true | Some _ => false end.

(** [struct __node_s].  The [prev] field is declared in the source but no
    function ever writes or reads it, so the model leaves it out. *)
Record node_s := Node {
  element : ptr;
  index : Z;
  next : ptr
}.

(** [struct __llist_s]. *)
Record llist_s := LList {
  __first : ptr;
  __last : ptr;
  __elem_size : N
}.

(** [struct __ll_iter_s]. *)
Record ll_iter_s := LIter {
  __next : ptr
}.

(** A payload object owned by the caller: its bytes, and whether it came
    from [malloc] (only such an object may be handed to [free]). *)
Record object := Object {
  obj_bytes : list byte;
  obj_malloced : bool
}.

(** The program state.  [oracle] lists the outcomes of the coming calls of
    [malloc], as the environment decides them: [None] is a failed
    allocation, and an exhausted oracle keeps failing. *)
Record state := State {
  lists : gmap loc llist_s;
  nodes : gmap loc node_s;
  iters : gmap loc ll_iter_s;
  objs : gmap loc object;
  oracle : list ptr
}.

Definition with_lists (m : gmap loc llist_s) (s : state) : state :=
  State m (nodes s) (iters s) (objs s) (oracle s).
Definition with_nodes (m : gmap loc node_s) (s : state) : state :=
  State (lists s) m (iters s) (objs s) (oracle s).
Definition with_iters (m : gmap loc ll_iter_s) (s : state) : state :=
  State (lists s) (nodes s) m (objs s) (oracle s).
Definition with_objs (m : gmap loc object) (s : state) : state :=
  State (lists s) (nodes s) (iters s) m (oracle s).
Definition with_oracle (o : list ptr) (s : state) : state :=
  State (lists s) (nodes s) (iters s) (objs s) o.

(** ** The monad of C computations *)

Inductive fault :=
  | NullDeref
  | DanglingDeref
  | SignedOverflow
  | InvalidFree
  | OutOfBoundsRead
  | UninitRead.

Inductive res (A : Type) :=
  | Ok (a : A)
  | Fault (f : fault)
  | Diverge.
Arguments Ok {A} a.
Arguments Fault {A} f.
Arguments Diverge {A}.

Definition M (A : Type) : Type := state -> res (A * state).

Definition ret {A} (a : A) : M A := fun s => Ok (a, s).

Definition bind {A B} (m : M A) (k : A -> M B) : M B :=
  fun s =>
    match m s with
    | Ok (a, s') => k a s'
    | Fault f => Fault f
    | Diverge => Diverge
    end.

Definition fail {A} (f : fault) : M A := fun _ => Fault f.

Definition diverge {A} : M A := fun _ => Diverge.

Notation "'do' x <- m ; k" := (bind m (fun x => k))
  (at level 10, x name, m at level 100, k at level 200).
Notation "m ;; k" := (bind m (fun _ => k))
  (at level 100, k at level 200, right associativity).

(** The value a computation returns, without the final state. *)
Definition value {A} (r : res (A * state)) : res A :=
  match r with
  | Ok (a, _) => Ok a
  | Fault f => Fault f
  | Diverge => Diverge
  end.

(** [int] arithmetic: 32 bits, signed; overflow is undefined behaviour. *)
Definition INT_MAX : Z := 2147483647.
Definition INT_MIN : Z := -2147483648.

Definition int_add (x y : Z) : M Z :=
  let r := x + y in
  if (INT_MIN <=? r) && (r <=? INT_MAX) then ret r else fail SignedOverflow.

(** Struct accesses through a pointer. *)
Definition load_list (p : ptr) : M llist_s := fun s =>
  match p with
  | None => Fault NullDeref
  | Some a =>
      match lists s !! a with
      | Some l => Ok (l, s)
      | None => Fault DanglingDeref
      end
  end.

Definition store_list (p : ptr) (l : llist_s) : M unit := fun s =>
  match p with
  | None => Fault NullDeref
  | Some a =>
      match lists s !! a with
      | Some _ => Ok (tt, with_lists (<[a := l]> (lists s)) s)
      | None => Fault DanglingDeref
      end
  end.

Definition load_node (p : ptr) : M node_s := fun s =>
  match p with
  | None => Fault NullDeref
  | Some a =>
      match nodes s !! a with
      | Some n => Ok (n, s)
      | None => Fault DanglingDeref
      end
  end.

Definition store_node (p : ptr) (n : node_s) : M unit := fun s =>
  match p with
  | None => Fault NullDeref
  | Some a =>
      match nodes s !! a with
      | Some _ => Ok (tt, with_nodes (<[a := n]> (nodes s)) s)
      | None => Fault DanglingDeref
      end
  end.

Definition load_iter (p : ptr) : M ll_iter_s := fun s =>
  match p with
  | None => Fault NullDeref
  | Some a =>
      match iters s !! a with
      | Some i => Ok (i, s)
      | None => Fault DanglingDeref
      end
  end.

Definition store_iter (p : ptr) (i : ll_iter_s) : M unit := fun s =>
  match p with
  | None => Fault NullDeref
  | Some a =>
      match iters s !! a with
      | Some _ => Ok (tt, with_iters (<[a := i]> (iters s)) s)
      | None => Fault DanglingDeref
      end
  end.

(** Field reads [p->f] and field writes [p->f = v]. *)
Definition get_first (list : ptr) : M ptr :=
  do l <- load_list list; ret (__first l).
Definition get_last (list : ptr) : M ptr :=
  do l <- load_list list; ret (__last l).
Definition get_elem_size (list : ptr) : M N :=
  do l <- load_list list; ret (__elem_size l).
Definition set_first (list : ptr) (v : ptr) : M unit :=
  do l <- load_list list; store_list list (LList v (__last l) (__elem_size l)).
Definition set_last (list : ptr) (v : ptr) : M unit :=
  do l <- load_list list; store_list list (LList (__first l) v (__elem_size l)).
Definition set_elem_size (list : ptr) (v : N) : M unit :=
  do l <- load_list list; store_list list (LList (__first l) (__last l) v).

Definition get_element (p : ptr) : M ptr :=
  do n <- load_node p; ret (element n).
Definition get_index (p : ptr) : M Z :=
  do n <- load_node p; ret (index n).
Definition get_next (p : ptr) : M ptr :=
  do n <- load_node p; ret (next n).
Definition set_element (p : ptr) (v : ptr) : M unit :=
  do n <- load_node p; store_node p (Node v (index n) (next n)).
Definition set_index (p : ptr) (v : Z) : M unit :=
  do n <- load_node p; store_node p (Node (element n) v (next n)).
Definition set_next (p : ptr) (v : ptr) : M unit :=
  do n <- load_node p; store_node p (Node (element n) (index n) v).

Definition get_itr_next (it : ptr) : M ptr :=
  do i <- load_iter it; ret (__next i).
Definition set_itr_next (it : ptr) (v : ptr) : M unit :=
  do i <- load_iter it; store_iter it (LIter v).

(** [malloc]: the next outcome of the oracle.  A fresh block has
    indeterminate contents; the model fills it with a placeholder, which
    the code below always overwrites before it reads (nodes) or never
    reads (the iterator of a failed [ll_itr]). *)
Definition next_outcome : M ptr := fun s =>
  match oracle s with
  | [] => Ok (NULL, s)
  | r :: rest => Ok (r, with_oracle rest s)
  end.

Definition malloc_list : M ptr :=
  do r <- next_outcome;
  match r with
  | None => ret NULL
  | Some a => fun s => Ok (r, with_lists (<[a := LList NULL NULL 0%N]> (lists s)) s)
  end.

Definition malloc_node : M ptr :=
  do r <- next_outcome;
  match r with
  | None => ret NULL
  | Some a => fun s => Ok (r, with_nodes (<[a := Node NULL 0 NULL]> (nodes s)) s)
  end.

Definition malloc_iter : M ptr :=
  do r <- next_outcome;
  match r with
  | None => ret NULL
  | Some a => fun s => Ok (r, with_iters (<[a := LIter NULL]> (iters s)) s)
  end.

(** [free]: a no-op on [NULL], a fault on a block that is not live. *)
Definition free_list (p : ptr) : M unit := fun s =>
  match p with
  | None => Ok (tt, s)
  | Some a =>
      match lists s !! a with
      | Some _ => Ok (tt, with_lists (delete a (lists s)) s)
      | None => Fault InvalidFree
      end
  end.

Definition free_node (p : ptr) : M unit := fun s =>
  match p with
  | None => Ok (tt, s)
  | Some a =>
      match nodes s !! a with
      | Some _ => Ok (tt, with_nodes (delete a (nodes s)) s)
      | None => Fault InvalidFree
      end
  end.

Definition free_iter (p : ptr) : M unit := fun s =>
  match p with
  | None => Ok (tt, s)
  | Some a =>
      match iters s !! a with
      | Some _ => Ok (tt, with_iters (delete a (iters s)) s)
      | None => Fault InvalidFree
      end
  end.

Definition free_obj (p : ptr) : M unit := fun s =>
  match p with
  | None => Ok (tt, s)
  | Some a =>
      match objs s !! a with
      | Some o =>
          if obj_malloced o then Ok (tt, with_objs (delete a (objs s)) s)
          else Fault InvalidFree
      | None => Fault InvalidFree
      end
  end.

(** [memcmp(p, q, n)]: both objects must hold [n] readable bytes; the
    result is the difference of the first pair of bytes that differ. *)
Definition read_bytes (p : ptr) (n : N) : M (list byte) := fun s =>
  match p with
  | None => Fault NullDeref
  | Some a =>
      match objs s !! a with
      | Some o =>
          if (n <=? N.of_nat (length (obj_bytes o)))%N
          then Ok (take (N.to_nat n) (obj_bytes o), s)
          else Fault OutOfBoundsRead
      | None => Fault DanglingDeref
      end
  end.

Fixpoint bytes_cmp (a b : list byte) : Z :=
  match a, b with
  | x :: a', y :: b' =>
      if Byte.eqb x y then bytes_cmp a' b'
      else Z.of_N (Byte.to_N x) - Z.of_N (Byte.to_N y)
  | _, _ => 0
  end.

Definition memcmp (p q : ptr) (n : N) : M Z :=
  do a <- read_bytes p n;
  do b <- read_bytes q n;
  ret (bytes_cmp a b).

(** The loops of the source walk the [next] links of the node store.  A
    walk that takes more steps than the store has nodes has entered a
    cycle and never ends, so each loop runs on a budget of one step more
    than the number of live nodes and reports [Diverge] past it. *)
Definition loop_budget : M nat := fun s => Ok (S (size (nodes s)), s).

(** ** The list functions *)

Definition ADDED : Z := 1.
Definition EXIST : Z := 1.

(** C's [!x] on an [int]. *)
Definition lnot (x : Z) : Z := if x =? 0 then 1 else 0.

(** [__ll_init], lines 68-82. *)
Definition __ll_init (elem_size : N) : M ptr :=
  do list <- malloc_list;
  if is_null list then ret NULL else
  set_first list NULL;;
  set_last list NULL;;
  set_elem_size list elem_size;;
  ret list.

(** [ll_size], lines 104-113. *)
Definition ll_size (list : ptr) : M Z :=
  if is_null list then ret (-1) else
  do temp <- get_last list;
  if is_null temp then ret 0 else
  do i <- get_index temp;
  int_add i 1.

(** The loop of lines 173-182: find the node whose successor has the
    wanted index and splice [new] in between. *)
Fixpoint add_walk (fuel : nat) (temp new : ptr) (idx : Z) : M unit :=
  match fuel with
  | O => diverge
  | S fuel' =>
      do tn <- get_next temp;
      if is_null tn then ret tt else
      do i <- get_index tn;
      if i =? idx then
        set_next new tn;;
        set_next temp new
      else add_walk fuel' tn new idx
  end.

(** The loops of lines 188-192 ([d = 1]) and 429-433 ([d = -1]): shift
    the cached index of every node from [temp] on. *)
Fixpoint shift_indices (fuel : nat) (temp : ptr) (d : Z) : M unit :=
  match fuel with
  | O => diverge
  | S fuel' =>
      if is_null temp then ret tt else
      do i <- get_index temp;
      do i' <- int_add i d;
      set_index temp i';;
      do tn <- get_next temp;
      shift_indices fuel' tn d
  end.

(** [ll_add], lines 127-196. *)
Definition ll_add (list : ptr) (idx : Z) (elem : ptr) : M Z :=
  if is_null list then ret (lnot ADDED) else
  if idx <? 0 then ret (lnot ADDED) else
  do sz <- ll_size list;
  if idx >? sz then ret (lnot ADDED) else
  do new <- malloc_node;
  if is_null new then ret (lnot ADDED) else
  set_element new elem;;
  set_index new idx;;
  set_next new NULL;;
  do sz <- ll_size list;
  if sz =? 0 then
    set_first list new;;
    set_last list new;;
    ret ADDED
  else
  do sz <- ll_size list;
  if idx =? sz then
    do temp <- get_last list;
    set_next temp new;;
    set_last list new;;
    ret ADDED
  else
  (if idx =? 0 then
     do f <- get_first list;
     set_next new f;;
     set_first list new
   else
     do temp <- get_first list;
     do fuel <- loop_budget;
     add_walk fuel temp new idx);;
  do temp <- get_next new;
  do fuel <- loop_budget;
  shift_indices fuel temp 1;;
  ret ADDED.

(** [ll_addfirst], lines 205-207, and [ll_addlast], lines 216-218. *)
Definition ll_addfirst (list : ptr) (elem : ptr) : M unit :=
  ll_add list 0 elem;; ret tt.

Definition ll_addlast (list : ptr) (elem : ptr) : M unit :=
  do sz <- ll_size list;
  ll_add list sz elem;; ret tt.

(** The loop of lines 264-270. *)
Fixpoint contains_loop (fuel : nat) (temp elem : ptr) (num_bytes : N) : M Z :=
  match fuel with
  | O => diverge
  | S fuel' =>
      if is_null temp then ret (lnot EXIST) else
      do te <- get_element temp;
      do c <- memcmp elem te num_bytes;
      if c =? 0 then ret EXIST else
      do tn <- get_next temp;
      contains_loop fuel' tn elem num_bytes
  end.

(** [ll_contains], lines 254-274. *)
Definition ll_contains (list : ptr) (elem : ptr) : M Z :=
  if is_null list then ret (lnot EXIST) else
  do temp <- get_first list;
  do num_bytes <- get_elem_size list;
  do fuel <- loop_budget;
  contains_loop fuel temp elem num_bytes.

(** The loop of lines 298-303. *)
Fixpoint get_loop (fuel : nat) (temp : ptr) (idx : Z) : M ptr :=
  match fuel with
  | O => diverge
  | S fuel' =>
      if is_null temp then ret NULL else
      do i <- get_index temp;
      if i =? idx then get_element temp else
      do tn <- get_next temp;
      get_loop fuel' tn idx
  end.

(** [ll_get], lines 287-307. *)
Definition ll_get (list : ptr) (idx : Z) : M ptr :=
  if is_null list then ret NULL else
  if idx <? 0 then ret NULL else
  do sz <- ll_size list;
  if idx >=? sz then ret NULL else
  do temp <- get_first list;
  do fuel <- loop_budget;
  get_loop fuel temp idx.

(** [ll_first], lines 319-321, and [ll_last], lines 333-335. *)
Definition ll_first (list : ptr) : M ptr :=
  ll_get list 0.

Definition ll_last (list : ptr) : M ptr :=
  do sz <- ll_size list;
  do i <- int_add sz (-1);
  ll_get list i.

(** The loop of lines 363-369. *)
Fixpoint indexof_loop (fuel : nat) (temp elem : ptr) (num_bytes : N) : M Z :=
  match fuel with
  | O => diverge
  | S fuel' =>
      if is_null temp then ret (-1) else
      do te <- get_element temp;
      do c <- memcmp elem te num_bytes;
      if c =? 0 then get_index temp else
      do tn <- get_next temp;
      indexof_loop fuel' tn elem num_bytes
  end.

(** [ll_indexof], lines 353-373. *)
Definition ll_indexof (list : ptr) (elem : ptr) : M Z :=
  if is_null list then ret (-1) else
  do temp <- get_first list;
  do num_bytes <- get_elem_size list;
  do fuel <- loop_budget;
  indexof_loop fuel temp elem num_bytes.

(** The loop of lines 414-423.  The local [target] is uninitialised until
    the loop finds the node: the result is [None] when it never does. *)
Fixpoint remove_walk (fuel : nat) (temp : ptr) (idx : Z) : M (option ptr) :=
  match fuel with
  | O => diverge
  | S fuel' =>
      do tn <- get_next temp;
      if is_null tn then ret None else
      do i <- get_index tn;
      if i =? idx then
        let target := tn in
        do tgn <- get_next target;
        set_next temp tgn;;
        ret (Some target)
      else remove_walk fuel' tn idx
  end.

(** [ll_remove], lines 386-440. *)
Definition ll_remove (list : ptr) (idx : Z) : M ptr :=
  if is_null list then ret NULL else
  if idx <? 0 then ret NULL else
  do sz <- ll_size list;
  if idx >=? sz then ret NULL else
  do sz <- ll_size list;
  if sz =? 0 then ret NULL else
  do target <-
    (if idx =? 0 then
       do target <- get_first list;
       do temp <- get_next target;
       set_first list temp;;
       (if is_null temp then set_last list temp else ret tt);;
       ret (Some target)
     else
       do temp <- get_first list;
       do fuel <- loop_budget;
       remove_walk fuel temp idx);
  match target with
  | None => fail UninitRead
  | Some target =>
      do temp <- get_next target;
      do fuel <- loop_budget;
      shift_indices fuel temp (-1);;
      do result <- get_element target;
      free_node target;;
      ret result
  end.

(** The loop of lines 235-236. *)
Fixpoint clear_loop (fuel : nat) (list : ptr) : M unit :=
  match fuel with
  | O => diverge
  | S fuel' =>
      do sz <- ll_size list;
      if sz =? 0 then ret tt else
      do e <- ll_remove list 0;
      free_obj e;;
      clear_loop fuel' list
  end.

(** [ll_clear], lines 228-237. *)
Definition ll_clear (list : ptr) : M unit :=
  if is_null list then ret tt else
  do fuel <- loop_budget;
  clear_loop fuel list.

(** [ll_free], lines 90-95. *)
Definition ll_free (list : ptr) : M unit :=
  if is_null list then ret tt else
  ll_clear list;;
  free_list list.

(** The loop of lines 463-472. *)
Fixpoint set_loop (fuel : nat) (temp : ptr) (idx : Z) (elem : ptr) : M ptr :=
  match fuel with
  | O => diverge
  | S fuel' =>
      if is_null temp then ret NULL else
      do i <- get_index temp;
      if i =? idx then
        do former <- get_element temp;
        set_element temp elem;;
        ret former
      else
      do tn <- get_next temp;
      set_loop fuel' tn idx elem
  end.

(** [ll_set], lines 451-476. *)
Definition ll_set (list : ptr) (idx : Z) (elem : ptr) : M ptr :=
  if is_null list then ret NULL else
  if idx <? 0 then ret NULL else
  do sz <- ll_size list;
  if idx >=? sz then ret NULL else
  do temp <- get_first list;
  do fuel <- loop_budget;
  set_loop fuel temp idx elem.

(** ** The iterator functions *)

(** The loop of lines 507-515. *)
Fixpoint itr_loop (fuel : nat) (temp : ptr) (idx : Z) (iterator : ptr) : M ptr :=
  match fuel with
  | O => diverge
  | S fuel' =>
      if is_null temp then ret NULL else
      do i <- get_index temp;
      if i =? idx then
        set_itr_next iterator temp;;
        ret iterator
      else
      do tn <- get_next temp;
      itr_loop fuel' tn idx iterator
  end.

(** [ll_itr], lines 491-519. *)
Definition ll_itr (list : ptr) (idx : Z) : M ptr :=
  if is_null list then ret NULL else
  if idx <? 0 then ret NULL else
  do sz <- ll_size list;
  if idx >=? sz then ret NULL else
  do iterator <- malloc_iter;
  if is_null iterator then ret NULL else
  do temp <- get_first list;
  do fuel <- loop_budget;
  itr_loop fuel temp idx iterator.

(** [li_destroy], lines 527-529. *)
Definition li_destroy (iterator : ptr) : M unit :=
  free_iter iterator.

(** [li_hasnext], lines 540-549. *)
Definition li_hasnext (iterator : ptr) : M Z :=
  if is_null iterator then ret (lnot EXIST) else
  do temp <- get_itr_next iterator;
  do tn <- get_next temp;
  ret (if is_null tn then lnot EXIST else EXIST).

(** [li_next], lines 559-574. *)
Definition li_next (iterator : ptr) : M ptr :=
  if is_null iterator then ret NULL else
  do temp <- get_itr_next iterator;
  if is_null temp then ret NULL else
  do tn <- get_next temp;
  set_itr_next iterator tn;;
  get_element temp.


(** ** Callers *)

(** The consumption loop [while (li_hasnext(it)) li_next(it);] of a
    caller, collecting what [li_next] returns. *)
Fixpoint drain (fuel : nat) (iterator : ptr) : M (list ptr) :=
  match fuel with
  | O => diverge
  | S fuel' =>
      do more <- li_hasnext iterator;
      if more =? 0 then ret [] else
      do e <- li_next iterator;
      do rest <- drain fuel' iterator;
      ret (e :: rest)
  end.

Definition drain_all (iterator : ptr) : M (list ptr) :=
  do fuel <- loop_budget;
  drain fuel iterator.

(** The same call made [S n] times in a row, keeping the last result. *)
Fixpoint again {A} (n : nat) (m : M A) : M A :=
  match n with
  | O => m
  | S n' => m;; again n' m
  end.

(** [n] calls of [li_next] in a row, collecting what they return. *)
Fixpoint li_collect (n : nat) (iterator : ptr) : M (list ptr) :=
  match n with
  | O => ret []
  | S n' =>
      do e <- li_next iterator;
      do rest <- li_collect n' iterator;
      ret (e :: rest)
  end.
(** ** The shape of a well-formed list *)

(** [lseg h p k xs q]: in the node store [h], following [next] from [p]
    visits exactly the nodes at the addresses of [xs], which hold the
    elements of [xs] and the cached indices [k], [k+1], ..., and then
    reaches [q]. *)
Fixpoint lseg (h : gmap loc node_s) (p : ptr) (k : Z)
    (xs : list (loc * ptr)) (q : ptr) : Prop :=
  match xs with
  | [] => p = q
  | (a, e) :: xs' =>
      p = Some a /\ exists nx, h !! a = Some (Node e k nx) /\ lseg h nx (k + 1) xs' q
  end.

(** [ll_valid s lp xs]: the list struct at [lp] is well formed and holds
    the cells [xs] (node address and element, in order): the nodes form a
    chain from [__first] whose last [next] is [NULL], the cached indices
    are [0 .. length xs - 1] in traversal order, [__last] is the last node
    of the chain ([NULL] when there is none), and the size fits an
    [int]. *)
Definition ll_valid (s : state) (lp : loc) (xs : list (loc * ptr)) : Prop :=
  exists l,
    lists s !! lp = Some l /\
    lseg (nodes s) (__first l) 0 xs NULL /\
    __last l = last (xs.*1) /\
    Z.of_nat (length xs) <= INT_MAX.

(** The first [n] bytes of the payload object [p] points to, when [p]
    points to a live object that holds at least [n] bytes. *)
Definition first_bytes (s : state) (n : N) (p : ptr) : option (list byte) :=
  match p with
  | None => None
  | Some a =>
      match objs s !! a with
      | Some o =>
          if (n <=? N.of_nat (length (obj_bytes o)))%N
          then Some (take (N.to_nat n) (obj_bytes o))
          else None
      | None => None
      end
  end.

(** [p] points to at least [n] readable bytes. *)
Definition readable (s : state) (n : N) (p : ptr) : Prop :=
  is_Some (first_bytes s n p).

(** The first [n] bytes behind [p] equal the first [n] bytes behind [q]. *)
Definition byte_equal (s : state) (n : N) (p q : ptr) : Prop :=
  exists bs, first_bytes s n p = Some bs /\ first_bytes s n q = Some bs.

(** [can_free m es]: the payload pointers [es] can be handed to [free] one
    after the other, starting from the payload store [m]: each is [NULL]
    or points to a live object that came from [malloc]. *)
Fixpoint can_free (m : gmap loc object) (es : list ptr) : Prop :=
  match es with
  | [] => True
  | None :: es' => can_free m es'
  | Some a :: es' =>
      (exists o, m !! a = Some o /\ obj_malloced o = true) /\
      can_free (delete a m) es'
  end.

(** ** Frame relations *)

(** [preserves R m]: whenever [m] returns, the state it leaves is related
    by [R] to the state it started from. *)
Definition preserves {A} (R : state -> state -> Prop) (m : M A) : Prop :=
  forall s a s', m s = Ok (a, s') -> R s s'.

(** The whole state is as before. *)
Definition unchanged (s s' : state) : Prop := s' = s.

(** The payload objects and the iterators are as before. *)
Definition same_payloads (s s' : state) : Prop :=
  objs s' = objs s /\ iters s' = iters s.

(** The list structs, the nodes and the payload objects are as before. *)
Definition same_list_memory (s s' : state) : Prop :=
  lists s' = lists s /\ nodes s' = nodes s /\ objs s' = objs s.

(** Nothing has been allocated: no node and no payload object has come
    into existence, [malloc] has not been called, and the iterators are as
    before. *)
Definition only_frees (s s' : state) : Prop :=
  (forall x, nodes s !! x = None -> nodes s' !! x = None) /\
  (forall p, objs s !! p = None -> objs s' !! p = None) /\
  oracle s' = oracle s /\ iters s' = iters s.

(** Every list struct is still there, with the element size it had. *)
Definition same_elem_size (s s' : state) : Prop :=
  forall lp l, lists s !! lp = Some l ->
    exists l', lists s' !! lp = Some l' /\ __elem_size l' = __elem_size l.

(** ** Concrete states *)

(** A four-byte payload object obtained from [malloc], holding a small
    little-endian integer. *)
Definition payload (b : byte) : object := Object [b; x00; x00; x00] true.

Definition ex_objs : gmap loc object :=
  <[10%positive := payload x0a]> (<[15%positive := payload x0f]>
  (<[20%positive := payload x14]> (<[30%positive := payload x1e]>
  (<[99%positive := payload x63]> ∅)))).

(** A program start: no list yet, and an allocator that will serve six
    blocks. *)
Definition ex_start : state :=
  State ∅ ∅ ∅ ex_objs
    [Some 1; Some 2; Some 3; Some 4; Some 5; Some 6]%positive.

(** The list [10, 20, 30] of four-byte elements at address 1. *)
Definition ex_cells : list (loc * ptr) :=
  [(2, Some 10); (3, Some 20); (4, Some 30)]%positive.

Definition ex_state : state :=
  State
    {[1%positive := LList (Some 2%positive) (Some 4%positive) 4%N]}
    (<[2%positive := Node (Some 10%positive) 0 (Some 3%positive)]>
     (<[3%positive := Node (Some 20%positive) 1 (Some 4%positive)]>
     (<[4%positive := Node (Some 30%positive) 2 NULL]> ∅)))
    ∅ ex_objs [Some 5; Some 6]%positive.

(** The code that builds it. *)
Definition ex_build : M ptr :=
  do l <- __ll_init 4;
  ll_addlast l (Some 10%positive);;
  ll_addlast l (Some 20%positive);;
  ll_addlast l (Some 30%positive);;
  ret l.

(** The same list when the allocator has nothing left to give. *)
Definition ex_state_oom : state := with_oracle [] ex_state.

(** The list [10, 20] at address 1. *)
Definition ex_two_cells : list (loc * ptr) :=
  [(2, Some 10); (3, Some 20)]%positive.

Definition ex_two : state :=
  State
    {[1%positive := LList (Some 2%positive) (Some 3%positive) 4%N]}
    (<[2%positive := Node (Some 10%positive) 0 (Some 3%positive)]>
     (<[3%positive := Node (Some 20%positive) 1 NULL]> ∅))
    ∅ ex_objs [Some 4; Some 5; Some 6]%positive.

Definition ex_build_two : M ptr :=
  do l <- __ll_init 4;
  ll_addlast l (Some 10%positive);;
  ll_addlast l (Some 20%positive);;
  ret l.

(** [ex_two] after [ll_remove(list, 1)]: node 3 is freed, and [__last]
    still holds its address. *)
Definition ex_two_removed : state :=
  State
    {[1%positive := LList (Some 2%positive) (Some 3%positive) 4%N]}
    (<[2%positive := Node (Some 10%positive) 0 NULL]> ∅)
    ∅ ex_objs [Some 4; Some 5; Some 6]%positive.

(** [ex_state] with an iterator at address 5 whose cursor is on the last
    node, and the same iterator once exhausted. *)
Definition ex_iter_last : state :=
  State (lists ex_state) (nodes ex_state)
    {[5%positive := LIter (Some 4%positive)]} ex_objs [Some 6%positive].

Definition ex_iter_done : state :=
  State (lists ex_state) (nodes ex_state)
    {[5%positive := LIter NULL]} ex_objs [Some 6%positive].

(** An empty list of four-byte elements at address 1. *)
Definition ex_empty : state :=
  State {[1%positive := LList NULL NULL 4%N]} ∅ ∅ ex_objs
    [Some 2; Some 3; Some 4; Some 5; Some 6]%positive.



(** ** Stepping through monadic code *)

Lemma bind_ok {A B} (m : M A) (k : A -> M B) s a s' :
  m s = Ok (a, s') -> bind m k s = k a s'.
Proof. intros H. unfold bind. by rewrite H. Qed.

Lemma int_add_ok x y s :
  INT_MIN <= x + y <= INT_MAX -> int_add x y s = Ok (x + y, s).
Proof.
  intros [H1 H2]. unfold int_add.
  apply Z.leb_le in H1. apply Z.leb_le in H2. by rewrite H1, H2.
Qed.

Section field_access.
Variable s : state.

Lemma load_list_ok a l :
  lists s !! a = Some l -> load_list (Some a) s = Ok (l, s).
Proof. intros H. unfold load_list. by rewrite H. Qed.

Lemma get_first_ok a l :
  lists s !! a = Some l -> get_first (Some a) s = Ok (__first l, s).
Proof. intros H. unfold get_first. by rewrite (bind_ok _ _ _ _ _ (load_list_ok a l H)). Qed.

Lemma get_last_ok a l :
  lists s !! a = Some l -> get_last (Some a) s = Ok (__last l, s).
Proof. intros H. unfold get_last. by rewrite (bind_ok _ _ _ _ _ (load_list_ok a l H)). Qed.

Lemma get_elem_size_ok a l :
  lists s !! a = Some l -> get_elem_size (Some a) s = Ok (__elem_size l, s).
Proof. intros H. unfold get_elem_size. by rewrite (bind_ok _ _ _ _ _ (load_list_ok a l H)). Qed.

Lemma set_first_ok a l v :
  lists s !! a = Some l ->
  set_first (Some a) v s =
    Ok (tt, with_lists (<[a := LList v (__last l) (__elem_size l)]> (lists s)) s).
Proof.
  intros H. unfold set_first. rewrite (bind_ok _ _ _ _ _ (load_list_ok a l H)).
  unfold store_list. by rewrite H.
Qed.

Lemma set_last_ok a l v :
  lists s !! a = Some l ->
  set_last (Some a) v s =
    Ok (tt, with_lists (<[a := LList (__first l) v (__elem_size l)]> (lists s)) s).
Proof.
  intros H. unfold set_last. rewrite (bind_ok _ _ _ _ _ (load_list_ok a l H)).
  unfold store_list. by rewrite H.
Qed.

Lemma load_node_ok a n :
  nodes s !! a = Some n -> load_node (Some a) s = Ok (n, s).
Proof. intros H. unfold load_node. by rewrite H. Qed.

Lemma get_element_ok a n :
  nodes s !! a = Some n -> get_element (Some a) s = Ok (element n, s).
Proof. intros H. unfold get_element. by rewrite (bind_ok _ _ _ _ _ (load_node_ok a n H)). Qed.

Lemma get_index_ok a n :
  nodes s !! a = Some n -> get_index (Some a) s = Ok (index n, s).
Proof. intros H. unfold get_index. by rewrite (bind_ok _ _ _ _ _ (load_node_ok a n H)). Qed.

Lemma get_next_ok a n :
  nodes s !! a = Some n -> get_next (Some a) s = Ok (next n, s).
Proof. intros H. unfold get_next. by rewrite (bind_ok _ _ _ _ _ (load_node_ok a n H)). Qed.

Lemma set_element_ok a n v :
  nodes s !! a = Some n ->
  set_element (Some a) v s =
    Ok (tt, with_nodes (<[a := Node v (index n) (next n)]> (nodes s)) s).
Proof.
  intros H. unfold set_element. rewrite (bind_ok _ _ _ _ _ (load_node_ok a n H)).
  unfold store_node. by rewrite H.
Qed.

Lemma set_index_ok a n v :
  nodes s !! a = Some n ->
  set_index (Some a) v s =
    Ok (tt, with_nodes (<[a := Node (element n) v (next n)]> (nodes s)) s).
Proof.
  intros H. unfold set_index. rewrite (bind_ok _ _ _ _ _ (load_node_ok a n H)).
  unfold store_node. by rewrite H.
Qed.

Lemma set_next_ok a n v :
  nodes s !! a = Some n ->
  set_next (Some a) v s =
    Ok (tt, with_nodes (<[a := Node (element n) (index n) v]> (nodes s)) s).
Proof.
  intros H. unfold set_next. rewrite (bind_ok _ _ _ _ _ (load_node_ok a n H)).
  unfold store_node. by rewrite H.
Qed.

Lemma get_itr_next_ok a i :
  iters s !! a = Some i -> get_itr_next (Some a) s = Ok (__next i, s).
Proof. intros H. unfold get_itr_next, bind, load_iter. by rewrite H. Qed.

Lemma set_itr_next_ok a i v :
  iters s !! a = Some i ->
  set_itr_next (Some a) v s =
    Ok (tt, with_iters (<[a := LIter v]> (iters s)) s).
Proof.
  intros H. unfold set_itr_next, bind, load_iter, store_iter.
  rewrite H. simpl. by rewrite H.
Qed.

Lemma loop_budget_ok : loop_budget s = Ok (S (size (nodes s)), s).
Proof. reflexivity. Qed.
End field_access.

(** ** List segments *)

Lemma lseg_lookup h p k xs q j a e :
  lseg h p k xs q -> xs !! j = Some (a, e) ->
  exists nx, h !! a = Some (Node e (k + Z.of_nat j) nx).
Proof.
  revert p k j. induction xs as [|[a' e'] xs IH]; intros p k j Hs Hj; [done|].
  destruct Hs as [-> (nx & Ha & Hs)]. destruct j as [|j]; simpl in Hj.
  - injection Hj as -> ->. exists nx. by rewrite Z.add_0_r.
  - destruct (IH _ _ _ Hs Hj) as [nx' Hx]. exists nx'.
    rewrite Hx. do 2 f_equal. lia.
Qed.

Lemma lseg_index_notin h p k xs q a nd :
  lseg h p k xs q -> h !! a = Some nd ->
  index nd < k \/ k + Z.of_nat (length xs) <= index nd ->
  a ∉ xs.*1.
Proof.
  intros Hs Ha Hi Hin.
  apply list_elem_of_fmap in Hin as ([a' e] & -> & Hin).
  apply list_elem_of_lookup in Hin as [j Hj].
  pose proof (lookup_lt_Some _ _ _ Hj) as Hlt.
  destruct (lseg_lookup _ _ _ _ _ _ _ _ Hs Hj) as [nx Hx]. simpl in Ha.
  rewrite Hx in Ha. injection Ha as <-. simpl in Hi. lia.
Qed.

Lemma lseg_fresh_notin h p k xs q a :
  lseg h p k xs q -> h !! a = None -> a ∉ xs.*1.
Proof.
  intros Hs Ha Hin.
  apply list_elem_of_fmap in Hin as ([a' e] & -> & Hin).
  apply list_elem_of_lookup in Hin as [j Hj].
  destruct (lseg_lookup _ _ _ _ _ _ _ _ Hs Hj) as [nx Hx]. simpl in Ha. congruence.
Qed.

Lemma lseg_insert h p k xs q a nd :
  a ∉ xs.*1 -> lseg h p k xs q -> lseg (<[a := nd]> h) p k xs q.
Proof.
  revert p k. induction xs as [|[a' e'] xs IH]; intros p k Hn Hs; [done|].
  destruct Hs as [-> (nx & Ha & Hs)]. simpl in Hn.
  apply not_elem_of_cons in Hn as [Hne Hn].
  split; [done|]. exists nx. split; [by rewrite lookup_insert_ne|by apply IH].
Qed.

Lemma lseg_delete h p k xs q a :
  a ∉ xs.*1 -> lseg h p k xs q -> lseg (delete a h) p k xs q.
Proof.
  revert p k. induction xs as [|[a' e'] xs IH]; intros p k Hn Hs; [done|].
  destruct Hs as [-> (nx & Ha & Hs)]. simpl in Hn.
  apply not_elem_of_cons in Hn as [Hne Hn].
  split; [done|]. exists nx. split; [by rewrite lookup_delete_ne|by apply IH].
Qed.

Lemma lseg_app h p k xs ys q :
  lseg h p k (xs ++ ys) q <->
  exists m, lseg h p k xs m /\ lseg h m (k + Z.of_nat (length xs)) ys q.
Proof.
  revert p k. induction xs as [|[a e] xs IH]; intros p k.
  - cbn [app length lseg]. rewrite Z.add_0_r.
    split; [intros H; by exists p|by intros (m & -> & H)].
  - cbn [app length lseg]. rewrite Nat2Z.inj_succ.
    replace (k + Z.succ (Z.of_nat (length xs)))
      with (k + 1 + Z.of_nat (length xs)) by lia.
    split.
    + intros [-> (nx & Ha & Hs)]. apply IH in Hs as (m & H1 & H2).
      exists m. split; [by eauto|done].
    + intros (m & [-> (nx & Ha & H1)] & H2). split; [done|]. exists nx.
      split; [done|]. apply IH. by exists m.
Qed.

Lemma lseg_NoDup h p k xs q : lseg h p k xs q -> NoDup xs.*1.
Proof.
  revert p k. induction xs as [|[a e] xs IH]; intros p k Hs; [constructor|].
  destruct Hs as [-> (nx & Ha & Hs)]. simpl. constructor; [|by eapply IH].
  eapply lseg_index_notin; [done..|]. simpl. lia.
Qed.

Lemma lseg_in_dom h p k xs q a : lseg h p k xs q -> a ∈ xs.*1 -> is_Some (h !! a).
Proof.
  intros Hs Hin.
  apply list_elem_of_fmap in Hin as ([a' e] & -> & Hin).
  apply list_elem_of_lookup in Hin as [j Hj].
  destruct (lseg_lookup _ _ _ _ _ _ _ _ Hs Hj) as [nx Hx]. by eexists.
Qed.

Lemma lseg_length_le h p k xs q : lseg h p k xs q -> (length xs <= size h)%nat.
Proof.
  intros Hs.
  assert (list_to_set (C := gset loc) xs.*1 ⊆ dom h) as Hsub.
  { intros a Ha. apply elem_of_list_to_set in Ha. apply elem_of_dom.
    by eapply lseg_in_dom. }
  apply subseteq_size in Hsub.
  rewrite size_list_to_set in Hsub; [|by eapply lseg_NoDup].
  rewrite length_fmap in Hsub. by rewrite size_dom in Hsub.
Qed.

(** ** Size and lookup on a well-formed list *)

Lemma last_cell (xs : list (loc * ptr)) a :
  last (xs.*1) = Some a ->
  exists e, xs !! pred (length xs) = Some (a, e).
Proof.
  rewrite last_lookup, length_fmap, list_lookup_fmap.
  destruct (xs !! pred (length xs)) as [[a' e]|]; [|done].
  simpl. intros [= ->]. by exists e.
Qed.

Lemma ll_size_valid s lp xs :
  ll_valid s lp xs -> ll_size (Some lp) s = Ok (Z.of_nat (length xs), s).
Proof.
  intros (l & Hl & Hseg & Hlast & Hb). unfold ll_size. simpl.
  rewrite (bind_ok _ _ _ _ _ (get_last_ok s lp l Hl)). rewrite Hlast.
  destruct (last xs.*1) as [a|] eqn:E.
  - destruct (last_cell _ _ E) as [e He].
    pose proof (lookup_lt_Some _ _ _ He) as Hlt.
    destruct (lseg_lookup _ _ _ _ _ _ _ _ Hseg He) as [nx Hx].
    simpl. rewrite (bind_ok _ _ _ _ _ (get_index_ok s a _ Hx)). simpl.
    rewrite int_add_ok; [f_equal; f_equal; lia|].
    unfold INT_MIN, INT_MAX in *. lia.
  - simpl. destruct xs as [|c xs]; [done|].
    rewrite fmap_cons, last_cons in E. by destruct (last xs.*1).
Qed.

Lemma get_loop_found s p k xs j a e fuel :
  lseg (nodes s) p k xs NULL -> xs !! j = Some (a, e) ->
  (length xs < fuel)%nat ->
  get_loop fuel p (k + Z.of_nat j) s = Ok (e, s).
Proof.
  revert p k j fuel. induction xs as [|[a' e'] xs IH]; intros p k j fuel Hs Hj Hf; [done|].
  destruct Hs as [-> (nx & Ha & Hs)]. simpl in Hf.
  destruct fuel as [|fuel]; [lia|]. simpl.
  rewrite (bind_ok _ _ _ _ _ (get_index_ok s a' _ Ha)). simpl.
  destruct j as [|j]; simpl in Hj.
  - injection Hj as -> ->. rewrite Z.add_0_r, Z.eqb_refl.
    by rewrite (get_element_ok s a _ Ha).
  - destruct (k =? k + Z.of_nat (S j)) eqn:E; [apply Z.eqb_eq in E; lia|].
    rewrite (bind_ok _ _ _ _ _ (get_next_ok s a' _ Ha)). simpl.
    replace (k + Z.of_nat (S j)) with (k + 1 + Z.of_nat j) by lia.
    apply IH; [done..|lia].
Qed.

Lemma ll_get_valid s lp xs j a e :
  ll_valid s lp xs -> xs !! j = Some (a, e) ->
  ll_get (Some lp) (Z.of_nat j) s = Ok (e, s).
Proof.
  intros Hv Hj. pose proof (ll_size_valid _ _ _ Hv) as Hsz.
  destruct Hv as (l & Hl & Hseg & Hlast & Hb).
  pose proof (lookup_lt_Some _ _ _ Hj) as Hlt.
  unfold ll_get. simpl.
  destruct (Z.of_nat j <? 0) eqn:E1; [apply Z.ltb_lt in E1; lia|].
  rewrite (bind_ok _ _ _ _ _ Hsz).
  destruct (Z.of_nat j >=? Z.of_nat (length xs)) eqn:E2; [apply Z.geb_le in E2; lia|].
  rewrite (bind_ok _ _ _ _ _ (get_first_ok s lp l Hl)).
  rewrite (bind_ok _ _ _ _ _ (loop_budget_ok s)).
  rewrite <- (Z.add_0_l (Z.of_nat j)).
  eapply get_loop_found; [done..|].
  apply lseg_length_le in Hseg. lia.
Qed.

Lemma ll_get_out_of_range s lp xs i :
  ll_valid s lp xs -> i < 0 \/ Z.of_nat (length xs) <= i ->
  ll_get (Some lp) i s = Ok (NULL, s).
Proof.
  intros Hv Hi. pose proof (ll_size_valid _ _ _ Hv) as Hsz.
  unfold ll_get. simpl.
  destruct (i <? 0) eqn:E1; [done|]. apply Z.ltb_ge in E1.
  rewrite (bind_ok _ _ _ _ _ Hsz).
  destruct (i >=? Z.of_nat (length xs)) eqn:E2; [done|].
  rewrite Z.geb_leb in E2. apply Z.leb_gt in E2. lia.
Qed.

(** ** The invariant, clause by clause *)

Lemma lseg_next h p k xs q j a e :
  lseg h p k xs q -> xs !! j = Some (a, e) ->
  exists nx,
    h !! a = Some (Node e (k + Z.of_nat j) nx) /\
    nx = match xs !! S j with Some c => Some c.1 | None => q end.
Proof.
  revert p k j. induction xs as [|[a' e'] xs IH]; intros p k j Hs Hj; [done|].
  destruct Hs as [-> (nx & Ha & Hs)]. destruct j as [|j]; simpl in Hj.
  - injection Hj as -> ->. exists nx. rewrite Z.add_0_r. split; [done|].
    destruct xs as [|[b eb] xs]; simpl in *; [done|]. by destruct Hs as [-> _].
  - destruct (IH _ _ _ Hs Hj) as (nx' & Hx & Hn). exists nx'. split; [|done].
    rewrite Hx. do 2 f_equal. lia.
Qed.

(** A valid list satisfies each clause of the invariant of the data
    model: the chain starts at [__first] and ends at [__last], the node
    at position [k] caches the index [k] and links to the node at
    position [k + 1], the [next] of the last node is [NULL], and an
    absent first node means an absent last node and size 0. *)
Lemma ll_valid_invariant s lp xs l :
  ll_valid s lp xs -> lists s !! lp = Some l ->
  __first l = head xs.*1 /\
  __last l = last xs.*1 /\
  (forall k a e, xs !! k = Some (a, e) ->
     exists nd, nodes s !! a = Some nd /\
       element nd = e /\ index nd = Z.of_nat k /\ next nd = xs.*1 !! S k) /\
  (forall a, __last l = Some a ->
     exists nd, nodes s !! a = Some nd /\ next nd = NULL) /\
  (__first l = NULL -> __last l = NULL /\ ll_size (Some lp) s = Ok (0, s)).
Proof.
  intros Hv Hl. pose proof (ll_size_valid _ _ _ Hv) as Hsz.
  destruct Hv as (l0 & Hl0 & Hseg & Hlast & Hb).
  rewrite Hl in Hl0. injection Hl0 as <-.
  assert (__first l = head xs.*1) as Hfirst.
  { destruct xs as [|[a e] xs]; simpl in *; [done|]. by destruct Hseg as [-> _]. }
  assert (forall k a e, xs !! k = Some (a, e) ->
     exists nd, nodes s !! a = Some nd /\
       element nd = e /\ index nd = Z.of_nat k /\ next nd = xs.*1 !! S k) as Hnodes.
  { intros k a e Hk. destruct (lseg_next _ _ _ _ _ _ _ _ Hseg Hk) as (nx & Hx & Hn).
    eexists. split; [exact Hx|]. simpl. split; [done|]. split; [done|].
    rewrite Hn, list_lookup_fmap. by destruct (xs !! S k). }
  split; [done|]. split; [done|]. split; [done|]. split.
  - intros a Ha. rewrite Hlast in Ha. destruct (last_cell _ _ Ha) as [e He].
    destruct (Hnodes _ _ _ He) as (nd & Hnd & _ & _ & Hn).
    exists nd. split; [done|]. rewrite Hn. apply lookup_ge_None.
    rewrite length_fmap. lia.
  - intros Hnull. rewrite Hfirst in Hnull.
    destruct xs as [|c xs]; [|done]. by rewrite Hlast.
Qed.

(** ** Replacing an element *)

Lemma lseg_update_elem h p k xs q j a e e2 i nx :
  lseg h p k xs q -> xs !! j = Some (a, e) -> h !! a = Some (Node e i nx) ->
  lseg (<[a := Node e2 i nx]> h) p k (<[j := (a, e2)]> xs) q.
Proof.
  revert p k j. induction xs as [|[a' e'] xs IH]; intros p k j Hs Hj Ha; [done|].
  pose proof (lseg_NoDup _ _ _ _ _ Hs) as Hnd.
  destruct Hs as [-> (nx' & Ha' & Hs)]. simpl in Hnd. apply NoDup_cons in Hnd as [Hni _].
  destruct j as [|j]; simpl in Hj.
  - injection Hj as -> ->. rewrite Ha in Ha'. injection Ha' as -> ->.
    split; [done|]. exists nx'. split; [by rewrite lookup_insert_eq|].
    by apply lseg_insert.
  - assert (a ≠ a') as Hne.
    { intros ->. apply Hni. apply list_elem_of_fmap. exists (a', e).
      split; [done|]. eapply list_elem_of_lookup_2; eauto. }
    split; [done|]. exists nx'. split; [by rewrite lookup_insert_ne|].
    by apply IH.
Qed.

Lemma set_loop_found s p k xs j a e e2 fuel :
  lseg (nodes s) p k xs NULL -> xs !! j = Some (a, e) ->
  (length xs < fuel)%nat ->
  exists nx,
    nodes s !! a = Some (Node e (k + Z.of_nat j) nx) /\
    set_loop fuel p (k + Z.of_nat j) e2 s =
      Ok (e, with_nodes (<[a := Node e2 (k + Z.of_nat j) nx]> (nodes s)) s).
Proof.
  revert p k j fuel. induction xs as [|[a' e'] xs IH]; intros p k j fuel Hs Hj Hf; [done|].
  destruct Hs as [-> (nx & Ha & Hs)]. simpl in Hf.
  destruct fuel as [|fuel]; [lia|]. simpl.
  rewrite (bind_ok _ _ _ _ _ (get_index_ok s a' _ Ha)). simpl.
  destruct j as [|j]; simpl in Hj.
  - injection Hj as -> ->. rewrite Z.add_0_r, Z.eqb_refl. exists nx. split; [done|].
    rewrite (bind_ok _ _ _ _ _ (get_element_ok s a _ Ha)).
    by rewrite (bind_ok _ _ _ _ _ (set_element_ok s a _ e2 Ha)).
  - destruct (k =? k + Z.of_nat (S j)) eqn:E; [apply Z.eqb_eq in E; lia|].
    rewrite (bind_ok _ _ _ _ _ (get_next_ok s a' _ Ha)). simpl.
    replace (k + Z.of_nat (S j)) with (k + 1 + Z.of_nat j) by lia.
    apply IH; [done..|lia].
Qed.

Lemma fst_insert_same (xs : list (loc * ptr)) j a e e2 :
  xs !! j = Some (a, e) -> (<[j := (a, e2)]> xs).*1 = xs.*1.
Proof.
  intros Hj. rewrite list_fmap_insert. apply list_insert_id.
  by rewrite list_lookup_fmap, Hj.
Qed.

Lemma ll_set_valid s lp xs j a e e2 :
  ll_valid s lp xs -> xs !! j = Some (a, e) ->
  exists nx,
    nodes s !! a = Some (Node e (Z.of_nat j) nx) /\
    let s' := with_nodes (<[a := Node e2 (Z.of_nat j) nx]> (nodes s)) s in
    ll_set (Some lp) (Z.of_nat j) e2 s = Ok (e, s') /\
    ll_valid s' lp (<[j := (a, e2)]> xs).
Proof.
  intros Hv Hj. pose proof (ll_size_valid _ _ _ Hv) as Hsz.
  destruct Hv as (l & Hl & Hseg & Hlast & Hb).
  pose proof (lookup_lt_Some _ _ _ Hj) as Hlt.
  pose proof (lseg_length_le _ _ _ _ _ Hseg) as Hle.
  destruct (set_loop_found s _ _ _ _ _ _ e2 (S (size (nodes s))) Hseg Hj) as (nx & Ha & Hloop);
    [lia|].
  rewrite Z.add_0_l in Ha, Hloop.
  exists nx. split; [done|]. split.
  - unfold ll_set. simpl.
    destruct (Z.of_nat j <? 0) eqn:E1; [apply Z.ltb_lt in E1; lia|].
    rewrite (bind_ok _ _ _ _ _ Hsz).
    destruct (Z.of_nat j >=? Z.of_nat (length xs)) eqn:E2; [apply Z.geb_le in E2; lia|].
    rewrite (bind_ok _ _ _ _ _ (get_first_ok s lp l Hl)).
    by rewrite (bind_ok _ _ _ _ _ (loop_budget_ok s)).
  - exists l. split; [done|]. split; [by eapply lseg_update_elem|].
    split; [by erewrite fst_insert_same|by rewrite length_insert].
Qed.

Lemma ll_set_out_of_range s lp xs i e :
  ll_valid s lp xs -> i < 0 \/ Z.of_nat (length xs) <= i ->
  ll_set (Some lp) i e s = Ok (NULL, s).
Proof.
  intros Hv Hi. pose proof (ll_size_valid _ _ _ Hv) as Hsz.
  unfold ll_set. simpl.
  destruct (i <? 0) eqn:E1; [done|]. apply Z.ltb_ge in E1.
  rewrite (bind_ok _ _ _ _ _ Hsz).
  destruct (i >=? Z.of_nat (length xs)) eqn:E2; [done|].
  rewrite Z.geb_leb in E2. apply Z.leb_gt in E2. lia.
Qed.

(** ** Shifting the cached indices *)

Lemma lseg_agree h h' p k xs q :
  (forall a, a ∈ xs.*1 -> h' !! a = h !! a) ->
  lseg h p k xs q -> lseg h' p k xs q.
Proof.
  revert p k. induction xs as [|[a e] xs IH]; intros p k Hag Hs; [done|].
  destruct Hs as [-> (nx & Ha & Hs)]. split; [done|]. exists nx. split.
  - rewrite Hag; [done|]. simpl. apply list_elem_of_here.
  - apply IH; [|done]. intros b Hb. apply Hag. simpl. by apply list_elem_of_further.
Qed.

Lemma shift_indices_ok s p k xs d fuel :
  lseg (nodes s) p k xs NULL ->
  (length xs < fuel)%nat ->
  INT_MIN <= k + d -> k + Z.of_nat (length xs) + d <= INT_MAX + 1 ->
  exists h',
    shift_indices fuel p d s = Ok (tt, with_nodes h' s) /\
    lseg h' p (k + d) xs NULL /\
    (forall b, b ∉ xs.*1 -> h' !! b = nodes s !! b).
Proof.
  revert s p k fuel. induction xs as [|[a e] xs IH]; intros s p k fuel Hs Hf Hlo Hhi.
  - simpl in Hs. subst p. destruct fuel as [|fuel]; [simpl in Hf; lia|].
    exists (nodes s). simpl. split; [by destruct s|done].
  - pose proof (lseg_NoDup _ _ _ _ _ Hs) as Hnd.
    destruct Hs as [-> (nx & Ha & Hs)].
    simpl in Hnd. apply NoDup_cons in Hnd as [Hni _].
    simpl in Hf. destruct fuel as [|fuel]; [lia|].
    cbn [length] in Hhi. rewrite Nat2Z.inj_succ in Hhi.
    set (s1 := with_nodes (<[a := Node e (k + d) nx]> (nodes s)) s).
    destruct (IH s1 nx (k + 1) fuel) as (h' & Hrun & Hseg & Hfr).
    { by apply lseg_insert. }
    { lia. }
    { lia. }
    { lia. }
    exists h'. split; [|split].
    + simpl.
      rewrite (bind_ok _ _ _ _ _ (get_index_ok s a _ Ha)). simpl.
      rewrite (bind_ok _ _ _ _ _ (int_add_ok k d s ltac:(lia))).
      rewrite (bind_ok _ _ _ _ _ (set_index_ok s a _ (k + d) Ha)). simpl.
      fold s1.
      assert (nodes s1 !! a = Some (Node e (k + d) nx)) as Ha1
        by (simpl; apply lookup_insert_eq).
      rewrite (bind_ok _ _ _ _ _ (get_next_ok s1 a _ Ha1)). simpl.
      by rewrite Hrun.
    + split; [done|]. exists nx. split.
      * rewrite Hfr; [|done]. simpl. apply lookup_insert_eq.
      * by replace (k + d + 1) with (k + 1 + d) by lia.
    + intros b Hb. simpl in Hb. apply not_elem_of_cons in Hb as [Hne Hb].
      rewrite Hfr; [|done]. simpl. by rewrite lookup_insert_ne.
Qed.

(** ** Inserting an element *)

Lemma add_walk_ok s pre : forall ca ce b eb suf k na e idx fuel,
  lseg (nodes s) (Some ca) k (((ca, ce) :: pre) ++ (b, eb) :: suf) NULL ->
  nodes s !! na = Some (Node e idx NULL) ->
  na ∉ (((ca, ce) :: pre) ++ (b, eb) :: suf).*1 ->
  idx = k + 1 + Z.of_nat (length pre) ->
  (length (((ca, ce) :: pre) ++ (b, eb) :: suf) < fuel)%nat ->
  exists h',
    add_walk fuel (Some ca) (Some na) idx s = Ok (tt, with_nodes h' s) /\
    lseg h' (Some ca) k ((ca, ce) :: pre) (Some na) /\
    h' !! na = Some (Node e idx (Some b)) /\
    (forall x, x ∉ ((ca, ce) :: pre).*1 -> x ≠ na -> h' !! x = nodes s !! x).
Proof.
  induction pre as [|[c2 e2] pre IH]; intros ca ce b eb suf k na e idx fuel Hs Hna Hni Hidx Hf.
  - destruct Hs as [_ (nx & Hca & [-> (nb & Hb & Hs)])].
    simpl in Hf. destruct fuel as [|fuel]; [lia|].
    simpl in Hni. apply not_elem_of_cons in Hni as [Hne1 Hni].
    apply not_elem_of_cons in Hni as [Hne2 Hni].
    simpl in Hidx. rewrite Z.add_0_r in Hidx. subst idx.
    exists (<[ca := Node ce k (Some na)]> (<[na := Node e (k + 1) (Some b)]> (nodes s))).
    split; [|split; [|split]].
    + simpl.
      rewrite (bind_ok _ _ _ _ _ (get_next_ok s ca _ Hca)). simpl.
      rewrite (bind_ok _ _ _ _ _ (get_index_ok s b _ Hb)). simpl.
      rewrite Z.eqb_refl.
      rewrite (bind_ok _ _ _ _ _ (set_next_ok s na _ (Some b) Hna)). simpl.
      rewrite (set_next_ok _ ca (Node ce k (Some b)) (Some na)); [reflexivity|].
      simpl. by rewrite lookup_insert_ne.
    + split; [done|]. exists (Some na). split; [by rewrite lookup_insert_eq|done].
    + rewrite lookup_insert_ne; [|done]. by rewrite lookup_insert_eq.
    + intros x Hx Hxna. simpl in Hx. apply not_elem_of_cons in Hx as [Hx _].
      by rewrite !lookup_insert_ne.
  - pose proof (lseg_NoDup _ _ _ _ _ Hs) as Hnd.
    destruct Hs as [_ (nx & Hca & Hs)].
    pose proof Hs as [-> (n2 & Hc2 & _)].
    simpl in Hf. destruct fuel as [|fuel]; [lia|].
    cbn [length] in Hidx. rewrite Nat2Z.inj_succ in Hidx.
    change (na ∉ ca :: (((c2, e2) :: pre) ++ (b, eb) :: suf).*1) in Hni.
    change (NoDup (ca :: (((c2, e2) :: pre) ++ (b, eb) :: suf).*1)) in Hnd.
    apply not_elem_of_cons in Hni as [Hne1 Hni].
    apply NoDup_cons in Hnd as [Hca_ni Hnd].
    rewrite fmap_app in Hca_ni. apply not_elem_of_app in Hca_ni as [Hca_pre _].
    destruct (IH c2 e2 b eb suf (k + 1) na e idx fuel) as (h' & Hrun & Hseg & Hnew & Hfr);
      [done|done|done|lia|simpl in *; lia|].
    exists h'. split; [|split; [|split]].
    + simpl.
      rewrite (bind_ok _ _ _ _ _ (get_next_ok s ca _ Hca)). simpl.
      rewrite (bind_ok _ _ _ _ _ (get_index_ok s c2 _ Hc2)). simpl.
      destruct (k + 1 =? idx) eqn:E; [apply Z.eqb_eq in E; lia|].
      exact Hrun.
    + split; [done|]. exists (Some c2). split; [|done].
      rewrite Hfr; [done|done|]. intros ->. by apply Hne1.
    + done.
    + intros x Hx Hxna. apply not_elem_of_cons in Hx as [Hx1 Hx]. by apply Hfr.
Qed.

Lemma malloc_node_ok s na o :
  oracle s = Some na :: o ->
  malloc_node s =
    Ok (Some na, with_nodes (<[na := Node NULL 0 NULL]> (nodes s)) (with_oracle o s)).
Proof. intros H. unfold malloc_node, bind, next_outcome. by rewrite H. Qed.

Lemma malloc_node_fail s :
  oracle s = [] \/ (exists o, oracle s = NULL :: o) ->
  exists s', malloc_node s = Ok (NULL, s') /\
    lists s' = lists s /\ nodes s' = nodes s /\ iters s' = iters s /\ objs s' = objs s.
Proof.
  intros [H|[o H]]; unfold malloc_node, bind, next_outcome; rewrite H; simpl;
    eexists; split; by eauto.
Qed.

Lemma init_node_ok {A} s na n0 e i (k : M A) :
  nodes s !! na = Some n0 ->
  (set_element (Some na) e;; set_index (Some na) i;; set_next (Some na) NULL;; k) s =
    k (with_nodes (<[na := Node e i NULL]> (nodes s)) s).
Proof.
  intros H.
  rewrite (bind_ok _ _ _ _ _ (set_element_ok s na _ e H)).
  erewrite bind_ok; [|apply set_index_ok; simpl; apply lookup_insert_eq].
  erewrite bind_ok; [|apply set_next_ok; simpl; apply lookup_insert_eq].
  simpl. f_equal. unfold with_nodes. simpl. f_equal.
  by rewrite !insert_insert_eq.
Qed.

Lemma ll_valid_frame s s' lp xs :
  ll_valid s lp xs ->
  lists s' !! lp = lists s !! lp ->
  (forall a, a ∈ xs.*1 -> nodes s' !! a = nodes s !! a) ->
  ll_valid s' lp xs.
Proof.
  intros (l & Hl & Hseg & Hlast & Hb) Hls Hns.
  exists l. split; [congruence|]. split; [by eapply lseg_agree|done].
Qed.

Lemma last_fst_app_cons (xs ys : list (loc * ptr)) c :
  last ((xs ++ c :: ys).*1) = last ((c :: ys).*1).
Proof. rewrite fmap_app, fmap_cons. by rewrite last_app_cons. Qed.

Lemma fst_snoc (xs : list (loc * ptr)) a e : (xs ++ [(a, e)]).*1 = xs.*1 ++ [a].
Proof. by rewrite fmap_app. Qed.

Lemma ll_add_valid s lp xs j na o e :
  ll_valid s lp xs -> (j <= length xs)%nat -> Z.of_nat (length xs) < INT_MAX ->
  oracle s = Some na :: o -> nodes s !! na = None ->
  exists s',
    ll_add (Some lp) (Z.of_nat j) e s = Ok (ADDED, s') /\
    ll_valid s' lp (take j xs ++ (na, e) :: drop j xs) /\
    objs s' = objs s /\ iters s' = iters s /\ oracle s' = o.
Proof.
  intros Hv Hj Hlen Ho Hfresh.
  set (i := Z.of_nat j).
  set (s1 := with_nodes (<[na := Node e i NULL]> (nodes s)) (with_oracle o s)).
  assert (ll_valid s1 lp xs) as Hv1.
  { eapply ll_valid_frame; [done|done|]. intros a Ha. simpl.
    destruct Hv as (l & _ & Hseg & _).
    rewrite lookup_insert_ne; [done|]. intros <-.
    by eapply lseg_fresh_notin. }
  pose proof (ll_size_valid _ _ _ Hv) as Hsz.
  pose proof (ll_size_valid _ _ _ Hv1) as Hsz1.
  assert (nodes s1 !! na = Some (Node e i NULL)) as Hna1 by (simpl; apply lookup_insert_eq).
  assert (ll_add (Some lp) i e s =
    (do sz <- ll_size (Some lp);
     if sz =? 0 then
       set_first (Some lp) (Some na);; set_last (Some lp) (Some na);; ret ADDED
     else
     do sz <- ll_size (Some lp);
     if i =? sz then
       do temp <- get_last (Some lp);
       set_next temp (Some na);; set_last (Some lp) (Some na);; ret ADDED
     else
     (if i =? 0 then
        do f <- get_first (Some lp);
        set_next (Some na) f;; set_first (Some lp) (Some na)
      else
        do temp <- get_first (Some lp);
        do fuel <- loop_budget;
        add_walk fuel temp (Some na) i);;
     do temp <- get_next (Some na);
     do fuel <- loop_budget;
     shift_indices fuel temp 1;;
     ret ADDED) s1) as ->.
  { unfold ll_add. simpl.
    destruct (i <? 0) eqn:E1; [apply Z.ltb_lt in E1; lia|].
    rewrite (bind_ok _ _ _ _ _ Hsz).
    destruct (i >? Z.of_nat (length xs)) eqn:E2; [apply Z.gtb_lt in E2; lia|].
    rewrite (bind_ok _ _ _ _ _ (malloc_node_ok s na o Ho)). simpl.
    erewrite init_node_ok; [|simpl; apply lookup_insert_eq].
    f_equal. unfold s1, with_nodes. simpl. f_equal. by rewrite insert_insert_eq. }
  rewrite (bind_ok _ _ _ _ _ Hsz1).
  destruct Hv1 as (l & Hl & Hseg & Hlast & Hb).
  pose proof (lseg_NoDup _ _ _ _ _ Hseg) as Hnd.
  assert (na ∉ xs.*1) as Hna_xs.
  { destruct Hv as (l0 & _ & Hseg0 & _).
    eapply lseg_fresh_notin; [exact Hseg0|exact Hfresh]. }
  destruct (decide (xs = [])) as [->|Hne].
  - (* Adding to empty list *)
    assert (j = 0)%nat as -> by (simpl in Hj; lia).
    simpl.
    rewrite (bind_ok _ _ _ _ _ (set_first_ok s1 lp l (Some na) Hl)).
    erewrite bind_ok; [|apply set_last_ok; simpl; apply lookup_insert_eq].
    eexists. split; [reflexivity|]. split; [|done].
    eexists. split; [simpl; apply lookup_insert_eq|].
    simpl. split; [|split].
    + split; [done|]. exists NULL. split; [apply lookup_insert_eq|done].
    + done.
    + by unfold INT_MAX.
  - destruct (Z.of_nat (length xs) =? 0) eqn:E0.
    { apply Z.eqb_eq in E0. destruct xs; [done|simpl in E0; lia]. }
    rewrite (bind_ok _ _ _ _ _ Hsz1).
    destruct (decide (j = length xs)) as [->|Hjne].
    + (* Adding to end of list *)
      unfold i. rewrite Z.eqb_refl.
      rewrite (bind_ok _ _ _ _ _ (get_last_ok s1 lp l Hl)).
      destruct (last xs) as [[al el]|] eqn:El; [|by apply last_None in El].
      apply last_Some in El as [xs0 ->].
      rewrite fst_snoc, last_snoc in Hlast. rewrite Hlast.
      apply lseg_app in Hseg as (m & Hseg0 & [-> (nx & Hal & ->)]).
      fold i in Hal.
      rewrite fst_snoc in Hnd, Hna_xs. apply NoDup_app in Hnd as (_ & Hnd & _).
      apply not_elem_of_app in Hna_xs as [Hna_xs0 Hna_al].
      apply not_elem_of_cons in Hna_al as [Hna_al _].
      rewrite (bind_ok _ _ _ _ _ (set_next_ok s1 al _ (Some na) Hal)).
      erewrite bind_ok; [|apply set_last_ok; simpl; exact Hl].
      eexists. split; [reflexivity|]. split; [|done].
      rewrite take_ge by lia. rewrite drop_ge by lia.
      eexists. split; [simpl; apply lookup_insert_eq|].
      simpl. split; [|split].
      * rewrite <- app_assoc. apply lseg_app. exists (Some al). split.
        -- eapply lseg_agree; [|exact Hseg0]. intros a Ha.
           rewrite lookup_insert_ne; [done|].
           intros <-. eapply Hnd; [exact Ha|apply list_elem_of_here].
        -- split; [done|]. exists (Some na). split.
           ++ by rewrite lookup_insert_eq.
           ++ split; [done|]. exists NULL. split; [|done].
              rewrite lookup_insert_ne by done. rewrite lookup_insert_eq.
              do 3 f_equal. unfold i. rewrite !length_app. simpl. lia.
      * by rewrite !fst_snoc, last_snoc.
      * rewrite !length_app in *. simpl in *. lia.
    + destruct (i =? Z.of_nat (length xs)) eqn:E1; [apply Z.eqb_eq in E1; lia|].
      pose proof (lseg_length_le _ _ _ _ _ Hseg) as Hle.
      destruct j as [|j'].
      * (* Adding to front of list *)
        destruct xs as [|[a0 e0] xs']; [done|].
        pose proof Hseg as [Hf (nx0 & Ha0 & _)].
        assert (na ≠ a0) as Hna_a0.
        { intros ->. apply Hna_xs. simpl. apply list_elem_of_here. }
        set (s2 := with_nodes (<[na := Node e i (Some a0)]> (nodes s1)) s1).
        set (s3 := with_lists
          (<[lp := LList (Some na) (__last l) (__elem_size l)]> (lists s2)) s2).
        assert ((do f <- get_first (Some lp);
                 set_next (Some na) f;; set_first (Some lp) (Some na)) s1 =
                Ok (tt, s3)) as Hfront.
        { rewrite (bind_ok _ _ _ _ _ (get_first_ok s1 lp l Hl)). rewrite Hf.
          rewrite (bind_ok _ _ _ _ _ (set_next_ok s1 na _ (Some a0) Hna1)).
          by rewrite (set_first_ok _ lp l (Some na)). }
        change (i =? 0) with true. cbv iota.
        rewrite (bind_ok _ _ _ _ _ Hfront).
        assert (nodes s3 !! na = Some (Node e i (Some a0))) as Hna3
          by (simpl; apply lookup_insert_eq).
        rewrite (bind_ok _ _ _ _ _ (get_next_ok s3 na _ Hna3)).
        rewrite (bind_ok _ _ _ _ _ (loop_budget_ok s3)). simpl next.
        destruct (shift_indices_ok s3 (Some a0) 0 ((a0, e0) :: xs') 1 (S (size (nodes s3))))
          as (h' & Hrun & Hseg' & Hfr).
        { eapply lseg_agree; [|rewrite <- Hf; exact Hseg]. intros a Ha. simpl.
          rewrite lookup_insert_ne; [done|]. by intros <-. }
        { assert (size (nodes s3) = size (nodes s1)) as ->; [|lia].
          simpl. rewrite insert_insert_eq. by rewrite !map_size_insert_None. }
        { unfold INT_MIN. lia. }
        { lia. }
        rewrite (bind_ok _ _ _ _ _ Hrun).
        eexists. split; [reflexivity|]. split; [|done].
        eexists. split; [simpl; apply lookup_insert_eq|].
        simpl. split; [|split].
        -- split; [done|]. exists (Some a0). split; [|done].
           rewrite Hfr; [apply lookup_insert_eq|done].
        -- rewrite Hlast. simpl. by destruct (xs'.*1).
        -- simpl in Hlen. lia.
      * (* Adding somewhere in middle of list *)
        destruct xs as [|[ca ce] xs']; [done|].
        cbn [length] in Hj, Hjne.
        destruct (drop j' xs') as [|[b eb] suf] eqn:Ed.
        { apply (f_equal length) in Ed. rewrite length_drop in Ed. simpl in Ed. lia. }
        cbn [take drop]. rewrite Ed.
        assert (xs' = take j' xs' ++ (b, eb) :: suf) as Hxs
          by (rewrite <- Ed; by rewrite take_drop).
        assert (length (take j' xs') = j') as Hlp by (rewrite length_take; lia).
        remember (take j' xs') as pre eqn:Hpre. clear Hpre Ed. subst xs'.
        pose proof Hseg as [Hf _].
        rewrite Hf in Hseg.
        change ((ca, ce) :: pre ++ (b, eb) :: suf)
          with (((ca, ce) :: pre) ++ (b, eb) :: suf) in *.
        destruct (add_walk_ok s1 pre ca ce b eb suf 0 na e i (S (size (nodes s1))))
          as (h' & Hwalk & Hpre' & Hna' & Hfr').
        { done. }
        { done. }
        { done. }
        { lia. }
        { lia. }
        assert ((do temp <- get_first (Some lp);
                 do fuel <- loop_budget; add_walk fuel temp (Some na) i) s1 =
                Ok (tt, with_nodes h' s1)) as Hmid.
        { rewrite (bind_ok _ _ _ _ _ (get_first_ok s1 lp l Hl)). rewrite Hf.
          by rewrite (bind_ok _ _ _ _ _ (loop_budget_ok s1)). }
        destruct (i =? 0) eqn:E2; [apply Z.eqb_eq in E2; lia|].
        rewrite (bind_ok _ _ _ _ _ Hmid).
        set (s2 := with_nodes h' s1).
        rewrite (bind_ok _ _ _ _ _ (get_next_ok s2 na _ Hna')).
        rewrite (bind_ok _ _ _ _ _ (loop_budget_ok s2)). simpl next.
        rewrite fmap_app in Hnd, Hna_xs.
        apply NoDup_app in Hnd as (_ & Hdisj & _).
        apply not_elem_of_app in Hna_xs as [Hna_pre Hna_suf].
        apply lseg_app in Hseg as (m & _ & Hsuf).
        pose proof Hsuf as [-> _].
        assert (lseg (nodes s2) (Some b) i ((b, eb) :: suf) NULL) as Hsuf2.
        { eapply lseg_agree; [|replace i with (0 + Z.of_nat (length ((ca, ce) :: pre)));
            [exact Hsuf|simpl length; lia]].
          intros a Ha. simpl. apply Hfr'.
          - intros Hp. by eapply Hdisj.
          - by intros ->. }
        destruct (shift_indices_ok s2 (Some b) i ((b, eb) :: suf) 1 (S (size (nodes s2))))
          as (h'' & Hrun & Hseg'' & Hfr''); [done| | | |].
        { apply lseg_length_le in Hsuf2. lia. }
        { unfold INT_MIN. lia. }
        { rewrite length_app in Hlen. cbn [length] in Hlen |- *. lia. }
        rewrite (bind_ok _ _ _ _ _ Hrun).
        eexists. split; [reflexivity|]. split; [|done].
        exists l. split; [done|]. split; [|split].
        -- change (lseg h'' (__first l) 0
             (((ca, ce) :: pre) ++ (na, e) :: (b, eb) :: suf) NULL).
           rewrite Hf. apply lseg_app. exists (Some na).
           replace (0 + Z.of_nat (length ((ca, ce) :: pre))) with i
             by (cbn [length]; lia).
           split.
           ++ eapply lseg_agree; [|exact Hpre']. intros a Ha. apply Hfr''.
              by apply Hdisj.
           ++ split; [done|]. exists (Some b). split; [|done].
              rewrite Hfr''; [|done]. exact Hna'.
        -- rewrite Hlast.
           change (last (((ca, ce) :: pre) ++ (b, eb) :: suf).*1 =
                   last (((ca, ce) :: pre) ++ (na, e) :: (b, eb) :: suf).*1).
           rewrite !fmap_app, !fmap_cons.
           by rewrite !last_app_cons, last_cons_cons.
        -- change (Z.of_nat (length (((ca, ce) :: pre) ++ (na, e) :: (b, eb) :: suf))
                   <= INT_MAX).
           rewrite !length_app in *. cbn [length] in *. lia.
Qed.

(** ** Byte-wise search *)

Lemma read_bytes_ok s n p bs :
  first_bytes s n p = Some bs -> read_bytes p n s = Ok (bs, s).
Proof.
  unfold first_bytes, read_bytes. destruct p as [a|]; [|done].
  destruct (objs s !! a) as [o|]; [|done].
  destruct (n <=? N.of_nat (length (obj_bytes o)))%N; [|done].
  by intros [= ->].
Qed.

Lemma first_bytes_length s n p bs :
  first_bytes s n p = Some bs -> length bs = N.to_nat n.
Proof.
  unfold first_bytes. destruct p as [a|]; [|done].
  destruct (objs s !! a) as [o|]; [|done].
  destruct (n <=? N.of_nat (length (obj_bytes o)))%N eqn:E; [|done].
  intros [= <-]. apply N.leb_le in E. rewrite length_take. lia.
Qed.

Lemma byte_diff_nonzero x y :
  x <> y -> Z.of_N (Byte.to_N x) - Z.of_N (Byte.to_N y) <> 0.
Proof.
  intros Hne Hz. apply Hne.
  assert (Byte.to_N x = Byte.to_N y) as E by lia.
  pose proof (Byte.of_to_N x) as Hx. rewrite E, Byte.of_to_N in Hx. congruence.
Qed.

Lemma bytes_cmp_zero a b :
  length a = length b -> bytes_cmp a b = 0 <-> a = b.
Proof.
  revert b. induction a as [|x a IH]; intros [|y b] Hlen; simpl in *; try done.
  destruct (Byte.eqb x y) eqn:E.
  - apply Byte.byte_dec_bl in E as ->. rewrite IH by lia.
    split; [by intros ->|by intros [= ->]].
  - apply Byte.eqb_false in E. split.
    + intros Hz. by apply byte_diff_nonzero in Hz.
    + by intros [= -> ->].
Qed.

Lemma memcmp_ok s n p q a b :
  first_bytes s n p = Some a -> first_bytes s n q = Some b ->
  memcmp p q n s = Ok (bytes_cmp a b, s).
Proof.
  intros Hp Hq. unfold memcmp.
  rewrite (bind_ok _ _ _ _ _ (read_bytes_ok _ _ _ _ Hp)).
  by rewrite (bind_ok _ _ _ _ _ (read_bytes_ok _ _ _ _ Hq)).
Qed.

(** [memcmp] answers zero exactly on byte-equal payloads. *)
Lemma memcmp_spec s n p q :
  readable s n p -> readable s n q ->
  exists c, memcmp p q n s = Ok (c, s) /\ (c = 0 <-> byte_equal s n p q).
Proof.
  intros [a Ha] [b Hb]. exists (bytes_cmp a b). split; [by apply memcmp_ok|].
  rewrite bytes_cmp_zero.
  - split.
    + intros ->. by exists b.
    + intros (bs & H1 & H2). congruence.
  - apply first_bytes_length in Ha, Hb. congruence.
Qed.

Lemma contains_loop_ok s p k xs e n fuel :
  lseg (nodes s) p k xs NULL ->
  Forall (fun c => readable s n c.2) xs -> readable s n e ->
  (length xs < fuel)%nat ->
  exists r,
    contains_loop fuel p e n s = Ok (r, s) /\
    (r = 1 /\ Exists (fun c => byte_equal s n e c.2) xs \/
     r = 0 /\ Forall (fun c => ~ byte_equal s n e c.2) xs).
Proof.
  revert p k fuel. induction xs as [|[a e'] xs IH]; intros p k fuel Hs Hr He Hf.
  - simpl in Hs. subst p. destruct fuel as [|fuel]; [simpl in Hf; lia|].
    exists 0. split; [done|]. right. by split.
  - destruct Hs as [-> (nx & Ha & Hs)]. simpl in Hf.
    destruct fuel as [|fuel]; [lia|].
    apply Forall_cons in Hr as [Hr1 Hr].
    destruct (memcmp_spec s n e e' He Hr1) as (c & Hc & Hc0).
    destruct (IH nx (k + 1) fuel Hs Hr He ltac:(lia)) as (r & Hrun & Hres).
    simpl.
    rewrite (bind_ok _ _ _ _ _ (get_element_ok s a _ Ha)). simpl.
    rewrite (bind_ok _ _ _ _ _ Hc).
    destruct (c =? 0) eqn:E.
    + apply Z.eqb_eq in E. exists 1. split; [done|]. left. split; [done|].
      apply Exists_cons_hd. by apply Hc0.
    + apply Z.eqb_neq in E.
      rewrite (bind_ok _ _ _ _ _ (get_next_ok s a _ Ha)). simpl.
      exists r. split; [done|]. destruct Hres as [[-> Hex]|[-> Hall]].
      * left. split; [done|]. by apply Exists_cons_tl.
      * right. split; [done|]. apply Forall_cons. split; [|done].
        simpl. intros Hbe. by apply E, Hc0.
Qed.

Lemma indexof_loop_ok s p k xs e n fuel :
  lseg (nodes s) p k xs NULL ->
  Forall (fun c => readable s n c.2) xs -> readable s n e ->
  (length xs < fuel)%nat ->
  exists r,
    indexof_loop fuel p e n s = Ok (r, s) /\
    (r = -1 /\ Forall (fun c => ~ byte_equal s n e c.2) xs \/
     exists j c, r = k + Z.of_nat j /\ xs !! j = Some c /\
       byte_equal s n e c.2 /\
       Forall (fun c => ~ byte_equal s n e c.2) (take j xs)).
Proof.
  revert p k fuel. induction xs as [|[a e'] xs IH]; intros p k fuel Hs Hr He Hf.
  - simpl in Hs. subst p. destruct fuel as [|fuel]; [simpl in Hf; lia|].
    exists (-1). split; [done|]. left. by split.
  - destruct Hs as [-> (nx & Ha & Hs)]. simpl in Hf.
    destruct fuel as [|fuel]; [lia|].
    apply Forall_cons in Hr as [Hr1 Hr].
    destruct (memcmp_spec s n e e' He Hr1) as (c & Hc & Hc0).
    destruct (IH nx (k + 1) fuel Hs Hr He ltac:(lia)) as (r & Hrun & Hres).
    simpl.
    rewrite (bind_ok _ _ _ _ _ (get_element_ok s a _ Ha)). simpl.
    rewrite (bind_ok _ _ _ _ _ Hc).
    destruct (c =? 0) eqn:E.
    + apply Z.eqb_eq in E. exists k. split; [by rewrite (get_index_ok s a _ Ha)|].
      right. exists 0%nat, (a, e'). rewrite Z.add_0_r.
      split; [done|]. split; [done|]. split; [by apply Hc0|constructor].
    + apply Z.eqb_neq in E.
      rewrite (bind_ok _ _ _ _ _ (get_next_ok s a _ Ha)). simpl.
      exists r. split; [done|].
      assert (~ byte_equal s n e e') as Hnot by (intros Hbe; by apply E, Hc0).
      destruct Hres as [[-> Hall]|(j & c' & -> & Hj & Hm & Hall)].
      * left. split; [done|]. by apply Forall_cons.
      * right. exists (S j), c'. split; [lia|]. split; [done|]. split; [done|].
        simpl. by apply Forall_cons.
Qed.

(** ** Iterators *)

Lemma malloc_iter_ok s ia o :
  oracle s = Some ia :: o ->
  malloc_iter s =
    Ok (Some ia, with_iters (<[ia := LIter NULL]> (iters s)) (with_oracle o s)).
Proof. intros H. unfold malloc_iter, bind, next_outcome. by rewrite H. Qed.

Lemma itr_loop_found s p k xs j a e ia i0 fuel :
  lseg (nodes s) p k xs NULL -> xs !! j = Some (a, e) ->
  iters s !! ia = Some i0 ->
  (length xs < fuel)%nat ->
  itr_loop fuel p (k + Z.of_nat j) (Some ia) s =
    Ok (Some ia, with_iters (<[ia := LIter (Some a)]> (iters s)) s).
Proof.
  revert p k j fuel. induction xs as [|[a' e'] xs IH]; intros p k j fuel Hs Hj Hi Hf; [done|].
  destruct Hs as [-> (nx & Ha & Hs)]. simpl in Hf.
  destruct fuel as [|fuel]; [lia|]. simpl.
  rewrite (bind_ok _ _ _ _ _ (get_index_ok s a' _ Ha)). simpl.
  destruct j as [|j]; simpl in Hj.
  - injection Hj as -> ->. rewrite Z.add_0_r, Z.eqb_refl.
    by rewrite (bind_ok _ _ _ _ _ (set_itr_next_ok s ia i0 (Some a) Hi)).
  - destruct (k =? k + Z.of_nat (S j)) eqn:E; [apply Z.eqb_eq in E; lia|].
    rewrite (bind_ok _ _ _ _ _ (get_next_ok s a' _ Ha)). simpl.
    replace (k + Z.of_nat (S j)) with (k + 1 + Z.of_nat j) by lia.
    apply IH; [done..|lia].
Qed.

Lemma ll_itr_valid s lp xs j a e ia o :
  ll_valid s lp xs -> xs !! j = Some (a, e) ->
  oracle s = Some ia :: o ->
  ll_itr (Some lp) (Z.of_nat j) s =
    Ok (Some ia, with_iters (<[ia := LIter (Some a)]> (iters s)) (with_oracle o s)).
Proof.
  intros Hv Hj Ho. pose proof (ll_size_valid _ _ _ Hv) as Hsz.
  destruct Hv as (l & Hl & Hseg & Hlast & Hb).
  pose proof (lookup_lt_Some _ _ _ Hj) as Hlt.
  pose proof (lseg_length_le _ _ _ _ _ Hseg) as Hle.
  unfold ll_itr. simpl.
  destruct (Z.of_nat j <? 0) eqn:E1; [apply Z.ltb_lt in E1; lia|].
  rewrite (bind_ok _ _ _ _ _ Hsz).
  destruct (Z.of_nat j >=? Z.of_nat (length xs)) eqn:E2; [apply Z.geb_le in E2; lia|].
  rewrite (bind_ok _ _ _ _ _ (malloc_iter_ok s ia o Ho)). simpl.
  set (s1 := with_iters (<[ia := LIter NULL]> (iters s)) (with_oracle o s)).
  rewrite (bind_ok _ _ _ _ _ (get_first_ok s1 lp l Hl)).
  rewrite (bind_ok _ _ _ _ _ (loop_budget_ok s1)).
  rewrite <- (Z.add_0_l (Z.of_nat j)).
  erewrite (itr_loop_found s1 _ 0 xs j a e ia (LIter NULL)); [|done|done| |simpl; lia].
  - f_equal. f_equal. unfold s1, with_iters. simpl. f_equal. apply insert_insert_eq.
  - simpl. apply lookup_insert_eq.
Qed.

Lemma li_hasnext_at s it a nd :
  iters s !! it = Some (LIter (Some a)) -> nodes s !! a = Some nd ->
  li_hasnext (Some it) s = Ok (if is_null (next nd) then lnot EXIST else EXIST, s).
Proof.
  intros Hi Ha. unfold li_hasnext. simpl.
  rewrite (bind_ok _ _ _ _ _ (get_itr_next_ok s it _ Hi)). simpl.
  by rewrite (bind_ok _ _ _ _ _ (get_next_ok s a _ Ha)).
Qed.

Lemma li_next_at s it a nd :
  iters s !! it = Some (LIter (Some a)) -> nodes s !! a = Some nd ->
  li_next (Some it) s =
    Ok (element nd, with_iters (<[it := LIter (next nd)]> (iters s)) s).
Proof.
  intros Hi Ha. unfold li_next. simpl.
  rewrite (bind_ok _ _ _ _ _ (get_itr_next_ok s it _ Hi)). simpl.
  rewrite (bind_ok _ _ _ _ _ (get_next_ok s a _ Ha)).
  rewrite (bind_ok _ _ _ _ _ (set_itr_next_ok s it _ (next nd) Hi)).
  by rewrite (get_element_ok _ a nd).
Qed.

Lemma li_hasnext_exhausted s it :
  iters s !! it = Some (LIter NULL) -> li_hasnext (Some it) s = Fault NullDeref.
Proof.
  intros Hi. unfold li_hasnext. simpl.
  by rewrite (bind_ok _ _ _ _ _ (get_itr_next_ok s it _ Hi)).
Qed.

Lemma li_next_exhausted s it :
  iters s !! it = Some (LIter NULL) -> li_next (Some it) s = Ok (NULL, s).
Proof.
  intros Hi. unfold li_next. simpl.
  by rewrite (bind_ok _ _ _ _ _ (get_itr_next_ok s it _ Hi)).
Qed.

Lemma drain_ok it xs : forall s a e k fuel,
  lseg (nodes s) (Some a) k ((a, e) :: xs) NULL ->
  iters s !! it = Some (LIter (Some a)) ->
  (length xs < fuel)%nat ->
  exists s',
    drain fuel (Some it) s = Ok ((removelast ((a, e) :: xs)).*2, s') /\
    nodes s' = nodes s /\ lists s' = lists s /\ objs s' = objs s.
Proof.
  induction xs as [|[a2 e2] xs IH]; intros s a e k fuel Hs Hi Hf.
  - destruct Hs as [_ (nx & Ha & ->)].
    destruct fuel as [|fuel]; [simpl in Hf; lia|]. simpl.
    rewrite (bind_ok _ _ _ _ _ (li_hasnext_at s it a _ Hi Ha)). simpl.
    by exists s.
  - destruct Hs as [_ (nx & Ha & Hs)]. pose proof Hs as [-> _].
    simpl in Hf. destruct fuel as [|fuel]; [lia|].
    set (s1 := with_iters (<[it := LIter (Some a2)]> (iters s)) s).
    destruct (IH s1 a2 e2 (k + 1) fuel) as (s' & Hrun & Hn & Hl & Ho).
    { done. }
    { simpl. apply lookup_insert_eq. }
    { lia. }
    exists s'. split; [|done].
    cbn [drain].
    rewrite (bind_ok _ _ _ _ _ (li_hasnext_at s it a _ Hi Ha)). simpl.
    rewrite (bind_ok _ _ _ _ _ (li_next_at s it a _ Hi Ha)). simpl.
    fold s1. by rewrite (bind_ok _ _ _ _ _ Hrun).
Qed.

(** ** Removing an element *)

Lemma remove_walk_ok s pre : forall ca ce b eb suf k idx fuel,
  lseg (nodes s) (Some ca) k (((ca, ce) :: pre) ++ (b, eb) :: suf) NULL ->
  idx = k + 1 + Z.of_nat (length pre) ->
  (length (((ca, ce) :: pre) ++ (b, eb) :: suf) < fuel)%nat ->
  exists h' nb,
    nodes s !! b = Some (Node eb idx nb) /\
    remove_walk fuel (Some ca) idx s = Ok (Some (Some b), with_nodes h' s) /\
    lseg h' (Some ca) k ((ca, ce) :: pre) nb /\
    (forall x, x ∉ ((ca, ce) :: pre).*1 -> h' !! x = nodes s !! x).
Proof.
  induction pre as [|[c2 e2] pre IH]; intros ca ce b eb suf k idx fuel Hs Hidx Hf.
  - destruct Hs as [_ (nx & Hca & [-> (nb & Hb & Hs)])].
    simpl in Hf. destruct fuel as [|fuel]; [lia|].
    simpl in Hidx. rewrite Z.add_0_r in Hidx. subst idx.
    exists (<[ca := Node ce k nb]> (nodes s)), nb.
    split; [done|]. split; [|split].
    + simpl.
      rewrite (bind_ok _ _ _ _ _ (get_next_ok s ca _ Hca)). simpl.
      rewrite (bind_ok _ _ _ _ _ (get_index_ok s b _ Hb)). simpl.
      rewrite Z.eqb_refl.
      rewrite (bind_ok _ _ _ _ _ (get_next_ok s b _ Hb)). simpl.
      by rewrite (bind_ok _ _ _ _ _ (set_next_ok s ca _ nb Hca)).
    + split; [done|]. exists nb. split; [by rewrite lookup_insert_eq|done].
    + intros x Hx. simpl in Hx. apply not_elem_of_cons in Hx as [Hx _].
      by rewrite lookup_insert_ne.
  - pose proof (lseg_NoDup _ _ _ _ _ Hs) as Hnd.
    destruct Hs as [_ (nx & Hca & Hs)].
    pose proof Hs as [-> (n2 & Hc2 & _)].
    simpl in Hf. destruct fuel as [|fuel]; [lia|].
    cbn [length] in Hidx. rewrite Nat2Z.inj_succ in Hidx.
    change (NoDup (ca :: (((c2, e2) :: pre) ++ (b, eb) :: suf).*1)) in Hnd.
    apply NoDup_cons in Hnd as [Hca_ni Hnd].
    rewrite fmap_app in Hca_ni. apply not_elem_of_app in Hca_ni as [Hca_pre _].
    destruct (IH c2 e2 b eb suf (k + 1) idx fuel) as (h' & nb & Hb & Hrun & Hseg & Hfr).
    { done. }
    { lia. }
    { simpl in *. lia. }
    exists h', nb. split; [done|]. split; [|split].
    + simpl.
      rewrite (bind_ok _ _ _ _ _ (get_next_ok s ca _ Hca)). simpl.
      rewrite (bind_ok _ _ _ _ _ (get_index_ok s c2 _ Hc2)). simpl.
      destruct (k + 1 =? idx) eqn:E; [apply Z.eqb_eq in E; lia|].
      exact Hrun.
    + split; [done|]. exists (Some c2). split; [|done]. by rewrite Hfr.
    + intros x Hx. apply not_elem_of_cons in Hx as [Hx1 Hx]. by apply Hfr.
Qed.

Lemma free_node_ok s a n :
  nodes s !! a = Some n ->
  free_node (Some a) s = Ok (tt, with_nodes (delete a (nodes s)) s).
Proof. intros H. unfold free_node. by rewrite H. Qed.

(** The part of [ll_remove] after the node has been unlinked: shift the
    indices behind it, read its element, free it. *)
Lemma remove_finish s b eb idx nb suf :
  nodes s !! b = Some (Node eb idx nb) ->
  lseg (nodes s) nb (idx + 1) suf NULL ->
  0 <= idx ->
  Z.of_nat (length suf) + idx <= INT_MAX ->
  exists h',
    (do temp <- get_next (Some b);
     do fuel <- loop_budget;
     shift_indices fuel temp (-1);;
     do result <- get_element (Some b);
     free_node (Some b);;
     ret result) s = Ok (eb, with_nodes (delete b h') s) /\
    lseg (delete b h') nb idx suf NULL /\
    (forall x, x ∉ suf.*1 -> h' !! x = nodes s !! x).
Proof.
  intros Hb Hsuf Hlo Hhi.
  assert (b ∉ suf.*1) as Hb_suf.
  { eapply lseg_index_notin; [exact Hsuf|exact Hb|]. simpl. lia. }
  destruct (shift_indices_ok s nb (idx + 1) suf (-1) (S (size (nodes s))))
    as (h' & Hrun & Hseg & Hfr).
  { done. }
  { apply lseg_length_le in Hsuf. lia. }
  { unfold INT_MIN. lia. }
  { lia. }
  exists h'. split; [|split; [|done]].
  - rewrite (bind_ok _ _ _ _ _ (get_next_ok s b _ Hb)).
    rewrite (bind_ok _ _ _ _ _ (loop_budget_ok s)). simpl next.
    rewrite (bind_ok _ _ _ _ _ Hrun).
    assert (nodes (with_nodes h' s) !! b = Some (Node eb idx nb)) as Hb'
      by (simpl; by rewrite Hfr).
    rewrite (bind_ok _ _ _ _ _ (get_element_ok _ b _ Hb')).
    by rewrite (bind_ok _ _ _ _ _ (free_node_ok _ b _ Hb')).
  - apply lseg_delete; [done|].
    by replace (idx + 1 + -1) with idx in Hseg by lia.
Qed.

Lemma ll_remove_spec s lp xs j a e :
  ll_valid s lp xs -> xs !! j = Some (a, e) ->
  exists s' l l',
    ll_remove (Some lp) (Z.of_nat j) s = Ok (e, s') /\
    lists s !! lp = Some l /\ lists s' !! lp = Some l' /\
    lseg (nodes s') (__first l') 0 (delete j xs) NULL /\
    nodes s' !! a = None /\
    __last l' = (if decide (j = 0%nat) then last (delete j xs).*1 else __last l) /\
    __elem_size l' = __elem_size l /\
    objs s' = objs s /\ iters s' = iters s /\ oracle s' = oracle s.
Proof.
  intros Hv Hj. pose proof (ll_size_valid _ _ _ Hv) as Hsz.
  destruct Hv as (l & Hl & Hseg & Hlast & Hb).
  pose proof (lookup_lt_Some _ _ _ Hj) as Hlt.
  pose proof (lseg_length_le _ _ _ _ _ Hseg) as Hle.
  assert (ll_remove (Some lp) (Z.of_nat j) s =
    (do target <-
       (if Z.of_nat j =? 0 then
          do target <- get_first (Some lp);
          do temp <- get_next target;
          set_first (Some lp) temp;;
          (if is_null temp then set_last (Some lp) temp else ret tt);;
          ret (Some target)
        else
          do temp <- get_first (Some lp);
          do fuel <- loop_budget;
          remove_walk fuel temp (Z.of_nat j));
     match target with
     | None => fail UninitRead
     | Some target =>
         do temp <- get_next target;
         do fuel <- loop_budget;
         shift_indices fuel temp (-1);;
         do result <- get_element target;
         free_node target;;
         ret result
     end) s) as ->.
  { unfold ll_remove. simpl.
    destruct (Z.of_nat j <? 0) eqn:E1; [apply Z.ltb_lt in E1; lia|].
    rewrite (bind_ok _ _ _ _ _ Hsz).
    destruct (Z.of_nat j >=? Z.of_nat (length xs)) eqn:E2; [apply Z.geb_le in E2; lia|].
    rewrite (bind_ok _ _ _ _ _ Hsz).
    destruct (Z.of_nat (length xs) =? 0) eqn:E3; [apply Z.eqb_eq in E3; lia|].
    done. }
  destruct j as [|j'].
  - (* Removing from front of list *)
    destruct xs as [|[a0 e0] xs']; [done|]. simpl in Hj. injection Hj as -> ->.
    destruct Hseg as [Hf (nx & Ha & Hseg')].
    change (Z.of_nat 0 =? 0) with true. cbv iota.
    set (l1 := LList nx (__last l) (__elem_size l)).
    set (s1 := with_lists (<[lp := l1]> (lists s)) s).
    set (l2 := if is_null nx then LList nx nx (__elem_size l) else l1).
    set (s2 := with_lists (<[lp := l2]> (lists s)) s).
    assert ((do target <- get_first (Some lp);
             do temp <- get_next target;
             set_first (Some lp) temp;;
             (if is_null temp then set_last (Some lp) temp else ret tt);;
             ret (Some target)) s = Ok (Some (Some a), s2)) as Hfront.
    { rewrite (bind_ok _ _ _ _ _ (get_first_ok s lp l Hl)). rewrite Hf.
      rewrite (bind_ok _ _ _ _ _ (get_next_ok s a _ Ha)). simpl next.
      rewrite (bind_ok _ _ _ _ _ (set_first_ok s lp l nx Hl)). fold l1 s1.
      unfold s2, l2. destruct nx as [n|]; simpl is_null; cbv iota.
      - unfold bind, ret. do 2 f_equal.
      - assert (lists s1 !! lp = Some l1) as Hl1 by (simpl; apply lookup_insert_eq).
        rewrite (bind_ok _ _ _ _ _ (set_last_ok s1 lp l1 NULL Hl1)).
        unfold ret. do 2 f_equal. unfold s1, with_lists. simpl. f_equal.
        apply insert_insert_eq. }
    rewrite (bind_ok _ _ _ _ _ Hfront).
    destruct (remove_finish s2 a e 0 nx xs') as (h' & Hrun & Hseg'' & Hfr).
    { done. }
    { done. }
    { lia. }
    { simpl in Hb. lia. }
    rewrite Hrun.
    exists (with_nodes (delete a h') s2), l, l2.
    split; [done|]. split; [done|]. split; [simpl; apply lookup_insert_eq|].
    assert (__first l2 = nx) as Hf2 by (unfold l2, l1; by destruct nx).
    rewrite Hf2. split; [done|]. split; [simpl; apply lookup_delete_eq|].
    split; [|split; [unfold l2, l1; by destruct nx|done]].
    simpl. unfold l2, l1. destruct xs' as [|[a1 e1] xs''].
    + simpl in Hseg'. by subst nx.
    + destruct Hseg' as [-> _]. simpl. rewrite Hlast. done.
  - (* Remove from elsewhere in list *)
    destruct xs as [|[ca ce] xs']; [done|].
    simpl in Hj.
    set (i := Z.of_nat (S j')).
    assert (i = Z.of_nat j' + 1) as Hi by (unfold i; lia).
    clearbody i.
    assert (xs' = take j' xs' ++ (a, e) :: drop (S j') xs') as Hxs
      by (by rewrite take_drop_middle).
    assert (length (take j' xs') = j') as Hlp.
    { rewrite length_take. apply lookup_lt_Some in Hj. lia. }
    change (delete (S j') ((ca, ce) :: xs')) with ((ca, ce) :: delete j' xs').
    rewrite (delete_take_drop xs' j').
    remember (take j' xs') as pre eqn:Hpre.
    remember (drop (S j') xs') as suf eqn:Hsuf.
    clear Hpre Hsuf Hj. subst xs'.
    pose proof (lseg_NoDup _ _ _ _ _ Hseg) as Hnd.
    pose proof Hseg as [Hf _]. rewrite Hf in Hseg.
    change ((ca, ce) :: pre ++ (a, e) :: suf)
      with (((ca, ce) :: pre) ++ (a, e) :: suf) in *.
    destruct (remove_walk_ok s pre ca ce a e suf 0 i (S (size (nodes s))))
      as (h' & nb & Ha & Hwalk & Hpre' & Hfr').
    { done. }
    { lia. }
    { lia. }
    assert ((do temp <- get_first (Some lp);
             do fuel <- loop_budget;
             remove_walk fuel temp i) s =
            Ok (Some (Some a), with_nodes h' s)) as Hmid.
    { rewrite (bind_ok _ _ _ _ _ (get_first_ok s lp l Hl)). rewrite Hf.
      by rewrite (bind_ok _ _ _ _ _ (loop_budget_ok s)). }
    destruct (i =? 0) eqn:E0; [apply Z.eqb_eq in E0; lia|].
    rewrite (bind_ok _ _ _ _ _ Hmid).
    set (s2 := with_nodes h' s).
    rewrite fmap_app in Hnd. apply NoDup_app in Hnd as (_ & Hdisj & Hnd_suf).
    rewrite fmap_cons in Hnd_suf. apply NoDup_cons in Hnd_suf as [Ha_suf _].
    assert (a ∉ ((ca, ce) :: pre).*1) as Ha_pre.
    { intros Hin. eapply Hdisj; [exact Hin|]. apply list_elem_of_here. }
    apply lseg_app in Hseg as (m & _ & Hrest).
    destruct Hrest as [-> (nb' & Ha' & Hsuf)].
    rewrite Ha in Ha'. injection Ha' as Hidx <-.
    destruct (remove_finish s2 a e i nb suf) as (h'' & Hrun & Hseg'' & Hfr'').
    { simpl. by rewrite Hfr'. }
    { eapply lseg_agree; [|rewrite Hidx; exact Hsuf]. intros x Hx. simpl. apply Hfr'.
      intros Hp. eapply Hdisj; [exact Hp|]. by apply list_elem_of_further. }
    { lia. }
    { rewrite length_app in Hb. cbn [length] in Hb. lia. }
    rewrite Hrun.
    exists (with_nodes (delete a h'') s2), l, l.
    split; [done|]. split; [done|]. split; [done|]. split; [|split; [|done]].
    + change (lseg (delete a h'') (__first l) 0 (((ca, ce) :: pre) ++ suf) NULL).
      rewrite Hf. apply lseg_app. exists nb. split.
      * apply lseg_delete; [done|]. eapply lseg_agree; [|exact Hpre'].
        intros x Hx. apply Hfr''. intros Hs. eapply Hdisj; [exact Hx|].
        by apply list_elem_of_further.
      * replace (0 + Z.of_nat (length ((ca, ce) :: pre))) with i
  by (cbn [length]; lia).
        done.
    + simpl. apply lookup_delete_eq.
Qed.

(** Removal keeps the list well formed, except when it takes the last of
    two or more nodes. *)
Lemma ll_remove_valid s lp xs j a e :
  ll_valid s lp xs -> xs !! j = Some (a, e) ->
  j = 0%nat \/ (S j < length xs)%nat ->
  exists s',
    ll_remove (Some lp) (Z.of_nat j) s = Ok (e, s') /\
    ll_valid s' lp (delete j xs) /\
    objs s' = objs s /\ iters s' = iters s /\ oracle s' = oracle s.
Proof.
  intros Hv Hj Hpos.
  destruct (ll_remove_spec _ _ _ _ _ _ Hv Hj)
    as (s' & l & l' & Hrun & Hl & Hl' & Hseg & Hgone & Hlast & Hsz & Hrest).
  destruct Hv as (l0 & Hl0 & Hseg0 & Hlast0 & Hb).
  rewrite Hl in Hl0. injection Hl0 as <-.
  pose proof (lookup_lt_Some _ _ _ Hj) as Hlt.
  exists s'. split; [done|]. split; [|done].
  exists l'. split; [done|]. split; [done|]. split.
  - rewrite Hlast. destruct (decide (j = 0%nat)) as [->|Hne]; [done|].
    destruct Hpos as [->|Hpos]; [done|].
    rewrite Hlast0. rewrite !last_lookup, !length_fmap, !list_lookup_fmap.
    rewrite length_delete by (by eexists).
    rewrite list_lookup_delete_ge by lia.
    do 2 f_equal. lia.
  - rewrite length_delete by (by eexists). lia.
Qed.

(** A well-formed list never has a dangling [__last]. *)
Lemma ll_valid_last_live s lp xs l a :
  ll_valid s lp xs -> lists s !! lp = Some l -> __last l = Some a ->
  is_Some (nodes s !! a).
Proof.
  intros (l0 & Hl0 & Hseg & Hlast & _) Hl Ha.
  rewrite Hl in Hl0. injection Hl0 as <-.
  eapply lseg_in_dom; [exact Hseg|].
  rewrite Ha in Hlast. symmetry in Hlast.
  apply last_Some in Hlast as [l' ->]. apply elem_of_app. right.
  apply list_elem_of_here.
Qed.

Lemma ll_size_dangling s lp l a :
  lists s !! lp = Some l -> __last l = Some a -> nodes s !! a = None ->
  ll_size (Some lp) s = Fault DanglingDeref.
Proof.
  intros Hl Ha Hn. unfold ll_size. simpl.
  rewrite (bind_ok _ _ _ _ _ (get_last_ok s lp l Hl)). rewrite Ha. simpl.
  unfold bind, get_index, bind, load_node. by rewrite Hn.
Qed.

(** Removing the last of two or more nodes frees the node [__last] still
    points to. *)
Lemma ll_remove_tail_dangling s lp xs a e :
  ll_valid s lp xs -> (2 <= length xs)%nat ->
  xs !! pred (length xs) = Some (a, e) ->
  exists s' l',
    ll_remove (Some lp) (Z.of_nat (pred (length xs))) s = Ok (e, s') /\
    lists s' !! lp = Some l' /\ __last l' = Some a /\ nodes s' !! a = None /\
    ll_size (Some lp) s' = Fault DanglingDeref /\
    ~ exists ys, ll_valid s' lp ys.
Proof.
  intros Hv Hlen Hj.
  destruct (ll_remove_spec _ _ _ _ _ _ Hv Hj)
    as (s' & l & l' & Hrun & Hl & Hl' & Hseg & Hgone & Hlast & Hsz & Hrest).
  destruct Hv as (l0 & Hl0 & Hseg0 & Hlast0 & Hb).
  rewrite Hl in Hl0. injection Hl0 as <-.
  destruct (decide (pred (length xs) = 0%nat)) as [E|_]; [lia|].
  assert (__last l' = Some a) as Hla.
  { rewrite Hlast, Hlast0, last_lookup, length_fmap, list_lookup_fmap. by rewrite Hj. }
  exists s', l'. split; [done|]. split; [done|]. split; [done|]. split; [done|].
  split; [by eapply ll_size_dangling|].
  intros [ys Hys].
  destruct (ll_valid_last_live _ _ _ _ _ Hys Hl' Hla) as [nd Hnd]. congruence.
Qed.

(** ** Clearing the list *)

Lemma ll_valid_with_objs s lp xs m :
  ll_valid s lp xs -> ll_valid (with_objs m s) lp xs.
Proof. intros (l & Hl & Hseg & Hlast & Hb). by exists l. Qed.

Lemma free_obj_ok s e es :
  can_free (objs s) (e :: es) ->
  exists m, free_obj e s = Ok (tt, with_objs m s) /\ can_free m es.
Proof.
  destruct e as [a|]; simpl.
  - intros [(o & Ho & Hm) Hrest]. exists (delete a (objs s)).
    unfold free_obj. by rewrite Ho, Hm.
  - intros Hrest. exists (objs s). split; [by destruct s|done].
Qed.

Lemma clear_loop_ok lp xs : forall s fuel,
  ll_valid s lp xs -> can_free (objs s) xs.*2 ->
  (length xs < fuel)%nat ->
  exists s',
    clear_loop fuel (Some lp) s = Ok (tt, s') /\
    ll_valid s' lp [] /\ iters s' = iters s /\ oracle s' = oracle s.
Proof.
  induction xs as [|[a e] xs IH]; intros s fuel Hv Hfree Hf.
  - destruct fuel as [|fuel]; [simpl in Hf; lia|]. exists s. split; [|done].
    simpl. by rewrite (bind_ok _ _ _ _ _ (ll_size_valid _ _ _ Hv)).
  - simpl in Hf. destruct fuel as [|fuel]; [lia|].
    destruct (ll_remove_valid s lp ((a, e) :: xs) 0 a e Hv eq_refl)
      as (s1 & Hrun & Hv1 & Ho1 & Hi1 & Hor1); [by left|].
    simpl in Hv1. rewrite <- Ho1 in Hfree.
    destruct (free_obj_ok s1 e xs.*2 Hfree) as (m & Hfr & Hfree').
    destruct (IH (with_objs m s1) fuel) as (s' & Hloop & Hv' & Hi' & Hor').
    { by apply ll_valid_with_objs. }
    { done. }
    { lia. }
    simpl in Hi', Hor'.
    exists s'. split; [|split; [done|split; congruence]].
    cbn [clear_loop].
    rewrite (bind_ok _ _ _ _ _ (ll_size_valid _ _ _ Hv)).
    destruct (Z.of_nat (length ((a, e) :: xs)) =? 0) eqn:E;
      [apply Z.eqb_eq in E; simpl in E; lia|].
    change (ll_remove (Some lp) 0 s) with (ll_remove (Some lp) (Z.of_nat 0) s).
    rewrite (bind_ok _ _ _ _ _ Hrun).
    by rewrite (bind_ok _ _ _ _ _ Hfr).
Qed.

(** [ll_clear] empties a valid list whose payloads can be freed. *)
Lemma ll_clear_valid s lp xs :
  ll_valid s lp xs -> can_free (objs s) xs.*2 ->
  exists s',
    ll_clear (Some lp) s = Ok (tt, s') /\
    ll_valid s' lp [] /\
    ll_size (Some lp) s' = Ok (0, s').
Proof.
  intros Hv Hfree.
  destruct (clear_loop_ok lp xs s (S (size (nodes s))) Hv Hfree)
    as (s' & Hrun & Hv' & _).
  { destruct Hv as (l & _ & Hseg & _). apply lseg_length_le in Hseg. lia. }
  exists s'. split; [|split; [done|]].
  - unfold ll_clear. simpl. by rewrite (bind_ok _ _ _ _ _ (loop_budget_ok s)).
  - by rewrite (ll_size_valid _ _ _ Hv').
Qed.

(** ** Facts about the concrete states *)

Ltac solve_valid :=
  eexists; split; [vm_compute; reflexivity|];
  split; [repeat (split; [reflexivity|]; eexists; split; [vm_compute; reflexivity|]);
          reflexivity|];
  split; [reflexivity|vm_compute; discriminate].

Example ex_build_runs : ex_build ex_start = Ok (Some 1%positive, ex_state).
Proof. vm_compute. reflexivity. Qed.

Example ex_build_two_runs : ex_build_two ex_start = Ok (Some 1%positive, ex_two).
Proof. vm_compute. reflexivity. Qed.

Example ex_state_valid : ll_valid ex_state 1%positive ex_cells.
Proof. solve_valid. Qed.

Example ex_two_valid : ll_valid ex_two 1%positive ex_two_cells.
Proof. solve_valid. Qed.

Example ex_two_remove_runs :
  ll_remove (Some 1%positive) 1 ex_two = Ok (Some 20%positive, ex_two_removed).
Proof. vm_compute. reflexivity. Qed.

Example ex_iter_last_runs :
  ll_itr (Some 1%positive) 2 ex_state = Ok (Some 5%positive, ex_iter_last).
Proof. vm_compute. reflexivity. Qed.

Example ex_iter_done_runs :
  li_next (Some 5%positive) ex_iter_last = Ok (Some 30%positive, ex_iter_done).
Proof. vm_compute. reflexivity. Qed.

(** * The claims *)

(** C5.  For a non-null valid list, [ll_size] returns the number of nodes
    of the list, and that number is the cached index of the last node plus
    one when the list has a last node and 0 when it has none; on a [NULL]
    list reference [ll_size] returns -1. *)
Theorem ll_size_counts_nodes s lp xs l :
  ll_valid s lp xs -> lists s !! lp = Some l ->
  ll_size (Some lp) s = Ok (Z.of_nat (length xs), s) /\
  match __last l with
  | Some a =>
      exists nd, nodes s !! a = Some nd /\ Z.of_nat (length xs) = index nd + 1
  | None => Z.of_nat (length xs) = 0
  end /\
  ll_size NULL s = Ok (-1, s).
Proof.
  intros Hv Hl. split; [by apply ll_size_valid|]. split; [|done].
  destruct Hv as (l0 & Hl0 & Hseg & Hlast & Hb).
  rewrite Hl in Hl0. injection Hl0 as <-. rewrite Hlast.
  destruct (last xs.*1) as [a|] eqn:E.
  - destruct (last_cell _ _ E) as [e He].
    pose proof (lookup_lt_Some _ _ _ He) as Hlt.
    destruct (lseg_lookup _ _ _ _ _ _ _ _ Hseg He) as [nx Hx].
    eexists. split; [exact Hx|]. simpl. lia.
  - apply last_None in E. apply fmap_nil_inv in E. by subst xs.
Qed.

Lemma ll_size_counts_nodes_witness :
  ll_valid ex_state 1%positive ex_cells /\
  lists ex_state !! 1%positive = Some (LList (Some 2%positive) (Some 4%positive) 4%N) /\
  ll_size (Some 1%positive) ex_state = Ok (3, ex_state).
Proof.
  assert (ll_valid ex_state 1%positive ex_cells) as Hv by solve_valid.
  split; [exact Hv|]. split; [reflexivity|].
  exact (proj1 (ll_size_counts_nodes ex_state 1%positive ex_cells _ Hv eq_refl)).
Defined.

(** C6, as stated, fails: on the valid three-element list [ex_state_oom],
    whose allocator is exhausted, [ll_add] at the valid index 1 returns
    0. *)
Lemma ll_add_fails_when_malloc_fails :
  ll_valid ex_state_oom 1%positive ex_cells /\
  0 <= 1 <= Z.of_nat (length ex_cells) /\
  ll_add (Some 1%positive) 1 (Some 15%positive) ex_state_oom = Ok (0, ex_state_oom).
Proof.
  split; [solve_valid|]. split; [simpl; lia|]. vm_compute. reflexivity.
Qed.

(** C6, amended.  For a valid list of fewer than [INT_MAX] elements and an
    index [i] in [[0, size]]: when [malloc] hands out a fresh node,
    [ll_add] returns 1 and an immediately following [ll_get] at [i]
    returns the inserted element; when [malloc] fails, [ll_add] returns 0
    and leaves every struct as it was. *)
Theorem ll_add_then_get s lp xs i e :
  ll_valid s lp xs -> 0 <= i <= Z.of_nat (length xs) ->
  Z.of_nat (length xs) < INT_MAX ->
  match oracle s with
  | Some na :: _ =>
      nodes s !! na = None ->
      exists s',
        ll_add (Some lp) i e s = Ok (1, s') /\
        ll_get (Some lp) i s' = Ok (e, s')
  | _ =>
      exists s',
        ll_add (Some lp) i e s = Ok (0, s') /\
        lists s' = lists s /\ nodes s' = nodes s /\
        iters s' = iters s /\ objs s' = objs s
  end.
Proof.
  intros Hv Hi Hlen.
  destruct (oracle s) as [|[na|] o] eqn:Ho.
  - pose proof (ll_size_valid _ _ _ Hv) as Hsz.
    destruct (malloc_node_fail s) as (s' & Hm & Hrest); [by left|].
    exists s'. split; [|done]. unfold ll_add. simpl.
    destruct (i <? 0) eqn:E1; [apply Z.ltb_lt in E1; lia|].
    rewrite (bind_ok _ _ _ _ _ Hsz).
    destruct (i >? Z.of_nat (length xs)) eqn:E2; [apply Z.gtb_lt in E2; lia|].
    by rewrite (bind_ok _ _ _ _ _ Hm).
  - intros Hfresh.
    destruct (ll_add_valid s lp xs (Z.to_nat i) na o e Hv) as (s' & Hadd & Hv' & _);
      [lia|done|done|done|].
    rewrite Z2Nat.id in Hadd by lia.
    exists s'. split; [done|].
    rewrite <- (Z2Nat.id i) by lia.
    eapply ll_get_valid; [exact Hv'|].
    rewrite lookup_app_r by (rewrite length_take; lia).
    rewrite length_take. by replace (Z.to_nat i - Z.to_nat i `min` length xs)%nat with 0%nat by lia.
  - pose proof (ll_size_valid _ _ _ Hv) as Hsz.
    destruct (malloc_node_fail s) as (s' & Hm & Hrest); [right; by exists o|].
    exists s'. split; [|done]. unfold ll_add. simpl.
    destruct (i <? 0) eqn:E1; [apply Z.ltb_lt in E1; lia|].
    rewrite (bind_ok _ _ _ _ _ Hsz).
    destruct (i >? Z.of_nat (length xs)) eqn:E2; [apply Z.gtb_lt in E2; lia|].
    by rewrite (bind_ok _ _ _ _ _ Hm).
Qed.

Lemma ll_add_then_get_witness :
  ll_valid ex_state 1%positive ex_cells /\
  0 <= 1 <= Z.of_nat (length ex_cells) /\
  Z.of_nat (length ex_cells) < INT_MAX /\
  nodes ex_state !! 5%positive = None /\
  exists s',
    ll_add (Some 1%positive) 1 (Some 15%positive) ex_state = Ok (1, s') /\
    ll_get (Some 1%positive) 1 s' = Ok (Some 15%positive, s').
Proof.
  assert (ll_valid ex_state 1%positive ex_cells) as Hv by solve_valid.
  assert (0 <= 1 <= Z.of_nat (length ex_cells)) as Hi by (simpl; lia).
  assert (Z.of_nat (length ex_cells) < INT_MAX) as Hb by (vm_compute; reflexivity).
  split; [exact Hv|]. split; [exact Hi|]. split; [exact Hb|]. split; [reflexivity|].
  exact (ll_add_then_get ex_state 1%positive ex_cells 1 (Some 15%positive) Hv Hi Hb eq_refl).
Defined.

(** C7.  For a valid list and an index [i] in [[0, size)], [ll_set]
    returns the element [ll_get] found at [i] before the call, and
    [ll_get] at [i] afterwards returns the new element. *)
Theorem ll_set_get_roundtrip s lp xs i e2 :
  ll_valid s lp xs -> 0 <= i < Z.of_nat (length xs) ->
  exists old s',
    ll_get (Some lp) i s = Ok (old, s) /\
    ll_set (Some lp) i e2 s = Ok (old, s') /\
    ll_get (Some lp) i s' = Ok (e2, s').
Proof.
  intros Hv Hi.
  destruct (lookup_lt_is_Some_2 xs (Z.to_nat i)) as [[a e] Hj]; [lia|].
  destruct (ll_set_valid s lp xs _ a e e2 Hv Hj) as (nx & Ha & Hset & Hv').
  rewrite Z2Nat.id in Hset, Hv' by lia.
  exists e. eexists. split; [|split; [exact Hset|]].
  - rewrite <- (Z2Nat.id i) by lia. by eapply ll_get_valid.
  - rewrite <- (Z2Nat.id i) at 1 by lia. eapply ll_get_valid; [exact Hv'|].
    apply list_lookup_insert_eq. by eapply lookup_lt_Some.
Qed.

Lemma ll_set_get_roundtrip_witness :
  ll_valid ex_state 1%positive ex_cells /\
  0 <= 1 < Z.of_nat (length ex_cells) /\
  exists old s',
    ll_get (Some 1%positive) 1 ex_state = Ok (old, ex_state) /\
    ll_set (Some 1%positive) 1 (Some 15%positive) ex_state = Ok (old, s') /\
    ll_get (Some 1%positive) 1 s' = Ok (Some 15%positive, s').
Proof.
  assert (ll_valid ex_state 1%positive ex_cells) as Hv by solve_valid.
  assert (0 <= 1 < Z.of_nat (length ex_cells)) as Hi by (simpl; lia).
  split; [exact Hv|]. split; [exact Hi|].
  exact (ll_set_get_roundtrip ex_state 1%positive ex_cells 1 (Some 15%positive) Hv Hi).
Defined.

(** C10.  For a valid list and an index [i] in [[0, size)], [ll_set]
    changes nothing but the element stored at position [i]: the list
    struct (so [__first] and [__last]), the size, the set of live nodes
    and the cached index and [next] link of each, and what [ll_get]
    returns at every other position all stay as they were. *)
Theorem ll_set_frame s lp xs i e :
  ll_valid s lp xs -> 0 <= i < Z.of_nat (length xs) ->
  exists old s',
    ll_set (Some lp) i e s = Ok (old, s') /\
    lists s' = lists s /\
    value (ll_size (Some lp) s') = value (ll_size (Some lp) s) /\
    (forall a, match nodes s !! a, nodes s' !! a with
               | Some nd, Some nd' => index nd' = index nd /\ next nd' = next nd
               | None, None => True
               | _, _ => False
               end) /\
    (forall a c, xs !! Z.to_nat i = Some c -> a <> c.1 ->
       nodes s' !! a = nodes s !! a) /\
    (forall j, j <> i ->
       value (ll_get (Some lp) j s') = value (ll_get (Some lp) j s)) /\
    iters s' = iters s /\ objs s' = objs s /\ oracle s' = oracle s.
Proof.
  intros Hv Hi.
  destruct (lookup_lt_is_Some_2 xs (Z.to_nat i)) as [[a e0] Hj]; [lia|].
  destruct (ll_set_valid s lp xs _ a e0 e Hv Hj) as (nx & Ha & Hset & Hv').
  rewrite Z2Nat.id in Ha, Hset, Hv' by lia.
  exists e0. eexists. split; [exact Hset|]. split; [done|].
  split; [|split; [|split; [|split; [|done]]]].
  - rewrite (ll_size_valid _ _ _ Hv), (ll_size_valid _ _ _ Hv').
    simpl. by rewrite length_insert.
  - intros b. simpl. destruct (decide (b = a)) as [->|Hne].
    + by rewrite Ha, lookup_insert_eq.
    + rewrite lookup_insert_ne by done. by destruct (nodes s !! b).
  - intros b c Hc Hb. rewrite Hj in Hc. injection Hc as <-. simpl in *.
    by rewrite lookup_insert_ne.
  - intros j Hji.
    destruct (decide (0 <= j < Z.of_nat (length xs))) as [Hin|Hout].
    + destruct (lookup_lt_is_Some_2 xs (Z.to_nat j)) as [[b eb] Hb]; [lia|].
      rewrite <- (Z2Nat.id j) by lia.
      rewrite (ll_get_valid _ _ _ _ b eb Hv Hb).
      rewrite (ll_get_valid _ _ _ _ b eb Hv'); [done|].
      rewrite list_lookup_insert_ne; [done|]. lia.
    + rewrite (ll_get_out_of_range _ _ _ _ Hv) by lia.
      rewrite (ll_get_out_of_range _ _ _ _ Hv'); [done|].
      rewrite length_insert. lia.
Qed.

Lemma ll_set_frame_witness :
  ll_valid ex_state 1%positive ex_cells /\
  0 <= 1 < Z.of_nat (length ex_cells) /\
  exists old s',
    ll_set (Some 1%positive) 1 (Some 15%positive) ex_state = Ok (old, s') /\
    lists s' = lists ex_state /\
    value (ll_size (Some 1%positive) s') = value (ll_size (Some 1%positive) ex_state) /\
    value (ll_get (Some 1%positive) 2 s') = value (ll_get (Some 1%positive) 2 ex_state).
Proof.
  assert (ll_valid ex_state 1%positive ex_cells) as Hv by solve_valid.
  assert (0 <= 1 < Z.of_nat (length ex_cells)) as Hi by (simpl; lia).
  split; [exact Hv|]. split; [exact Hi|].
  destruct (ll_set_frame ex_state 1%positive ex_cells 1 (Some 15%positive) Hv Hi)
    as (old & s' & Hset & Hl & Hsz & _ & _ & Hget & _).
  exists old, s'. split; [exact Hset|]. split; [exact Hl|]. split; [exact Hsz|].
  apply Hget. discriminate.
Defined.

(** C8.  On a valid list whose stored elements, like the probe, point to
    at least [__elem_size] readable bytes: [ll_contains] returns 1 exactly
    when some stored element is byte-equal to the probe on its first
    [__elem_size] bytes and 0 otherwise; [ll_indexof] returns the smallest
    index of such an element, or -1 when there is none; so [ll_contains]
    is 1 exactly when [ll_indexof] is not -1.  On a [NULL] list they
    return 0 and -1. *)
Theorem ll_contains_indexof_spec s lp xs l e :
  ll_valid s lp xs -> lists s !! lp = Some l ->
  readable s (__elem_size l) e ->
  Forall (fun c => readable s (__elem_size l) c.2) xs ->
  exists rc ri,
    ll_contains (Some lp) e s = Ok (rc, s) /\
    ll_indexof (Some lp) e s = Ok (ri, s) /\
    (rc = 1 \/ rc = 0) /\
    (rc = 1 <->
       exists j c, xs !! j = Some c /\ byte_equal s (__elem_size l) e c.2) /\
    (ri = -1 <->
       forall j c, xs !! j = Some c -> ~ byte_equal s (__elem_size l) e c.2) /\
    (ri <> -1 ->
       exists j c, ri = Z.of_nat j /\ xs !! j = Some c /\
         byte_equal s (__elem_size l) e c.2 /\
         forall j' c', (j' < j)%nat -> xs !! j' = Some c' ->
           ~ byte_equal s (__elem_size l) e c'.2) /\
    (rc = 1 <-> ri <> -1) /\
    ll_contains NULL e s = Ok (0, s) /\
    ll_indexof NULL e s = Ok (-1, s).
Proof.
  intros Hv Hl He Hr.
  destruct Hv as (l0 & Hl0 & Hseg & Hlast & Hb).
  rewrite Hl in Hl0. injection Hl0 as <-.
  pose proof (lseg_length_le _ _ _ _ _ Hseg) as Hle.
  destruct (contains_loop_ok s _ 0 xs e (__elem_size l) (S (size (nodes s))) Hseg Hr He)
    as (rc & Hc & Hcres); [lia|].
  destruct (indexof_loop_ok s _ 0 xs e (__elem_size l) (S (size (nodes s))) Hseg Hr He)
    as (ri & Hi & Hires); [lia|].
  exists rc, ri.
  assert (ll_contains (Some lp) e s = Ok (rc, s)) as Hcont.
  { unfold ll_contains. simpl.
    rewrite (bind_ok _ _ _ _ _ (get_first_ok s lp l Hl)).
    rewrite (bind_ok _ _ _ _ _ (get_elem_size_ok s lp l Hl)).
    by rewrite (bind_ok _ _ _ _ _ (loop_budget_ok s)). }
  assert (ll_indexof (Some lp) e s = Ok (ri, s)) as Hidx.
  { unfold ll_indexof. simpl.
    rewrite (bind_ok _ _ _ _ _ (get_first_ok s lp l Hl)).
    rewrite (bind_ok _ _ _ _ _ (get_elem_size_ok s lp l Hl)).
    by rewrite (bind_ok _ _ _ _ _ (loop_budget_ok s)). }
  assert (rc = 1 <->
    exists j c, xs !! j = Some c /\ byte_equal s (__elem_size l) e c.2) as Hc1.
  { split.
    - intros ->. destruct Hcres as [[_ Hex]|[? _]]; [|done].
      apply Exists_exists in Hex as (c & Hin & Hm).
      apply list_elem_of_lookup in Hin as [j Hj]. by exists j, c.
    - intros (j & c & Hj & Hm). destruct Hcres as [[-> _]|[_ Hall]]; [done|].
      by destruct (Forall_lookup_1 _ _ _ _ Hall Hj). }
  assert (ri = -1 <->
    forall j c, xs !! j = Some c -> ~ byte_equal s (__elem_size l) e c.2) as Hi1.
  { split.
    - intros ->. destruct Hires as [[_ Hall]|(j & c & ? & _)]; [|lia].
      intros j c Hj. by apply (Forall_lookup_1 _ _ _ _ Hall Hj).
    - intros Hnone. destruct Hires as [[-> _]|(j & c & _ & Hj & Hm & _)]; [done|].
      by destruct (Hnone _ _ Hj). }
  assert (ri <> -1 ->
    exists j c, ri = Z.of_nat j /\ xs !! j = Some c /\
      byte_equal s (__elem_size l) e c.2 /\
      forall j' c', (j' < j)%nat -> xs !! j' = Some c' ->
        ~ byte_equal s (__elem_size l) e c'.2) as Hi2.
  { intros Hne. destruct Hires as [[-> _]|(j & c & -> & Hj & Hm & Hall)]; [done|].
    exists j, c. split; [lia|]. split; [done|]. split; [done|].
    intros j' c' Hlt Hj'.
    assert (take j xs !! j' = Some c') as Ht by (by rewrite lookup_take_lt).
    exact (Forall_lookup_1 _ _ _ _ Hall Ht). }
  split; [done|]. split; [done|]. split; [by destruct Hcres as [[-> _]|[-> _]]; eauto|].
  split; [done|]. split; [done|]. split; [done|]. split; [|done].
  rewrite Hc1. split.
  - intros (j & c & Hj & Hm) Hri.
    pose proof (proj1 Hi1 Hri) as Hno. by destruct (Hno _ _ Hj).
  - intros Hne. destruct (Hi2 Hne) as (j & c & _ & Hj & Hm & _). by exists j, c.
Qed.

Lemma ll_contains_indexof_spec_witness :
  ll_valid ex_state 1%positive ex_cells /\
  readable ex_state 4 (Some 30%positive) /\
  Forall (fun c => readable ex_state 4 c.2) ex_cells /\
  exists rc ri,
    ll_contains (Some 1%positive) (Some 30%positive) ex_state = Ok (rc, ex_state) /\
    ll_indexof (Some 1%positive) (Some 30%positive) ex_state = Ok (ri, ex_state) /\
    (rc = 1 <-> ri <> -1).
Proof.
  assert (ll_valid ex_state 1%positive ex_cells) as Hv by solve_valid.
  assert (readable ex_state 4 (Some 30%positive)) as He by (eexists; reflexivity).
  assert (Forall (fun c => readable ex_state 4 c.2) ex_cells) as Hr
    by (repeat constructor; eexists; reflexivity).
  split; [exact Hv|]. split; [exact He|]. split; [exact Hr|].
  destruct (ll_contains_indexof_spec ex_state 1%positive ex_cells _ (Some 30%positive)
              Hv eq_refl He Hr) as (rc & ri & Hc & Hi & _ & _ & _ & _ & Hiff & _).
  exists rc, ri. split; [exact Hc|]. split; [exact Hi|exact Hiff].
Defined.

Lemma again_same {A} (m : M A) a s n : m s = Ok (a, s) -> again n m s = Ok (a, s).
Proof.
  intros H. induction n as [|n IH]; [done|].
  simpl. by rewrite (bind_ok _ _ _ _ _ H).
Qed.

(** C9.  Every public list operation called with a [NULL] list returns
    its sentinel and leaves the whole state as it was, however many times
    in a row it is called. *)
Theorem null_list_short_circuits (s : state) (i : Z) (e : ptr) (n : nat) :
  again n (ll_size NULL) s = Ok (-1, s) /\
  again n (ll_add NULL i e) s = Ok (0, s) /\
  again n (ll_addfirst NULL e) s = Ok (tt, s) /\
  again n (ll_addlast NULL e) s = Ok (tt, s) /\
  again n (ll_get NULL i) s = Ok (NULL, s) /\
  again n (ll_first NULL) s = Ok (NULL, s) /\
  again n (ll_last NULL) s = Ok (NULL, s) /\
  again n (ll_contains NULL e) s = Ok (0, s) /\
  again n (ll_indexof NULL e) s = Ok (-1, s) /\
  again n (ll_remove NULL i) s = Ok (NULL, s) /\
  again n (ll_set NULL i e) s = Ok (NULL, s) /\
  again n (ll_clear NULL) s = Ok (tt, s) /\
  again n (ll_itr NULL i) s = Ok (NULL, s).
Proof.
  repeat split; by apply again_same.
Qed.

(** The idiomatic loop over an iterator made at index [j] of a valid list
    stops in front of the last element. *)
Lemma drain_from_index s lp ys c j a e ia o :
  ll_valid s lp (ys ++ [c]) -> (ys ++ [c]) !! j = Some (a, e) ->
  oracle s = Some ia :: o ->
  exists s',
    (do it <- ll_itr (Some lp) (Z.of_nat j); drain_all it) s =
      Ok ((drop j ys).*2, s') /\
    nodes s' = nodes s /\ lists s' = lists s.
Proof.
  intros Hv Hj Ho.
  rewrite (bind_ok _ _ _ _ _ (ll_itr_valid _ _ _ _ _ _ _ _ Hv Hj Ho)).
  set (s1 := with_iters (<[ia := LIter (Some a)]> (iters s)) (with_oracle o s)).
  destruct Hv as (l & Hl & Hseg & Hlast & Hb).
  pose proof (lookup_lt_Some _ _ _ Hj) as Hlt.
  pose proof (lseg_length_le _ _ _ _ _ Hseg) as Hle.
  rewrite length_app in Hlt. simpl in Hlt.
  rewrite <- (take_drop j (ys ++ [c])) in Hseg.
  apply lseg_app in Hseg as (m & _ & Hrest).
  assert (drop j (ys ++ [c]) = (a, e) :: drop (S j) (ys ++ [c])) as Hd.
  { rewrite <- (take_drop_middle _ _ _ Hj) at 1.
    rewrite drop_app_length'; [done|]. rewrite length_take. rewrite length_app. simpl. lia. }
  rewrite Hd in Hrest. pose proof Hrest as [-> _].
  destruct (drain_ok ia (drop (S j) (ys ++ [c])) s1 a e _ (S (size (nodes s1))) Hrest)
    as (s' & Hrun & Hn & Hls & _).
  { simpl. apply lookup_insert_eq. }
  { rewrite length_drop. rewrite length_app in *. simpl in *. lia. }
  exists s'. split; [|done].
  unfold drain_all. rewrite (bind_ok _ _ _ _ _ (loop_budget_ok s1)).
  rewrite Hrun. rewrite <- Hd. rewrite drop_app_le by lia.
  by rewrite removelast_last.
Qed.

(** C3.  When the cursor of an iterator is on a node whose successor is
    [NULL], [li_hasnext] returns 0 although [li_next] in that same state
    returns the element of that node; so the loop
    [while (li_hasnext(it)) li_next(it);] yields nothing from there, and
    started at index [j] of a valid list it yields the elements from [j]
    on except the last one. *)
Theorem li_hasnext_misses_last s it a nd :
  iters s !! it = Some (LIter (Some a)) -> nodes s !! a = Some nd ->
  next nd = NULL ->
  li_hasnext (Some it) s = Ok (0, s) /\
  value (li_next (Some it) s) = Ok (element nd) /\
  drain_all (Some it) s = Ok ([], s) /\
  forall lp ys c j b e ia o,
    ll_valid s lp (ys ++ [c]) -> (ys ++ [c]) !! j = Some (b, e) ->
    oracle s = Some ia :: o ->
    value ((do i <- ll_itr (Some lp) (Z.of_nat j); drain_all i) s) =
      Ok ((drop j ys).*2).
Proof.
  intros Hi Ha Hn.
  assert (li_hasnext (Some it) s = Ok (0, s)) as Hhas.
  { rewrite (li_hasnext_at s it a nd Hi Ha). by rewrite Hn. }
  split; [done|]. split; [by rewrite (li_next_at s it a nd Hi Ha)|]. split.
  - unfold drain_all. rewrite (bind_ok _ _ _ _ _ (loop_budget_ok s)).
    simpl. by rewrite (bind_ok _ _ _ _ _ Hhas).
  - intros lp ys c j b e ia o Hv Hj Ho.
    destruct (drain_from_index _ _ _ _ _ _ _ _ _ Hv Hj Ho) as (s' & -> & _). done.
Qed.

Lemma li_hasnext_misses_last_witness :
  iters ex_iter_last !! 5%positive = Some (LIter (Some 4%positive)) /\
  nodes ex_iter_last !! 4%positive = Some (Node (Some 30%positive) 2 NULL) /\
  li_hasnext (Some 5%positive) ex_iter_last = Ok (0, ex_iter_last) /\
  value (li_next (Some 5%positive) ex_iter_last) = Ok (Some 30%positive) /\
  value ((do i <- ll_itr (Some 1%positive) 0; drain_all i) ex_iter_last) =
    Ok [Some 10%positive; Some 20%positive].
Proof.
  assert (iters ex_iter_last !! 5%positive = Some (LIter (Some 4%positive))) as Hi
    by reflexivity.
  assert (nodes ex_iter_last !! 4%positive = Some (Node (Some 30%positive) 2 NULL)) as Ha
    by reflexivity.
  assert (ll_valid ex_iter_last 1%positive
            ([(2, Some 10); (3, Some 20)]%positive ++ [(4%positive, Some 30%positive)])) as Hv
    by solve_valid.
  destruct (li_hasnext_misses_last ex_iter_last 5%positive 4%positive _ Hi Ha eq_refl)
    as (Hhas & Hnext & _ & Hloop).
  split; [exact Hi|]. split; [exact Ha|]. split; [exact Hhas|]. split; [exact Hnext|].
  exact (Hloop 1%positive _ _ 0%nat 2%positive (Some 10%positive) 6%positive [] Hv
           eq_refl eq_refl).
Defined.

(** C4.  An iterator whose cursor is [NULL] is reachable: the run that
    builds a list, makes an iterator on its last node and calls [li_next]
    once leaves one.  On every such iterator [li_hasnext] dereferences
    the [NULL] cursor, whereas [li_next] tests it and returns [NULL]. *)
Theorem li_hasnext_exhausted_faults s it :
  iters s !! it = Some (LIter NULL) ->
  li_hasnext (Some it) s = Fault NullDeref /\
  li_next (Some it) s = Ok (NULL, s) /\
  (do l <- ex_build;
   do i <- ll_itr l 2;
   do e <- li_next i;
   ret (i, e)) ex_start = Ok ((Some 5%positive, Some 30%positive), ex_iter_done) /\
  iters ex_iter_done !! 5%positive = Some (LIter NULL).
Proof.
  intros Hi. split; [by apply li_hasnext_exhausted|].
  split; [by apply li_next_exhausted|].
  split; [vm_compute; reflexivity|reflexivity].
Qed.

Lemma li_hasnext_exhausted_faults_witness :
  iters ex_iter_done !! 5%positive = Some (LIter NULL) /\
  li_hasnext (Some 5%positive) ex_iter_done = Fault NullDeref.
Proof.
  assert (iters ex_iter_done !! 5%positive = Some (LIter NULL)) as Hi by reflexivity.
  split; [exact Hi|].
  exact (proj1 (li_hasnext_exhausted_faults ex_iter_done 5%positive Hi)).
Defined.

(** What holds of C2: removing the first node, or any node but the last,
    returns the element stored there, makes the size one less and moves
    every later element one position down. *)
Lemma ll_remove_then_get s lp xs j a e :
  ll_valid s lp xs -> xs !! j = Some (a, e) ->
  j = 0%nat \/ (S j < length xs)%nat ->
  exists s',
    ll_remove (Some lp) (Z.of_nat j) s = Ok (e, s') /\
    ll_size (Some lp) s' = Ok (Z.of_nat (length xs) - 1, s') /\
    forall k b eb, (j <= k)%nat -> xs !! S k = Some (b, eb) ->
      ll_get (Some lp) (Z.of_nat k) s' = Ok (eb, s').
Proof.
  intros Hv Hj Hpos.
  destruct (ll_remove_valid _ _ _ _ _ _ Hv Hj Hpos) as (s' & Hrun & Hv' & _).
  pose proof (lookup_lt_Some _ _ _ Hj) as Hlt.
  exists s'. split; [done|]. split.
  - rewrite (ll_size_valid _ _ _ Hv'). rewrite length_delete by (by eexists).
    do 2 f_equal. lia.
  - intros k b eb Hk Hb. eapply ll_get_valid; [exact Hv'|].
    by rewrite list_lookup_delete_ge.
Qed.

(** C1, at the failing input.  The list [10, 20], built by [__ll_init]
    and two [ll_addlast], is valid; [ll_remove(list, 1)] returns the
    element 20 and frees node 3, but [__last] keeps the address of that
    node, so no chain of live nodes matches the list struct any more. *)
Theorem ll_remove_tail_breaks_invariant :
  ex_build_two ex_start = Ok (Some 1%positive, ex_two) /\
  ll_valid ex_two 1%positive ex_two_cells /\
  ll_remove (Some 1%positive) 1 ex_two = Ok (Some 20%positive, ex_two_removed) /\
  lists ex_two_removed !! 1%positive =
    Some (LList (Some 2%positive) (Some 3%positive) 4%N) /\
  nodes ex_two_removed !! 3%positive = None /\
  ~ exists ys, ll_valid ex_two_removed 1%positive ys.
Proof.
  split; [apply ex_build_two_runs|]. split; [apply ex_two_valid|].
  split; [apply ex_two_remove_runs|]. split; [reflexivity|]. split; [reflexivity|].
  intros [ys Hys].
  destruct (ll_valid_last_live ex_two_removed 1%positive ys _ 3%positive Hys eq_refl eq_refl)
    as [nd Hnd].
  discriminate.
Qed.

(** C2, at the failing input.  On the valid list [10, 20] of size 2,
    [ll_remove(list, 1)] returns 20, and the next [ll_size] reads the
    freed node through [__last] instead of returning 1. *)
Theorem ll_remove_tail_size_fault :
  ll_valid ex_two 1%positive ex_two_cells /\
  ll_size (Some 1%positive) ex_two = Ok (2, ex_two) /\
  ll_remove (Some 1%positive) 1 ex_two = Ok (Some 20%positive, ex_two_removed) /\
  ll_size (Some 1%positive) ex_two_removed = Fault DanglingDeref /\
  ll_get (Some 1%positive) 0 ex_two_removed = Fault DanglingDeref.
Proof.
  split; [apply ex_two_valid|]. split; [vm_compute; reflexivity|].
  split; [apply ex_two_remove_runs|]. split; vm_compute; reflexivity.
Qed.

(** * Further properties of the code *)

(** ** Frame reasoning *)

Lemma bind_inv {A B} (m : M A) (k : A -> M B) s b s' :
  bind m k s = Ok (b, s') ->
  exists a s1, m s = Ok (a, s1) /\ k a s1 = Ok (b, s').
Proof.
  unfold bind. destruct (m s) as [[a s1]| |]; [|done..]. intros H. by exists a, s1.
Qed.

Section frames.
Variable R : state -> state -> Prop.
Hypothesis R_refl : forall s, R s s.
Hypothesis R_trans : forall s1 s2 s3, R s1 s2 -> R s2 s3 -> R s1 s3.

Lemma preserves_ret {A} (a : A) : preserves R (ret a).
Proof. intros s b s' [= _ <-]. apply R_refl. Qed.

Lemma preserves_fail {A} f : preserves R (@fail A f).
Proof. by intros s b s'. Qed.

Lemma preserves_diverge {A} : preserves R (@diverge A).
Proof. by intros s b s'. Qed.

Lemma preserves_bind {A B} (m : M A) (k : A -> M B) :
  preserves R m -> (forall a, preserves R (k a)) -> preserves R (bind m k).
Proof.
  intros Hm Hk s b s' H. apply bind_inv in H as (a & s1 & H1 & H2).
  eapply R_trans; [by eapply Hm|by eapply Hk].
Qed.

Lemma preserves_int_add x y : preserves R (int_add x y).
Proof.
  unfold int_add. destruct (_ && _); [apply preserves_ret|apply preserves_fail].
Qed.

Lemma preserves_loop_budget : preserves R loop_budget.
Proof. intros s b s' [= _ <-]. apply R_refl. Qed.

Lemma preserves_load_list p : preserves R (load_list p).
Proof.
  intros s b s'. unfold load_list. destruct p as [a|]; [|done].
  destruct (lists s !! a); [|done]. intros [= _ <-]. apply R_refl.
Qed.

Lemma preserves_load_node p : preserves R (load_node p).
Proof.
  intros s b s'. unfold load_node. destruct p as [a|]; [|done].
  destruct (nodes s !! a); [|done]. intros [= _ <-]. apply R_refl.
Qed.

Lemma preserves_load_iter p : preserves R (load_iter p).
Proof.
  intros s b s'. unfold load_iter. destruct p as [a|]; [|done].
  destruct (iters s !! a); [|done]. intros [= _ <-]. apply R_refl.
Qed.

Lemma preserves_read_bytes p n : preserves R (read_bytes p n).
Proof.
  intros s b s'. unfold read_bytes. destruct p as [a|]; [|done].
  destruct (objs s !! a); [|done]. destruct (_ <=? _)%N; [|done].
  intros [= _ <-]. apply R_refl.
Qed.

(** Readers. *)
Ltac frame_step :=
  first
    [ assumption
    | apply preserves_ret | apply preserves_fail | apply preserves_diverge
    | apply preserves_int_add | apply preserves_loop_budget
    | apply preserves_load_list | apply preserves_load_node
    | apply preserves_load_iter | apply preserves_read_bytes
    | match goal with
      | |- preserves _ (bind _ _) => apply preserves_bind; [|intros ?]
      | |- preserves _ (if ?b then _ else _) => destruct b
      | |- preserves _ (match ?x with _ => _ end) => destruct x
      end ].

Lemma preserves_get_first p : preserves R (get_first p).
Proof. unfold get_first. repeat frame_step. Qed.

Lemma preserves_get_last p : preserves R (get_last p).
Proof. unfold get_last. repeat frame_step. Qed.

Lemma preserves_get_elem_size p : preserves R (get_elem_size p).
Proof. unfold get_elem_size. repeat frame_step. Qed.

Lemma preserves_get_element p : preserves R (get_element p).
Proof. unfold get_element. repeat frame_step. Qed.

Lemma preserves_get_index p : preserves R (get_index p).
Proof. unfold get_index. repeat frame_step. Qed.

Lemma preserves_get_next p : preserves R (get_next p).
Proof. unfold get_next. repeat frame_step. Qed.

Lemma preserves_get_itr_next p : preserves R (get_itr_next p).
Proof. unfold get_itr_next. repeat frame_step. Qed.

Lemma preserves_memcmp p q n : preserves R (memcmp p q n).
Proof. unfold memcmp. repeat frame_step. Qed.

Ltac frame :=
  repeat first
    [ apply preserves_get_first | apply preserves_get_last
    | apply preserves_get_elem_size | apply preserves_get_element
    | apply preserves_get_index | apply preserves_get_next
    | apply preserves_get_itr_next | apply preserves_memcmp
    | frame_step ].

Lemma preserves_ll_size list : preserves R (ll_size list).
Proof. unfold ll_size. frame. Qed.

Lemma preserves_get_loop fuel : forall temp idx, preserves R (get_loop fuel temp idx).
Proof. induction fuel as [|fuel IH]; intros temp idx; simpl; frame. apply IH. Qed.

Lemma preserves_ll_get list idx : preserves R (ll_get list idx).
Proof. unfold ll_get. frame; try apply preserves_ll_size. apply preserves_get_loop. Qed.

Lemma preserves_ll_first list : preserves R (ll_first list).
Proof. apply preserves_ll_get. Qed.

Lemma preserves_ll_last list : preserves R (ll_last list).
Proof. unfold ll_last. frame; [apply preserves_ll_size|apply preserves_ll_get]. Qed.

Lemma preserves_contains_loop fuel :
  forall temp elem n, preserves R (contains_loop fuel temp elem n).
Proof. induction fuel as [|fuel IH]; intros temp elem n; simpl; frame. apply IH. Qed.

Lemma preserves_ll_contains list elem : preserves R (ll_contains list elem).
Proof. unfold ll_contains. frame. apply preserves_contains_loop. Qed.

Lemma preserves_indexof_loop fuel :
  forall temp elem n, preserves R (indexof_loop fuel temp elem n).
Proof. induction fuel as [|fuel IH]; intros temp elem n; simpl; frame. apply IH. Qed.

Lemma preserves_ll_indexof list elem : preserves R (ll_indexof list elem).
Proof. unfold ll_indexof. frame. apply preserves_indexof_loop. Qed.

Lemma preserves_li_hasnext it : preserves R (li_hasnext it).
Proof. unfold li_hasnext. frame. Qed.

(** Writers: what each kind of update must respect. *)
Hypothesis R_set_list : forall s a l l',
  lists s !! a = Some l -> __elem_size l' = __elem_size l ->
  R s (with_lists (<[a := l']> (lists s)) s).
Hypothesis R_store_node : forall s a n,
  is_Some (nodes s !! a) -> R s (with_nodes (<[a := n]> (nodes s)) s).
Hypothesis R_store_iter : forall s a i,
  is_Some (iters s !! a) -> R s (with_iters (<[a := i]> (iters s)) s).
Hypothesis R_free_list : forall s a,
  is_Some (lists s !! a) -> R s (with_lists (delete a (lists s)) s).
Hypothesis R_free_node : forall s a,
  is_Some (nodes s !! a) -> R s (with_nodes (delete a (nodes s)) s).
Hypothesis R_free_iter : forall s a,
  is_Some (iters s !! a) -> R s (with_iters (delete a (iters s)) s).
Hypothesis R_free_obj : forall s a,
  is_Some (objs s !! a) -> R s (with_objs (delete a (objs s)) s).
Hypothesis R_oracle : forall s o, R s (with_oracle o s).
Hypothesis R_alloc_node : forall s a n, R s (with_nodes (<[a := n]> (nodes s)) s).
Hypothesis R_alloc_iter : forall s a i, R s (with_iters (<[a := i]> (iters s)) s).

Lemma preserves_store_node p n : preserves R (store_node p n).
Proof.
  intros s b s'. unfold store_node. destruct p as [a|]; [|done].
  destruct (nodes s !! a) eqn:E; [|done]. intros [= _ <-]. apply R_store_node. by rewrite E.
Qed.

Lemma preserves_store_iter p i : preserves R (store_iter p i).
Proof.
  intros s b s'. unfold store_iter. destruct p as [a|]; [|done].
  destruct (iters s !! a) eqn:E; [|done]. intros [= _ <-]. apply R_store_iter. by rewrite E.
Qed.

Lemma preserves_free_list p : preserves R (free_list p).
Proof.
  intros s b s'. unfold free_list. destruct p as [a|]; [|intros [= _ <-]; apply R_refl].
  destruct (lists s !! a) eqn:E; [|done]. intros [= _ <-]. apply R_free_list. by rewrite E.
Qed.

Lemma preserves_free_node p : preserves R (free_node p).
Proof.
  intros s b s'. unfold free_node. destruct p as [a|]; [|intros [= _ <-]; apply R_refl].
  destruct (nodes s !! a) eqn:E; [|done]. intros [= _ <-]. apply R_free_node. by rewrite E.
Qed.

Lemma preserves_free_iter p : preserves R (free_iter p).
Proof.
  intros s b s'. unfold free_iter. destruct p as [a|]; [|intros [= _ <-]; apply R_refl].
  destruct (iters s !! a) eqn:E; [|done]. intros [= _ <-]. apply R_free_iter. by rewrite E.
Qed.

Lemma preserves_free_obj p : preserves R (free_obj p).
Proof.
  intros s b s'. unfold free_obj. destruct p as [a|]; [|intros [= _ <-]; apply R_refl].
  destruct (objs s !! a) as [o|] eqn:E; [|done]. destruct (obj_malloced o); [|done].
  intros [= _ <-]. apply R_free_obj. by rewrite E.
Qed.

Lemma preserves_next_outcome : preserves R next_outcome.
Proof.
  intros s b s'. unfold next_outcome. destruct (oracle s).
  - intros [= _ <-]. apply R_refl.
  - intros [= _ <-]. apply R_oracle.
Qed.

Lemma preserves_malloc_node : preserves R malloc_node.
Proof.
  unfold malloc_node. apply preserves_bind; [apply preserves_next_outcome|].
  intros [a|]; [|apply preserves_ret]. intros s b s' [= _ <-]. apply R_alloc_node.
Qed.

Lemma preserves_malloc_iter : preserves R malloc_iter.
Proof.
  unfold malloc_iter. apply preserves_bind; [apply preserves_next_outcome|].
  intros [a|]; [|apply preserves_ret]. intros s b s' [= _ <-]. apply R_alloc_iter.
Qed.

Ltac frame_w :=
  repeat first
    [ apply preserves_ll_size
    | apply preserves_store_node
    | apply preserves_store_iter | apply preserves_free_node
    | apply preserves_free_iter | apply preserves_free_obj
    | apply preserves_free_list
    | apply preserves_malloc_node | apply preserves_malloc_iter
    | apply preserves_get_first | apply preserves_get_last
    | apply preserves_get_elem_size | apply preserves_get_element
    | apply preserves_get_index | apply preserves_get_next
    | apply preserves_get_itr_next | apply preserves_memcmp
    | frame_step ].

Lemma preserves_set_first p v : preserves R (set_first p v).
Proof.
  intros s b s' H. unfold set_first in H.
  apply bind_inv in H as (l & s1 & H1 & H2).
  unfold load_list in H1. destruct p as [a|]; [|done].
  destruct (lists s !! a) as [l0|] eqn:E; [|done]. injection H1 as <- <-.
  unfold store_list in H2. rewrite E in H2. injection H2 as _ <-.
  by eapply R_set_list.
Qed.

Lemma preserves_set_last p v : preserves R (set_last p v).
Proof.
  intros s b s' H. unfold set_last in H.
  apply bind_inv in H as (l & s1 & H1 & H2).
  unfold load_list in H1. destruct p as [a|]; [|done].
  destruct (lists s !! a) as [l0|] eqn:E; [|done]. injection H1 as <- <-.
  unfold store_list in H2. rewrite E in H2. injection H2 as _ <-.
  by eapply R_set_list.
Qed.

Lemma preserves_set_element p v : preserves R (set_element p v).
Proof. unfold set_element. frame_w. Qed.

Lemma preserves_set_index p v : preserves R (set_index p v).
Proof. unfold set_index. frame_w. Qed.

Lemma preserves_set_next p v : preserves R (set_next p v).
Proof. unfold set_next. frame_w. Qed.

Lemma preserves_set_itr_next p v : preserves R (set_itr_next p v).
Proof. unfold set_itr_next. frame_w. Qed.

Ltac frame_all :=
  repeat first
    [ apply preserves_set_first | apply preserves_set_last
    | apply preserves_set_element | apply preserves_set_index
    | apply preserves_set_next | apply preserves_set_itr_next
    | frame_w ].

Lemma preserves_shift_indices fuel : forall temp d, preserves R (shift_indices fuel temp d).
Proof. induction fuel as [|fuel IH]; intros temp d; simpl; frame_all. apply IH. Qed.

Lemma preserves_add_walk fuel :
  forall temp new idx, preserves R (add_walk fuel temp new idx).
Proof. induction fuel as [|fuel IH]; intros temp new idx; simpl; frame_all. apply IH. Qed.

Lemma preserves_remove_walk fuel :
  forall temp idx, preserves R (remove_walk fuel temp idx).
Proof. induction fuel as [|fuel IH]; intros temp idx; simpl; frame_all. apply IH. Qed.

Lemma preserves_set_loop fuel :
  forall temp idx elem, preserves R (set_loop fuel temp idx elem).
Proof. induction fuel as [|fuel IH]; intros temp idx elem; simpl; frame_all. apply IH. Qed.

Lemma preserves_itr_loop fuel :
  forall temp idx it, preserves R (itr_loop fuel temp idx it).
Proof. induction fuel as [|fuel IH]; intros temp idx it; simpl; frame_all. apply IH. Qed.

Lemma preserves_ll_add list idx elem : preserves R (ll_add list idx elem).
Proof.
  unfold ll_add. frame_all;
    first [apply preserves_add_walk|apply preserves_shift_indices].
Qed.

Lemma preserves_ll_set list idx elem : preserves R (ll_set list idx elem).
Proof. unfold ll_set. frame_all. apply preserves_set_loop. Qed.

Lemma preserves_ll_remove list idx : preserves R (ll_remove list idx).
Proof.
  unfold ll_remove. frame_all;
    first [apply preserves_remove_walk|apply preserves_shift_indices].
Qed.

Lemma preserves_clear_loop fuel : forall list, preserves R (clear_loop fuel list).
Proof.
  induction fuel as [|fuel IH]; intros list; simpl; frame_all.
  - apply preserves_ll_remove.
  - apply IH.
Qed.


Lemma preserves_ll_itr list idx : preserves R (ll_itr list idx).
Proof. unfold ll_itr. frame_all. apply preserves_itr_loop. Qed.

Lemma preserves_li_next it : preserves R (li_next it).
Proof. unfold li_next. frame_all. Qed.

Lemma preserves_li_destroy it : preserves R (li_destroy it).
Proof. apply preserves_free_iter. Qed.

Lemma preserves_ll_addfirst list elem : preserves R (ll_addfirst list elem).
Proof. unfold ll_addfirst. frame_all. apply preserves_ll_add. Qed.

Lemma preserves_ll_addlast list elem : preserves R (ll_addlast list elem).
Proof. unfold ll_addlast. frame_all. apply preserves_ll_add. Qed.


End frames.

(** ** What the functions never touch *)

(** X1.  The query functions never write: whatever the state, well formed
    or not, when [ll_size], [ll_get], [ll_first], [ll_last],
    [ll_contains], [ll_indexof] or [li_hasnext] returns, the state is
    exactly the one it was called in. *)
Theorem queries_never_write (list it : ptr) (i : Z) (e : ptr) :
  preserves unchanged (ll_size list) /\
  preserves unchanged (ll_get list i) /\
  preserves unchanged (ll_first list) /\
  preserves unchanged (ll_last list) /\
  preserves unchanged (ll_contains list e) /\
  preserves unchanged (ll_indexof list e) /\
  preserves unchanged (li_hasnext it).
Proof.
  assert (forall s, unchanged s s) as Hr by done.
  assert (forall s1 s2 s3, unchanged s1 s2 -> unchanged s2 s3 -> unchanged s1 s3) as Ht
    by (unfold unchanged; congruence).
  repeat match goal with |- _ /\ _ => split end.
  - by apply preserves_ll_size.
  - by apply preserves_ll_get.
  - by apply preserves_ll_first.
  - by apply preserves_ll_last.
  - by apply preserves_ll_contains.
  - by apply preserves_ll_indexof.
  - by apply preserves_li_hasnext.
Qed.

Lemma queries_never_write_witness :
  ll_indexof (Some 1%positive) (Some 30%positive) ex_state = Ok (2, ex_state) /\
  unchanged ex_state ex_state.
Proof.
  assert (ll_indexof (Some 1%positive) (Some 30%positive) ex_state = Ok (2, ex_state)) as H
    by (vm_compute; reflexivity).
  split; [exact H|].
  destruct (queries_never_write (Some 1%positive) NULL 0 (Some 30%positive))
    as (_ & _ & _ & _ & _ & Hidx & _).
  exact (Hidx _ _ _ H).
Defined.

Lemma same_payloads_refl s : same_payloads s s.
Proof. by split. Qed.

Lemma same_payloads_trans s1 s2 s3 :
  same_payloads s1 s2 -> same_payloads s2 s3 -> same_payloads s1 s3.
Proof. intros [H1 H2] [H3 H4]. split; congruence. Qed.

(** X2.  The functions that change a list never touch the payload
    objects or the iterators: whatever the state, when [ll_add],
    [ll_addfirst], [ll_addlast], [ll_set] or [ll_remove] returns, every
    payload object and every iterator is as it was. *)
Theorem mutators_keep_payloads (list : ptr) (i : Z) (e : ptr) :
  preserves same_payloads (ll_add list i e) /\
  preserves same_payloads (ll_addfirst list e) /\
  preserves same_payloads (ll_addlast list e) /\
  preserves same_payloads (ll_set list i e) /\
  preserves same_payloads (ll_remove list i).
Proof.
  pose proof same_payloads_refl as Hr. pose proof same_payloads_trans as Ht.
  repeat match goal with |- _ /\ _ => split end.
  - apply preserves_ll_add; try done; intros; by split.
  - apply preserves_ll_addfirst; try done; intros; by split.
  - apply preserves_ll_addlast; try done; intros; by split.
  - apply preserves_ll_set; try done; intros; by split.
  - apply preserves_ll_remove; try done; intros; by split.
Qed.

Lemma mutators_keep_payloads_witness :
  ll_remove (Some 1%positive) 1 ex_two = Ok (Some 20%positive, ex_two_removed) /\
  same_payloads ex_two ex_two_removed.
Proof.
  assert (ll_remove (Some 1%positive) 1 ex_two = Ok (Some 20%positive, ex_two_removed)) as H
    by (vm_compute; reflexivity).
  split; [exact H|].
  destruct (mutators_keep_payloads (Some 1%positive) 1 NULL) as (_ & _ & _ & _ & Hrem).
  exact (Hrem _ _ _ H).
Defined.

Lemma same_list_memory_refl s : same_list_memory s s.
Proof. by repeat split. Qed.

Lemma same_list_memory_trans s1 s2 s3 :
  same_list_memory s1 s2 -> same_list_memory s2 s3 -> same_list_memory s1 s3.
Proof. intros (H1 & H2 & H3) (H4 & H5 & H6). repeat split; congruence. Qed.

(** X3.  The iterator functions never write to a list: whatever the
    state, when [ll_itr], [li_hasnext], [li_next] or [li_destroy]
    returns, the list structs, the nodes and the payload objects are as
    they were. *)
Theorem iterators_keep_lists (list it : ptr) (i : Z) :
  preserves same_list_memory (ll_itr list i) /\
  preserves same_list_memory (li_hasnext it) /\
  preserves same_list_memory (li_next it) /\
  preserves same_list_memory (li_destroy it).
Proof.
  pose proof same_list_memory_refl as Hr. pose proof same_list_memory_trans as Ht.
  repeat match goal with |- _ /\ _ => split end.
  - apply preserves_ll_itr; try done; intros; by repeat split.
  - by apply preserves_li_hasnext.
  - apply preserves_li_next; try done; intros; by repeat split.
  - apply preserves_li_destroy; try done; intros; by repeat split.
Qed.

Lemma iterators_keep_lists_witness :
  li_next (Some 5%positive) ex_iter_last = Ok (Some 30%positive, ex_iter_done) /\
  same_list_memory ex_iter_last ex_iter_done.
Proof.
  assert (li_next (Some 5%positive) ex_iter_last = Ok (Some 30%positive, ex_iter_done)) as H
    by (vm_compute; reflexivity).
  split; [exact H|].
  destruct (iterators_keep_lists NULL (Some 5%positive) 0) as (_ & _ & Hnext & _).
  exact (Hnext _ _ _ H).
Defined.

Lemma only_frees_refl s : only_frees s s.
Proof. by repeat split. Qed.

Lemma only_frees_trans s1 s2 s3 :
  only_frees s1 s2 -> only_frees s2 s3 -> only_frees s1 s3.
Proof.
  intros (H1 & H2 & H3 & H4) (H5 & H6 & H7 & H8).
  split; [by auto|]. split; [by auto|]. split; congruence.
Qed.

Lemma only_frees_store_node s a n :
  is_Some (nodes s !! a) -> only_frees s (with_nodes (<[a := n]> (nodes s)) s).
Proof.
  intros [x Hx]. repeat split; try done. simpl. intros y Hy.
  rewrite lookup_insert_ne; [done|]. congruence.
Qed.

Lemma only_frees_free_node s a :
  is_Some (nodes s !! a) -> only_frees s (with_nodes (delete a (nodes s)) s).
Proof.
  intros _. repeat split; try done. simpl. intros y Hy.
  apply lookup_delete_None. by right.
Qed.

Lemma only_frees_free_obj s a :
  is_Some (objs s !! a) -> only_frees s (with_objs (delete a (objs s)) s).
Proof.
  intros _. repeat split; try done. simpl. intros y Hy.
  apply lookup_delete_None. by right.
Qed.



Lemma same_elem_size_refl s : same_elem_size s s.
Proof. intros lp l Hl. by exists l. Qed.

Lemma same_elem_size_lists s s' : lists s' = lists s -> same_elem_size s s'.
Proof. intros E lp l Hl. exists l. by rewrite E. Qed.

Lemma same_elem_size_trans s1 s2 s3 :
  same_elem_size s1 s2 -> same_elem_size s2 s3 -> same_elem_size s1 s3.
Proof.
  intros H1 H2 lp l Hl. destruct (H1 _ _ Hl) as (l' & Hl' & E1).
  destruct (H2 _ _ Hl') as (l'' & Hl'' & E2). exists l''. split; [done|congruence].
Qed.

Lemma same_elem_size_set_list s a l l' :
  lists s !! a = Some l -> __elem_size l' = __elem_size l ->
  same_elem_size s (with_lists (<[a := l']> (lists s)) s).
Proof.
  intros Ha E lp l0 Hl0. simpl. destruct (decide (a = lp)) as [->|Hne].
  - rewrite lookup_insert_eq. exists l'. split; [done|congruence].
  - rewrite lookup_insert_ne by done. by exists l0.
Qed.



(** ** Creation, bounds and the empty list *)

Lemma ll_get_nth s lp xs j :
  ll_valid s lp xs ->
  ll_get (Some lp) (Z.of_nat j) s = Ok (from_option id NULL (xs.*2 !! j), s).
Proof.
  intros Hv. rewrite list_lookup_fmap.
  destruct (xs !! j) as [[a e]|] eqn:Hj.
  - by eapply ll_get_valid.
  - apply lookup_ge_None in Hj. apply (ll_get_out_of_range _ _ xs); [done|lia].
Qed.

Lemma ll_first_nth s lp xs :
  ll_valid s lp xs ->
  ll_first (Some lp) s = Ok (from_option id NULL (head xs.*2), s).
Proof.
  intros Hv. unfold ll_first.
  change (ll_get (Some lp) 0 s) with (ll_get (Some lp) (Z.of_nat 0) s).
  rewrite (ll_get_nth _ _ _ 0 Hv). by destruct xs.
Qed.

Lemma ll_last_nth s lp xs :
  ll_valid s lp xs ->
  ll_last (Some lp) s = Ok (from_option id NULL (last xs.*2), s).
Proof.
  intros Hv. pose proof (ll_size_valid _ _ _ Hv) as Hsz.
  assert (Z.of_nat (length xs) <= INT_MAX) as Hb by (by destruct Hv as (l & _ & _ & _ & Hb)).
  unfold ll_last. rewrite (bind_ok _ _ _ _ _ Hsz).
  assert (INT_MIN <= Z.of_nat (length xs) + -1 <= INT_MAX) as Hr
    by (unfold INT_MIN, INT_MAX in *; lia).
  rewrite (bind_ok _ _ _ _ _ (int_add_ok _ _ s Hr)).
  rewrite last_lookup, length_fmap.
  destruct xs as [|c xs].
  - by rewrite (ll_get_out_of_range _ _ [] _ Hv) by (simpl; lia).
  - replace (Z.of_nat (length (c :: xs)) + -1) with (Z.of_nat (pred (length (c :: xs))))
      by (simpl; lia).
    by rewrite (ll_get_nth _ _ _ _ Hv).
Qed.

Lemma ll_valid_empty s lp l :
  lists s !! lp = Some l -> __first l = NULL -> __last l = NULL -> ll_valid s lp [].
Proof. intros Hl Hf Hla. exists l. by repeat split. Qed.

(** X6.  [__ll_init] takes one block from [malloc].  When it gets one, it
    returns its address, the struct there holds no first and no last node
    and the element size asked for, and the list is a valid empty list:
    its size is 0 and [ll_first] and [ll_last] return [NULL].  When
    [malloc] fails it returns [NULL] and writes nothing. *)
Theorem ll_init_creates_empty_list (s : state) (sz : N) :
  match oracle s with
  | Some lp :: o =>
      let s' := with_lists (<[lp := LList NULL NULL sz]> (lists s)) (with_oracle o s) in
      __ll_init sz s = Ok (Some lp, s') /\
      ll_valid s' lp [] /\
      ll_size (Some lp) s' = Ok (0, s') /\
      ll_first (Some lp) s' = Ok (NULL, s') /\
      ll_last (Some lp) s' = Ok (NULL, s')
  | _ => __ll_init sz s = Ok (NULL, with_oracle (tail (oracle s)) s)
  end.
Proof.
  destruct (oracle s) as [|[lp|] o] eqn:Ho.
  - unfold __ll_init, malloc_list, bind, next_outcome. rewrite Ho. simpl.
    by destruct s; simpl in *; subst.
  - assert (__ll_init sz s =
      Ok (Some lp, with_lists (<[lp := LList NULL NULL sz]> (lists s)) (with_oracle o s)))
      as Hinit.
    { unfold __ll_init, malloc_list, bind, next_outcome. rewrite Ho. simpl.
      unfold set_first, set_last, set_elem_size, bind, load_list, store_list. simpl.
      repeat (rewrite lookup_insert_eq; simpl).
      unfold ret, with_lists. simpl. by rewrite !insert_insert_eq. }
    simpl. split; [done|].
    assert (ll_valid (with_lists (<[lp := LList NULL NULL sz]> (lists s)) (with_oracle o s))
              lp []) as Hv.
    { eapply ll_valid_empty; [simpl; apply lookup_insert_eq|done..]. }
    split; [done|]. split; [by apply (ll_size_valid _ _ [])|].
    split; [by apply (ll_first_nth _ _ [])|by apply (ll_last_nth _ _ [])].
  - unfold __ll_init, malloc_list, bind, next_outcome. by rewrite Ho.
Qed.

Lemma ll_remove_out_of_range s lp xs i :
  ll_valid s lp xs -> i < 0 \/ Z.of_nat (length xs) <= i ->
  ll_remove (Some lp) i s = Ok (NULL, s).
Proof.
  intros Hv Hi. pose proof (ll_size_valid _ _ _ Hv) as Hsz.
  unfold ll_remove. simpl.
  destruct (i <? 0) eqn:E1; [done|]. apply Z.ltb_ge in E1.
  rewrite (bind_ok _ _ _ _ _ Hsz).
  destruct (i >=? Z.of_nat (length xs)) eqn:E2; [done|].
  rewrite Z.geb_leb in E2. apply Z.leb_gt in E2. lia.
Qed.

Lemma ll_itr_out_of_range s lp xs i :
  ll_valid s lp xs -> i < 0 \/ Z.of_nat (length xs) <= i ->
  ll_itr (Some lp) i s = Ok (NULL, s).
Proof.
  intros Hv Hi. pose proof (ll_size_valid _ _ _ Hv) as Hsz.
  unfold ll_itr. simpl.
  destruct (i <? 0) eqn:E1; [done|]. apply Z.ltb_ge in E1.
  rewrite (bind_ok _ _ _ _ _ Hsz).
  destruct (i >=? Z.of_nat (length xs)) eqn:E2; [done|].
  rewrite Z.geb_leb in E2. apply Z.leb_gt in E2. lia.
Qed.

Lemma ll_add_out_of_range s lp xs i e :
  ll_valid s lp xs -> i < 0 \/ Z.of_nat (length xs) < i ->
  ll_add (Some lp) i e s = Ok (0, s).
Proof.
  intros Hv Hi. pose proof (ll_size_valid _ _ _ Hv) as Hsz.
  unfold ll_add. simpl.
  destruct (i <? 0) eqn:E1; [done|]. apply Z.ltb_ge in E1.
  rewrite (bind_ok _ _ _ _ _ Hsz).
  destruct (i >? Z.of_nat (length xs)) eqn:E2; [done|].
  rewrite Z.gtb_ltb in E2. apply Z.ltb_ge in E2. lia.
Qed.

Lemma out_of_range_is_noop_aux s lp (xs : list (loc * ptr)) i e :
  ll_valid s lp xs -> i < 0 \/ Z.of_nat (length xs) <= i ->
  ll_get (Some lp) i s = Ok (NULL, s) /\
  ll_set (Some lp) i e s = Ok (NULL, s) /\
  ll_remove (Some lp) i s = Ok (NULL, s) /\
  ll_itr (Some lp) i s = Ok (NULL, s).
Proof.
  intros Hv Hi.
  split; [by eapply ll_get_out_of_range|].
  split; [by eapply ll_set_out_of_range|].
  split; [by eapply ll_remove_out_of_range|by eapply ll_itr_out_of_range].
Qed.

(** X7.  A call with an index out of range is a no-op.  On a valid list,
    for an index below 0 or at least the size, [ll_get], [ll_set],
    [ll_remove] and [ll_itr] return [NULL]; for an index below 0 or above
    the size, [ll_add] returns 0.  Each leaves the state exactly as it
    was: nothing is written and [malloc] is not called. *)
Theorem out_of_range_is_noop s lp xs i e :
  ll_valid s lp xs -> i < 0 \/ Z.of_nat (length xs) <= i ->
  ll_get (Some lp) i s = Ok (NULL, s) /\
  ll_set (Some lp) i e s = Ok (NULL, s) /\
  ll_remove (Some lp) i s = Ok (NULL, s) /\
  ll_itr (Some lp) i s = Ok (NULL, s) /\
  (i <> Z.of_nat (length xs) -> ll_add (Some lp) i e s = Ok (0, s)).
Proof.
  intros Hv Hi.
  split; [by eapply ll_get_out_of_range|].
  split; [by eapply ll_set_out_of_range|].
  split; [by eapply ll_remove_out_of_range|].
  split; [by eapply ll_itr_out_of_range|].
  intros Hne. eapply ll_add_out_of_range; [done|lia].
Qed.

Lemma out_of_range_is_noop_witness :
  ll_valid ex_state 1%positive ex_cells /\
  (7 < 0 \/ Z.of_nat (length ex_cells) <= 7) /\
  ll_get (Some 1%positive) 7 ex_state = Ok (NULL, ex_state) /\
  ll_remove (Some 1%positive) 7 ex_state = Ok (NULL, ex_state) /\
  ll_add (Some 1%positive) 7 (Some 15%positive) ex_state = Ok (0, ex_state).
Proof.
  assert (ll_valid ex_state 1%positive ex_cells) as Hv by solve_valid.
  assert (7 < 0 \/ Z.of_nat (length ex_cells) <= 7) as Hi by (right; simpl; lia).
  destruct (out_of_range_is_noop ex_state 1%positive ex_cells 7 (Some 15%positive) Hv Hi)
    as (Hg & _ & Hr & _ & Ha).
  split; [exact Hv|]. split; [exact Hi|]. split; [exact Hg|]. split; [exact Hr|].
  apply Ha. discriminate.
Defined.

(** X8.  On a valid empty list every function reports absence and
    writes nothing: the size is 0; [ll_first], [ll_last], and for every
    index [ll_get], [ll_set], [ll_remove] and [ll_itr] return [NULL];
    [ll_contains] returns 0 and [ll_indexof] returns -1 for every probe,
    which is never dereferenced; [ll_clear] does nothing. *)
Theorem empty_list_behaviour s lp i e :
  ll_valid s lp [] ->
  ll_size (Some lp) s = Ok (0, s) /\
  ll_first (Some lp) s = Ok (NULL, s) /\
  ll_last (Some lp) s = Ok (NULL, s) /\
  ll_get (Some lp) i s = Ok (NULL, s) /\
  ll_set (Some lp) i e s = Ok (NULL, s) /\
  ll_remove (Some lp) i s = Ok (NULL, s) /\
  ll_itr (Some lp) i s = Ok (NULL, s) /\
  ll_contains (Some lp) e s = Ok (0, s) /\
  ll_indexof (Some lp) e s = Ok (-1, s) /\
  ll_clear (Some lp) s = Ok (tt, s).
Proof.
  intros Hv. pose proof (ll_size_valid _ _ _ Hv) as Hsz. simpl in Hsz.
  assert (i < 0 \/ Z.of_nat (length (@nil (loc * ptr))) <= i) as Hi by (simpl; lia).
  destruct (out_of_range_is_noop_aux s lp [] i e Hv Hi) as (Hg & Hs & Hr & Hit).
  split; [done|]. split; [by apply (ll_first_nth _ _ [])|].
  split; [by apply (ll_last_nth _ _ [])|].
  split; [done|]. split; [done|]. split; [done|]. split; [done|].
  destruct Hv as (l & Hl & Hseg & _). simpl in Hseg.
  split; [|split].
  - unfold ll_contains. simpl.
    rewrite (bind_ok _ _ _ _ _ (get_first_ok s lp l Hl)).
    rewrite (bind_ok _ _ _ _ _ (get_elem_size_ok s lp l Hl)).
    rewrite (bind_ok _ _ _ _ _ (loop_budget_ok s)). by rewrite Hseg.
  - unfold ll_indexof. simpl.
    rewrite (bind_ok _ _ _ _ _ (get_first_ok s lp l Hl)).
    rewrite (bind_ok _ _ _ _ _ (get_elem_size_ok s lp l Hl)).
    rewrite (bind_ok _ _ _ _ _ (loop_budget_ok s)). by rewrite Hseg.
  - unfold ll_clear. simpl.
    rewrite (bind_ok _ _ _ _ _ (loop_budget_ok s)). simpl.
    by rewrite (bind_ok _ _ _ _ _ Hsz).
Qed.

Lemma empty_list_behaviour_witness :
  ll_valid ex_empty 1%positive [] /\
  ll_last (Some 1%positive) ex_empty = Ok (NULL, ex_empty) /\
  ll_remove (Some 1%positive) 0 ex_empty = Ok (NULL, ex_empty) /\
  ll_indexof (Some 1%positive) NULL ex_empty = Ok (-1, ex_empty).
Proof.
  assert (ll_valid ex_empty 1%positive []) as Hv by solve_valid.
  destruct (empty_list_behaviour ex_empty 1%positive 0 NULL Hv)
    as (_ & _ & Hl & _ & _ & Hr & _ & _ & Hi & _).
  split; [exact Hv|]. split; [exact Hl|]. split; [exact Hr|exact Hi].
Defined.

(** ** Insertion *)

Lemma elems_insert_before (xs : list (loc * ptr)) j c k :
  (k < j)%nat -> (j <= length xs)%nat ->
  (take j xs ++ c :: drop j xs).*2 !! k = xs.*2 !! k.
Proof.
  intros Hk Hj. rewrite !list_lookup_fmap.
  rewrite lookup_app_l by (rewrite length_take; lia).
  by rewrite lookup_take_lt.
Qed.

Lemma elems_insert_after (xs : list (loc * ptr)) j c k :
  (j <= k)%nat -> (j <= length xs)%nat ->
  (take j xs ++ c :: drop j xs).*2 !! S k = xs.*2 !! k.
Proof.
  intros Hk Hj. rewrite !list_lookup_fmap.
  rewrite lookup_app_r by (rewrite length_take; lia).
  rewrite length_take. replace (S k - j `min` length xs)%nat with (S (k - j)) by lia.
  simpl. rewrite lookup_drop. do 2 f_equal. lia.
Qed.

Lemma elems_insert_at (xs : list (loc * ptr)) j c :
  (j <= length xs)%nat ->
  (take j xs ++ c :: drop j xs).*2 !! j = Some c.2.
Proof.
  intros Hj. rewrite !list_lookup_fmap.
  rewrite lookup_app_r by (rewrite length_take; lia).
  rewrite length_take. by replace (j - j `min` length xs)%nat with 0%nat by lia.
Qed.

(** X9.  [ll_add] at index [j] of a valid list, given a fresh node by
    [malloc], returns 1, makes the size one more, puts the element at
    [j], leaves what [ll_get] returns below [j] as it was and moves what
    it returned at each [k >= j] to [k + 1]. *)
Theorem ll_add_shifts_right s lp xs j e na o :
  ll_valid s lp xs -> (j <= length xs)%nat -> Z.of_nat (length xs) < INT_MAX ->
  oracle s = Some na :: o -> nodes s !! na = None ->
  exists s',
    ll_add (Some lp) (Z.of_nat j) e s = Ok (1, s') /\
    ll_size (Some lp) s' = Ok (Z.of_nat (length xs) + 1, s') /\
    ll_get (Some lp) (Z.of_nat j) s' = Ok (e, s') /\
    (forall k, (k < j)%nat ->
       value (ll_get (Some lp) (Z.of_nat k) s') =
       value (ll_get (Some lp) (Z.of_nat k) s)) /\
    (forall k, (j <= k)%nat ->
       value (ll_get (Some lp) (Z.of_nat (S k)) s') =
       value (ll_get (Some lp) (Z.of_nat k) s)).
Proof.
  intros Hv Hj Hlen Ho Hfresh.
  destruct (ll_add_valid s lp xs j na o e Hv Hj Hlen Ho Hfresh) as (s' & Hadd & Hv' & _).
  exists s'. split; [done|]. split; [|split; [|split]].
  - rewrite (ll_size_valid _ _ _ Hv'). do 2 f_equal.
    rewrite length_app, length_take. simpl. rewrite length_drop. lia.
  - rewrite (ll_get_nth _ _ _ _ Hv'). by rewrite elems_insert_at.
  - intros k Hk. rewrite (ll_get_nth _ _ _ _ Hv'), (ll_get_nth _ _ _ _ Hv).
    simpl. by rewrite elems_insert_before.
  - intros k Hk. rewrite (ll_get_nth _ _ _ _ Hv'), (ll_get_nth _ _ _ _ Hv).
    unfold value. by rewrite elems_insert_after.
Qed.

Lemma ll_add_shifts_right_witness :
  ll_valid ex_state 1%positive ex_cells /\
  (1 <= length ex_cells)%nat /\
  Z.of_nat (length ex_cells) < INT_MAX /\
  nodes ex_state !! 5%positive = None /\
  exists s',
    ll_add (Some 1%positive) 1 (Some 15%positive) ex_state = Ok (1, s') /\
    ll_size (Some 1%positive) s' = Ok (4, s') /\
    value (ll_get (Some 1%positive) 2 s') = value (ll_get (Some 1%positive) 1 ex_state).
Proof.
  assert (ll_valid ex_state 1%positive ex_cells) as Hv by solve_valid.
  assert (1 <= length ex_cells)%nat as Hj by (simpl; lia).
  assert (Z.of_nat (length ex_cells) < INT_MAX) as Hb by (vm_compute; reflexivity).
  destruct (ll_add_shifts_right ex_state 1%positive ex_cells 1 (Some 15%positive)
              5%positive [Some 6%positive] Hv Hj Hb eq_refl eq_refl)
    as (s' & Hadd & Hsz & _ & _ & Hup).
  split; [exact Hv|]. split; [exact Hj|]. split; [exact Hb|]. split; [reflexivity|].
  exists s'. split; [exact Hadd|]. split; [exact Hsz|]. exact (Hup 1%nat (le_n 1)).
Defined.

(** X10.  [ll_addfirst] on a valid list, given a fresh node by [malloc],
    makes its element the one [ll_first] returns, makes the size one
    more, and moves what [ll_get] returned at each [k] to [k + 1]. *)
Theorem ll_addfirst_then_first s lp xs e na o :
  ll_valid s lp xs -> Z.of_nat (length xs) < INT_MAX ->
  oracle s = Some na :: o -> nodes s !! na = None ->
  exists s',
    ll_addfirst (Some lp) e s = Ok (tt, s') /\
    ll_first (Some lp) s' = Ok (e, s') /\
    ll_size (Some lp) s' = Ok (Z.of_nat (length xs) + 1, s') /\
    forall k,
      value (ll_get (Some lp) (Z.of_nat (S k)) s') =
      value (ll_get (Some lp) (Z.of_nat k) s).
Proof.
  intros Hv Hlen Ho Hfresh.
  destruct (ll_add_valid s lp xs 0 na o e Hv ltac:(lia) Hlen Ho Hfresh)
    as (s' & Hadd & Hv' & _).
  simpl in Hv'. rewrite drop_0 in Hv'.
  exists s'. split; [|split; [|split]].
  - unfold ll_addfirst. change 0 with (Z.of_nat 0). by rewrite (bind_ok _ _ _ _ _ Hadd).
  - by rewrite (ll_first_nth _ _ _ Hv').
  - rewrite (ll_size_valid _ _ _ Hv'). do 2 f_equal. simpl. lia.
  - intros k. by rewrite (ll_get_nth _ _ _ _ Hv'), (ll_get_nth _ _ _ _ Hv).
Qed.

Lemma ll_addfirst_then_first_witness :
  ll_valid ex_state 1%positive ex_cells /\
  Z.of_nat (length ex_cells) < INT_MAX /\
  nodes ex_state !! 5%positive = None /\
  exists s',
    ll_addfirst (Some 1%positive) (Some 15%positive) ex_state = Ok (tt, s') /\
    ll_first (Some 1%positive) s' = Ok (Some 15%positive, s').
Proof.
  assert (ll_valid ex_state 1%positive ex_cells) as Hv by solve_valid.
  assert (Z.of_nat (length ex_cells) < INT_MAX) as Hb by (vm_compute; reflexivity).
  destruct (ll_addfirst_then_first ex_state 1%positive ex_cells (Some 15%positive)
              5%positive [Some 6%positive] Hv Hb eq_refl eq_refl)
    as (s' & Hadd & Hf & _).
  split; [exact Hv|]. split; [exact Hb|]. split; [reflexivity|].
  exists s'. split; [exact Hadd|exact Hf].
Defined.

(** X11.  [ll_addlast] on a valid list, given a fresh node by [malloc],
    makes its element the one [ll_last] returns, makes the size one more,
    and leaves what [ll_get] returns at every index below the old size as
    it was. *)
Theorem ll_addlast_then_last s lp xs e na o :
  ll_valid s lp xs -> Z.of_nat (length xs) < INT_MAX ->
  oracle s = Some na :: o -> nodes s !! na = None ->
  exists s',
    ll_addlast (Some lp) e s = Ok (tt, s') /\
    ll_last (Some lp) s' = Ok (e, s') /\
    ll_size (Some lp) s' = Ok (Z.of_nat (length xs) + 1, s') /\
    forall k, (k < length xs)%nat ->
      value (ll_get (Some lp) (Z.of_nat k) s') =
      value (ll_get (Some lp) (Z.of_nat k) s).
Proof.
  intros Hv Hlen Ho Hfresh.
  destruct (ll_add_valid s lp xs (length xs) na o e Hv ltac:(lia) Hlen Ho Hfresh)
    as (s' & Hadd & Hv' & _).
  rewrite take_ge, drop_ge in Hv' by lia.
  exists s'. split; [|split; [|split]].
  - unfold ll_addlast. rewrite (bind_ok _ _ _ _ _ (ll_size_valid _ _ _ Hv)).
    by rewrite (bind_ok _ _ _ _ _ Hadd).
  - rewrite (ll_last_nth _ _ _ Hv'). rewrite fmap_app.
    change ([(na, e)].*2) with [e]. by rewrite last_snoc.
  - rewrite (ll_size_valid _ _ _ Hv'). do 2 f_equal. rewrite length_app. simpl. lia.
  - intros k Hk. rewrite (ll_get_nth _ _ _ _ Hv'), (ll_get_nth _ _ _ _ Hv).
    rewrite fmap_app. by rewrite lookup_app_l by (rewrite length_fmap; lia).
Qed.

Lemma ll_addlast_then_last_witness :
  ll_valid ex_state 1%positive ex_cells /\
  Z.of_nat (length ex_cells) < INT_MAX /\
  nodes ex_state !! 5%positive = None /\
  exists s',
    ll_addlast (Some 1%positive) (Some 15%positive) ex_state = Ok (tt, s') /\
    ll_last (Some 1%positive) s' = Ok (Some 15%positive, s').
Proof.
  assert (ll_valid ex_state 1%positive ex_cells) as Hv by solve_valid.
  assert (Z.of_nat (length ex_cells) < INT_MAX) as Hb by (vm_compute; reflexivity).
  destruct (ll_addlast_then_last ex_state 1%positive ex_cells (Some 15%positive)
              5%positive [Some 6%positive] Hv Hb eq_refl eq_refl)
    as (s' & Hadd & Hl & _).
  split; [exact Hv|]. split; [exact Hb|]. split; [reflexivity|].
  exists s'. split; [exact Hadd|exact Hl].
Defined.

Lemma ll_add_alloc_failure s lp xs i e :
  ll_valid s lp xs -> 0 <= i <= Z.of_nat (length xs) ->
  oracle s = [] \/ (exists o, oracle s = NULL :: o) ->
  ll_add (Some lp) i e s = Ok (0, with_oracle (tail (oracle s)) s).
Proof.
  intros Hv Hi Ho. pose proof (ll_size_valid _ _ _ Hv) as Hsz.
  unfold ll_add. simpl.
  destruct (i <? 0) eqn:E1; [apply Z.ltb_lt in E1; lia|].
  rewrite (bind_ok _ _ _ _ _ Hsz).
  destruct (i >? Z.of_nat (length xs)) eqn:E2; [apply Z.gtb_lt in E2; lia|].
  unfold bind, malloc_node, bind, next_outcome.
  destruct Ho as [Ho|[o Ho]]; rewrite Ho; simpl; [|done].
  by destruct s; simpl in *; subst.
Qed.

(** X12.  [ll_addfirst] and [ll_addlast] return nothing, so a failed
    allocation is silent: when [malloc] fails, each returns as after a
    success, and the list, its nodes, the payloads and the iterators are
    as they were, the element not being stored. *)
Theorem addfirst_addlast_drop_on_alloc_failure s lp xs e :
  ll_valid s lp xs ->
  oracle s = [] \/ (exists o, oracle s = NULL :: o) ->
  ll_addfirst (Some lp) e s = Ok (tt, with_oracle (tail (oracle s)) s) /\
  ll_addlast (Some lp) e s = Ok (tt, with_oracle (tail (oracle s)) s) /\
  ll_valid (with_oracle (tail (oracle s)) s) lp xs.
Proof.
  intros Hv Ho. split; [|split].
  - unfold ll_addfirst.
    by rewrite (bind_ok _ _ _ _ _ (ll_add_alloc_failure s lp xs 0 e Hv ltac:(lia) Ho)).
  - unfold ll_addlast. rewrite (bind_ok _ _ _ _ _ (ll_size_valid _ _ _ Hv)).
    by rewrite (bind_ok _ _ _ _ _ (ll_add_alloc_failure s lp xs (Z.of_nat (length xs)) e Hv ltac:(lia) Ho)).
  - by eapply ll_valid_frame.
Qed.

Lemma addfirst_addlast_drop_on_alloc_failure_witness :
  ll_valid ex_state_oom 1%positive ex_cells /\
  (oracle ex_state_oom = [] \/ (exists o, oracle ex_state_oom = NULL :: o)) /\
  ll_addlast (Some 1%positive) (Some 15%positive) ex_state_oom = Ok (tt, ex_state_oom).
Proof.
  assert (ll_valid ex_state_oom 1%positive ex_cells) as Hv by solve_valid.
  assert (oracle ex_state_oom = [] \/ (exists o, oracle ex_state_oom = NULL :: o)) as Ho
    by (left; reflexivity).
  split; [exact Hv|]. split; [exact Ho|].
  exact (proj1 (proj2 (addfirst_addlast_drop_on_alloc_failure ex_state_oom 1%positive
                         ex_cells (Some 15%positive) Hv Ho))).
Defined.

(** X13.  On a valid list [ll_first] returns the element of the first
    node and [ll_last] the element of the last node, and both return
    [NULL] when the list is empty; neither writes. *)
Theorem ll_first_last_spec s lp xs :
  ll_valid s lp xs ->
  ll_first (Some lp) s = Ok (from_option id NULL (head xs.*2), s) /\
  ll_last (Some lp) s = Ok (from_option id NULL (last xs.*2), s).
Proof. intros Hv. split; [by apply ll_first_nth|by apply ll_last_nth]. Qed.

Lemma ll_first_last_spec_witness :
  ll_valid ex_state 1%positive ex_cells /\
  ll_first (Some 1%positive) ex_state = Ok (Some 10%positive, ex_state) /\
  ll_last (Some 1%positive) ex_state = Ok (Some 30%positive, ex_state).
Proof.
  assert (ll_valid ex_state 1%positive ex_cells) as Hv by solve_valid.
  split; [exact Hv|].
  exact (ll_first_last_spec ex_state 1%positive ex_cells Hv).
Defined.

(** ** Removal *)

(** X14.  [ll_remove] at the first index, or at any index but the last,
    of a valid list returns the element stored there, frees its node,
    makes the size one less, leaves what [ll_get] returns below the index
    as it was and moves what it returned at each [k + 1] above it down to
    [k]. *)
Theorem ll_remove_shifts_left s lp xs j a e :
  ll_valid s lp xs -> xs !! j = Some (a, e) ->
  j = 0%nat \/ (S j < length xs)%nat ->
  exists s',
    ll_remove (Some lp) (Z.of_nat j) s = Ok (e, s') /\
    ll_valid s' lp (delete j xs) /\
    ll_size (Some lp) s' = Ok (Z.of_nat (length xs) - 1, s') /\
    nodes s' !! a = None /\
    (forall k, (k < j)%nat ->
       value (ll_get (Some lp) (Z.of_nat k) s') =
       value (ll_get (Some lp) (Z.of_nat k) s)) /\
    (forall k, (j <= k)%nat ->
       value (ll_get (Some lp) (Z.of_nat k) s') =
       value (ll_get (Some lp) (Z.of_nat (S k)) s)).
Proof.
  intros Hv Hj Hpos.
  destruct (ll_remove_valid _ _ _ _ _ _ Hv Hj Hpos) as (s' & Hrun & Hv' & _).
  destruct (ll_remove_spec _ _ _ _ _ _ Hv Hj) as (s2 & _ & _ & Hrun2 & _ & _ & _ & Hgone & _).
  rewrite Hrun in Hrun2. injection Hrun2 as <-.
  pose proof (lookup_lt_Some _ _ _ Hj) as Hlt.
  exists s'. split; [done|]. split; [done|]. split; [|split; [done|split]].
  - rewrite (ll_size_valid _ _ _ Hv'). rewrite length_delete by (by eexists).
    do 2 f_equal. lia.
  - intros k Hk. rewrite (ll_get_nth _ _ _ _ Hv'), (ll_get_nth _ _ _ _ Hv).
    rewrite !list_lookup_fmap. by rewrite list_lookup_delete_lt.
  - intros k Hk. rewrite (ll_get_nth _ _ _ _ Hv'), (ll_get_nth _ _ _ _ Hv).
    rewrite !list_lookup_fmap. by rewrite list_lookup_delete_ge.
Qed.

Lemma ll_remove_shifts_left_witness :
  ll_valid ex_state 1%positive ex_cells /\
  ex_cells !! 1%nat = Some (3%positive, Some 20%positive) /\
  (1%nat = 0%nat \/ (2 < length ex_cells)%nat) /\
  exists s',
    ll_remove (Some 1%positive) 1 ex_state = Ok (Some 20%positive, s') /\
    ll_size (Some 1%positive) s' = Ok (2, s') /\
    value (ll_get (Some 1%positive) 1 s') = value (ll_get (Some 1%positive) 2 ex_state).
Proof.
  assert (ll_valid ex_state 1%positive ex_cells) as Hv by solve_valid.
  assert (1%nat = 0%nat \/ (2 < length ex_cells)%nat) as Hp by (right; simpl; lia).
  destruct (ll_remove_shifts_left ex_state 1%positive ex_cells 1 3%positive
              (Some 20%positive) Hv eq_refl Hp)
    as (s' & Hrun & _ & Hsz & _ & _ & Hdown).
  split; [exact Hv|]. split; [reflexivity|]. split; [exact Hp|].
  exists s'. split; [exact Hrun|]. split; [exact Hsz|]. exact (Hdown 1%nat (le_n 1)).
Defined.

Lemma size_fault_spreads s lp f i e :
  ll_size (Some lp) s = Fault f -> 0 <= i ->
  ll_get (Some lp) i s = Fault f /\
  ll_set (Some lp) i e s = Fault f /\
  ll_remove (Some lp) i s = Fault f /\
  ll_add (Some lp) i e s = Fault f /\
  ll_itr (Some lp) i s = Fault f /\
  ll_last (Some lp) s = Fault f /\
  ll_addlast (Some lp) e s = Fault f /\
  ll_clear (Some lp) s = Fault f.
Proof.
  intros Hsz Hi.
  assert ((i <? 0) = false) as E by (apply Z.ltb_ge; lia).
  split; [unfold ll_get; simpl; rewrite E; unfold bind; by rewrite Hsz|].
  split; [unfold ll_set; simpl; rewrite E; unfold bind; by rewrite Hsz|].
  split; [unfold ll_remove; simpl; rewrite E; unfold bind; by rewrite Hsz|].
  split; [unfold ll_add; simpl; rewrite E; unfold bind; by rewrite Hsz|].
  split; [unfold ll_itr; simpl; rewrite E; unfold bind; by rewrite Hsz|].
  split; [unfold ll_last, bind; by rewrite Hsz|].
  split; [unfold ll_addlast, bind; by rewrite Hsz|].
  unfold ll_clear. simpl. rewrite (bind_ok _ _ _ _ _ (loop_budget_ok s)).
  simpl. unfold bind. by rewrite Hsz.
Qed.

(** X15.  [ll_remove] at the last index of a valid list of two or more
    elements returns the element stored there and frees its node, but
    leaves [__last] pointing at the freed node.  From then on [ll_size]
    reads freed memory, and so does every function that starts by
    calling it: [ll_get], [ll_set], [ll_remove], [ll_add] and [ll_itr] at
    any index from 0 on, [ll_last], [ll_addlast] and [ll_clear]. *)
Theorem ll_remove_last_of_many_corrupts s lp xs a e i e' :
  ll_valid s lp xs -> (2 <= length xs)%nat ->
  xs !! pred (length xs) = Some (a, e) -> 0 <= i ->
  exists s' l',
    ll_remove (Some lp) (Z.of_nat (pred (length xs))) s = Ok (e, s') /\
    lists s' !! lp = Some l' /\ __last l' = Some a /\ nodes s' !! a = None /\
    ll_size (Some lp) s' = Fault DanglingDeref /\
    ll_get (Some lp) i s' = Fault DanglingDeref /\
    ll_set (Some lp) i e' s' = Fault DanglingDeref /\
    ll_remove (Some lp) i s' = Fault DanglingDeref /\
    ll_add (Some lp) i e' s' = Fault DanglingDeref /\
    ll_itr (Some lp) i s' = Fault DanglingDeref /\
    ll_last (Some lp) s' = Fault DanglingDeref /\
    ll_addlast (Some lp) e' s' = Fault DanglingDeref /\
    ll_clear (Some lp) s' = Fault DanglingDeref.
Proof.
  intros Hv Hlen Hj Hi.
  destruct (ll_remove_tail_dangling _ _ _ _ _ Hv Hlen Hj)
    as (s' & l' & Hrun & Hl' & Hla & Hgone & Hsz & _).
  exists s', l'. split; [done|]. split; [done|]. split; [done|]. split; [done|].
  split; [done|]. by apply size_fault_spreads.
Qed.

Lemma ll_remove_last_of_many_corrupts_witness :
  ll_valid ex_two 1%positive ex_two_cells /\
  (2 <= length ex_two_cells)%nat /\
  ex_two_cells !! pred (length ex_two_cells) = Some (3%positive, Some 20%positive) /\
  exists s',
    ll_remove (Some 1%positive) 1 ex_two = Ok (Some 20%positive, s') /\
    ll_size (Some 1%positive) s' = Fault DanglingDeref /\
    ll_get (Some 1%positive) 0 s' = Fault DanglingDeref.
Proof.
  assert (ll_valid ex_two 1%positive ex_two_cells) as Hv by solve_valid.
  assert (2 <= length ex_two_cells)%nat as Hl by (simpl; lia).
  assert (0 <= 0) as H0 by lia.
  destruct (ll_remove_last_of_many_corrupts ex_two 1%positive ex_two_cells 3%positive
              (Some 20%positive) 0 NULL Hv Hl eq_refl H0)
    as (s' & l' & Hrun & _ & _ & _ & Hsz & Hget & _).
  split; [exact Hv|]. split; [exact Hl|]. split; [reflexivity|].
  exists s'. split; [exact Hrun|]. split; [exact Hsz|exact Hget].
Defined.

(** X16.  Insertion is undone by removal at the same index: on a valid
    list, [ll_add] at an index below the size (or at 0 of an empty list)
    followed by [ll_remove] at that index returns the inserted element,
    frees the new node and leaves a valid list with the nodes and
    elements it had before. *)
Theorem ll_add_then_remove_restores s lp xs j e na o :
  ll_valid s lp xs -> (j < length xs)%nat \/ (j = 0%nat /\ xs = []) ->
  Z.of_nat (length xs) < INT_MAX ->
  oracle s = Some na :: o -> nodes s !! na = None ->
  exists s1 s2,
    ll_add (Some lp) (Z.of_nat j) e s = Ok (1, s1) /\
    ll_remove (Some lp) (Z.of_nat j) s1 = Ok (e, s2) /\
    ll_valid s2 lp xs /\
    nodes s2 !! na = None /\
    forall k,
      value (ll_get (Some lp) (Z.of_nat k) s2) =
      value (ll_get (Some lp) (Z.of_nat k) s).
Proof.
  intros Hv Hj Hlen Ho Hfresh.
  assert (j <= length xs)%nat as Hle by (destruct Hj as [?|[-> ->]]; simpl; lia).
  destruct (ll_add_valid s lp xs j na o e Hv Hle Hlen Ho Hfresh) as (s1 & Hadd & Hv1 & _).
  assert ((take j xs ++ (na, e) :: drop j xs) !! j = Some (na, e)) as Hat.
  { rewrite lookup_app_r by (rewrite length_take; lia).
    rewrite length_take. by replace (j - j `min` length xs)%nat with 0%nat by lia. }
  assert (j = 0%nat \/ (S j < length (take j xs ++ (na, e) :: drop j xs))%nat) as Hpos.
  { destruct Hj as [Hj|[-> _]]; [right|by left].
    rewrite length_app, length_take. simpl. rewrite length_drop. lia. }
  destruct (ll_remove_valid _ _ _ _ _ _ Hv1 Hat Hpos) as (s2 & Hrun & Hv2 & _).
  destruct (ll_remove_spec _ _ _ _ _ _ Hv1 Hat)
    as (s2' & _ & _ & Hrun2 & _ & _ & _ & Hgone & _).
  rewrite Hrun in Hrun2. injection Hrun2 as <-.
  assert (delete j (take j xs ++ (na, e) :: drop j xs) = xs) as Hback.
  { rewrite <- (length_take_le xs j) at 1 by lia.
    rewrite delete_middle. apply take_drop. }
  rewrite Hback in Hv2.
  exists s1, s2. split; [done|]. split; [done|]. split; [done|]. split; [done|].
  intros k. by rewrite (ll_get_nth _ _ _ _ Hv2), (ll_get_nth _ _ _ _ Hv).
Qed.

Lemma ll_add_then_remove_restores_witness :
  ll_valid ex_state 1%positive ex_cells /\
  ((1 < length ex_cells)%nat \/ (1%nat = 0%nat /\ ex_cells = [])) /\
  Z.of_nat (length ex_cells) < INT_MAX /\
  nodes ex_state !! 5%positive = None /\
  exists s1 s2,
    ll_add (Some 1%positive) 1 (Some 15%positive) ex_state = Ok (1, s1) /\
    ll_remove (Some 1%positive) 1 s1 = Ok (Some 15%positive, s2) /\
    ll_valid s2 1%positive ex_cells.
Proof.
  assert (ll_valid ex_state 1%positive ex_cells) as Hv by solve_valid.
  assert ((1 < length ex_cells)%nat \/ (1%nat = 0%nat /\ ex_cells = [])) as Hj
    by (left; simpl; lia).
  assert (Z.of_nat (length ex_cells) < INT_MAX) as Hb by (vm_compute; reflexivity).
  destruct (ll_add_then_remove_restores ex_state 1%positive ex_cells 1 (Some 15%positive)
              5%positive [Some 6%positive] Hv Hj Hb eq_refl eq_refl)
    as (s1 & s2 & Hadd & Hrem & Hv2 & _).
  split; [exact Hv|]. split; [exact Hj|]. split; [exact Hb|]. split; [reflexivity|].
  exists s1, s2. split; [exact Hadd|]. split; [exact Hrem|exact Hv2].
Defined.

(** X17.  [ll_set] is undone by setting back what it returned: on a valid
    list, [ll_set] at an index in range followed by [ll_set] of the
    returned element at the same index returns the element just stored
    and leaves the state exactly as it was at the start. *)
Theorem ll_set_back_restores s lp xs i e :
  ll_valid s lp xs -> 0 <= i < Z.of_nat (length xs) ->
  exists old s1,
    ll_set (Some lp) i e s = Ok (old, s1) /\
    ll_set (Some lp) i old s1 = Ok (e, s).
Proof.
  intros Hv Hi.
  destruct (lookup_lt_is_Some_2 xs (Z.to_nat i)) as [[a e0] Hj]; [lia|].
  destruct (ll_set_valid s lp xs _ a e0 e Hv Hj) as (nx & Ha & Hset & Hv1).
  assert (insert (Z.to_nat i) (a, e) xs !! Z.to_nat i = Some (a, e)) as Hj1.
  { apply list_lookup_insert_eq. by eapply lookup_lt_Some. }
  destruct (ll_set_valid _ lp _ _ a e e0 Hv1 Hj1) as (nx1 & Ha1 & Hset1 & _).
  simpl in Ha1. rewrite lookup_insert_eq in Ha1. injection Ha1 as <-.
  rewrite Z2Nat.id in Hset, Hset1 by lia.
  exists e0. eexists. split; [exact Hset|]. rewrite Hset1. do 2 f_equal.
  unfold with_nodes at 1. simpl. rewrite insert_insert_eq.
  rewrite Z2Nat.id in Ha by lia. rewrite (insert_id _ _ _ Ha).
  by destruct s.
Qed.

Lemma ll_set_back_restores_witness :
  ll_valid ex_state 1%positive ex_cells /\
  0 <= 1 < Z.of_nat (length ex_cells) /\
  exists old s1,
    ll_set (Some 1%positive) 1 (Some 15%positive) ex_state = Ok (old, s1) /\
    ll_set (Some 1%positive) 1 old s1 = Ok (Some 15%positive, ex_state).
Proof.
  assert (ll_valid ex_state 1%positive ex_cells) as Hv by solve_valid.
  assert (0 <= 1 < Z.of_nat (length ex_cells)) as Hi by (simpl; lia).
  split; [exact Hv|]. split; [exact Hi|].
  exact (ll_set_back_restores ex_state 1%positive ex_cells 1 (Some 15%positive) Hv Hi).
Defined.

(** ** Clearing and freeing *)

Lemma preserves_only_frees_clear_loop fuel list :
  preserves only_frees (clear_loop fuel list).
Proof.
  apply preserves_clear_loop.
  - apply only_frees_refl.
  - apply only_frees_trans.
  - done.
  - apply only_frees_store_node.
  - apply only_frees_free_node.
  - apply only_frees_free_obj.
Qed.

Lemma free_obj_frees s e es :
  can_free (objs s) (e :: es) ->
  exists m,
    free_obj e s = Ok (tt, with_objs m s) /\ can_free m es /\
    (forall p, e = Some p -> m !! p = None).
Proof.
  destruct e as [a|]; simpl.
  - intros [(o & Ho & Hm) Hrest]. exists (delete a (objs s)).
    unfold free_obj. rewrite Ho, Hm. split; [done|]. split; [done|].
    intros p [= <-]. apply lookup_delete_eq.
  - intros Hrest. exists (objs s). split; [by destruct s|]. by split.
Qed.

Lemma clear_loop_frees lp xs : forall s fuel,
  ll_valid s lp xs -> can_free (objs s) xs.*2 ->
  (length xs < fuel)%nat ->
  exists s',
    clear_loop fuel (Some lp) s = Ok (tt, s') /\
    ll_valid s' lp [] /\
    (forall a, a ∈ xs.*1 -> nodes s' !! a = None) /\
    (forall p, Some p ∈ xs.*2 -> objs s' !! p = None).
Proof.
  induction xs as [|[a e] xs IH]; intros s fuel Hv Hfree Hf.
  - destruct fuel as [|fuel]; [simpl in Hf; lia|]. exists s. split.
    + simpl. by rewrite (bind_ok _ _ _ _ _ (ll_size_valid _ _ _ Hv)).
    + split; [done|]. split; intros ? Hin; by apply elem_of_nil in Hin.
  - simpl in Hf. destruct fuel as [|fuel]; [lia|].
    destruct (ll_remove_valid s lp ((a, e) :: xs) 0 a e Hv eq_refl)
      as (s1 & Hrun & Hv1 & Ho1 & _); [by left|].
    destruct (ll_remove_spec s lp ((a, e) :: xs) 0 a e Hv eq_refl)
      as (s1' & _ & _ & Hrun' & _ & _ & _ & Hgone & _).
    rewrite Hrun in Hrun'. injection Hrun' as <-.
    simpl in Hv1. rewrite <- Ho1 in Hfree.
    destruct (free_obj_frees s1 e xs.*2 Hfree) as (m & Hfr & Hfree' & Hm).
    destruct (IH (with_objs m s1) fuel) as (s' & Hloop & Hv' & Hnodes & Hobjs).
    { by apply ll_valid_with_objs. }
    { done. }
    { lia. }
    destruct (preserves_only_frees_clear_loop _ _ _ _ _ Hloop) as (Hkn & Hko & _).
    exists s'. split; [|split; [done|split]].
    + cbn [clear_loop].
      rewrite (bind_ok _ _ _ _ _ (ll_size_valid _ _ _ Hv)).
      destruct (Z.of_nat (length ((a, e) :: xs)) =? 0) eqn:E;
        [apply Z.eqb_eq in E; simpl in E; lia|].
      change (ll_remove (Some lp) 0 s) with (ll_remove (Some lp) (Z.of_nat 0) s).
      rewrite (bind_ok _ _ _ _ _ Hrun).
      by rewrite (bind_ok _ _ _ _ _ Hfr).
    + intros b Hb. simpl in Hb. apply elem_of_cons in Hb as [->|Hb]; [|by apply Hnodes].
      by apply Hkn.
    + intros p Hp. simpl in Hp. apply elem_of_cons in Hp as [Hp|Hp]; [|by apply Hobjs].
      apply Hko. simpl. by apply Hm.
Qed.

Lemma ll_clear_releases_aux s lp xs :
  ll_valid s lp xs -> can_free (objs s) xs.*2 ->
  exists s',
    ll_clear (Some lp) s = Ok (tt, s') /\
    ll_valid s' lp [] /\
    (forall a, a ∈ xs.*1 -> nodes s' !! a = None) /\
    (forall p, Some p ∈ xs.*2 -> objs s' !! p = None).
Proof.
  intros Hv Hfree.
  destruct (clear_loop_frees lp xs s (S (size (nodes s))) Hv Hfree)
    as (s' & Hrun & Hv' & Hn & Ho).
  { destruct Hv as (l & _ & Hseg & _). apply lseg_length_le in Hseg. lia. }
  exists s'. split; [|done].
  unfold ll_clear. simpl. by rewrite (bind_ok _ _ _ _ _ (loop_budget_ok s)).
Qed.

(** X18.  [ll_clear] on a valid list whose payloads can be freed empties
    it and frees the payloads as well as the nodes: afterwards the list
    is a valid empty list of size 0, no node of the old chain is live,
    and no payload object that was stored in it is live. *)
Theorem ll_clear_releases s lp xs :
  ll_valid s lp xs -> can_free (objs s) xs.*2 ->
  exists s',
    ll_clear (Some lp) s = Ok (tt, s') /\
    ll_valid s' lp [] /\
    ll_size (Some lp) s' = Ok (0, s') /\
    (forall a, a ∈ xs.*1 -> nodes s' !! a = None) /\
    (forall p, Some p ∈ xs.*2 -> objs s' !! p = None).
Proof.
  intros Hv Hfree.
  destruct (ll_clear_releases_aux s lp xs Hv Hfree) as (s' & Hrun & Hv' & Hn & Ho).
  exists s'. split; [done|]. split; [done|]. split; [|done].
  by rewrite (ll_size_valid _ _ _ Hv').
Qed.

Ltac solve_can_free :=
  repeat (split; [eexists; split; [vm_compute; reflexivity|reflexivity]|]); exact I.

Lemma ll_clear_releases_witness :
  ll_valid ex_state 1%positive ex_cells /\
  can_free (objs ex_state) ex_cells.*2 /\
  exists s',
    ll_clear (Some 1%positive) ex_state = Ok (tt, s') /\
    ll_size (Some 1%positive) s' = Ok (0, s') /\
    nodes s' !! 3%positive = None /\
    objs s' !! 20%positive = None.
Proof.
  assert (ll_valid ex_state 1%positive ex_cells) as Hv by solve_valid.
  assert (can_free (objs ex_state) ex_cells.*2) as Hf by solve_can_free.
  destruct (ll_clear_releases ex_state 1%positive ex_cells Hv Hf)
    as (s' & Hrun & _ & Hsz & Hn & Ho).
  split; [exact Hv|]. split; [exact Hf|].
  exists s'. split; [exact Hrun|]. split; [exact Hsz|]. split.
  - apply Hn. simpl. apply list_elem_of_further, list_elem_of_here.
  - apply Ho. simpl. apply list_elem_of_further, list_elem_of_here.
Defined.




(** X20.  [ll_free] on a valid list whose payloads can be freed releases
    everything the list owned: the list struct, every node of the chain
    and every stored payload object are no longer live.  [ll_free] of
    [NULL] does nothing. *)
Theorem ll_free_releases s lp xs :
  ll_valid s lp xs -> can_free (objs s) xs.*2 ->
  (exists s',
     ll_free (Some lp) s = Ok (tt, s') /\
     lists s' !! lp = None /\
     (forall a, a ∈ xs.*1 -> nodes s' !! a = None) /\
     (forall p, Some p ∈ xs.*2 -> objs s' !! p = None)) /\
  ll_free NULL s = Ok (tt, s).
Proof.
  intros Hv Hfree. split; [|done].
  destruct (ll_clear_releases_aux s lp xs Hv Hfree) as (s' & Hrun & Hv' & Hn & Ho).
  destruct Hv' as (l & Hl & _).
  exists (with_lists (delete lp (lists s')) s').
  split; [|split; [simpl; apply lookup_delete_eq|done]].
  unfold ll_free. simpl. rewrite (bind_ok _ _ _ _ _ Hrun).
  unfold free_list. by rewrite Hl.
Qed.

Lemma ll_free_releases_witness :
  ll_valid ex_state 1%positive ex_cells /\
  can_free (objs ex_state) ex_cells.*2 /\
  exists s',
    ll_free (Some 1%positive) ex_state = Ok (tt, s') /\
    lists s' !! 1%positive = None /\
    nodes s' !! 2%positive = None.
Proof.
  assert (ll_valid ex_state 1%positive ex_cells) as Hv by solve_valid.
  assert (can_free (objs ex_state) ex_cells.*2) as Hf by solve_can_free.
  destruct (ll_free_releases ex_state 1%positive ex_cells Hv Hf)
    as [(s' & Hrun & Hl & Hn & _) _].
  split; [exact Hv|]. split; [exact Hf|].
  exists s'. split; [exact Hrun|]. split; [exact Hl|].
  apply Hn. simpl. apply list_elem_of_here.
Defined.

(** ** Iteration *)

Lemma li_collect_ok it xs : forall s p k,
  lseg (nodes s) p k xs NULL -> iters s !! it = Some (LIter p) ->
  exists s',
    li_collect (length xs) (Some it) s = Ok (xs.*2, s') /\
    iters s' !! it = Some (LIter NULL) /\
    nodes s' = nodes s /\ lists s' = lists s /\ objs s' = objs s.
Proof.
  induction xs as [|[a e] xs IH]; intros s p k Hs Hi.
  - simpl in Hs. subst p. by exists s.
  - destruct Hs as [-> (nx & Ha & Hs)].
    set (s1 := with_iters (<[it := LIter nx]> (iters s)) s).
    destruct (IH s1 nx (k + 1) Hs) as (s' & Hrun & Hi' & Hn & Hl & Ho).
    { simpl. apply lookup_insert_eq. }
    exists s'. split; [|done].
    cbn [length li_collect].
    rewrite (bind_ok _ _ _ _ _ (li_next_at s it a _ Hi Ha)). simpl next. fold s1.
    by rewrite (bind_ok _ _ _ _ _ Hrun).
Qed.

(** X21.  [li_next] walks the rest of the list to its end.  An iterator
    made by [ll_itr] at index [j] of a valid list of [n] elements yields,
    over [n - j] calls of [li_next], the elements from [j] to the last
    one in order, the last included; after that [li_next] returns [NULL].
    The list structs, nodes and payloads are not written. *)
Theorem li_next_enumerates s lp xs j a e ia o :
  ll_valid s lp xs -> xs !! j = Some (a, e) -> oracle s = Some ia :: o ->
  exists s',
    (do it <- ll_itr (Some lp) (Z.of_nat j);
     li_collect (length xs - j) it) s = Ok ((drop j xs).*2, s') /\
    li_next (Some ia) s' = Ok (NULL, s') /\
    lists s' = lists s /\ nodes s' = nodes s /\ objs s' = objs s.
Proof.
  intros Hv Hj Ho.
  rewrite (bind_ok _ _ _ _ _ (ll_itr_valid _ _ _ _ _ _ _ _ Hv Hj Ho)).
  set (s1 := with_iters (<[ia := LIter (Some a)]> (iters s)) (with_oracle o s)).
  destruct Hv as (l & Hl & Hseg & _).
  rewrite <- (take_drop j xs) in Hseg.
  apply lseg_app in Hseg as (m & _ & Hrest).
  assert (drop j xs = (a, e) :: drop (S j) xs) as Hd.
  { rewrite <- (take_drop_middle _ _ _ Hj) at 1.
    rewrite drop_app_length'; [done|]. rewrite length_take.
    apply lookup_lt_Some in Hj. lia. }
  pose proof Hrest as Hrest'. rewrite Hd in Hrest'. destruct Hrest' as [-> _].
  destruct (li_collect_ok ia (drop j xs) s1 (Some a) _ Hrest) as (s' & Hrun & Hi' & Hn & Hls & Hob).
  { simpl. apply lookup_insert_eq. }
  rewrite length_drop in Hrun.
  exists s'. split; [done|]. split; [by apply li_next_exhausted|done].
Qed.

Lemma li_next_enumerates_witness :
  ll_valid ex_state 1%positive ex_cells /\
  ex_cells !! 1%nat = Some (3%positive, Some 20%positive) /\
  exists s',
    (do it <- ll_itr (Some 1%positive) 1; li_collect 2 it) ex_state =
      Ok ([Some 20%positive; Some 30%positive], s') /\
    li_next (Some 5%positive) s' = Ok (NULL, s').
Proof.
  assert (ll_valid ex_state 1%positive ex_cells) as Hv by solve_valid.
  destruct (li_next_enumerates ex_state 1%positive ex_cells 1 3%positive (Some 20%positive)
              5%positive [Some 6%positive] Hv eq_refl eq_refl)
    as (s' & Hrun & Hend & _).
  split; [exact Hv|]. split; [reflexivity|].
  exists s'. split; [exact Hrun|exact Hend].
Defined.

(** X22.  Right after [ll_itr] at index [j] of a valid list, [li_hasnext]
    returns 1 when an element follows the one at [j] and 0 when [j] is
    the last index. *)
Theorem li_hasnext_after_itr s lp xs j a e ia o :
  ll_valid s lp xs -> xs !! j = Some (a, e) -> oracle s = Some ia :: o ->
  exists s',
    ll_itr (Some lp) (Z.of_nat j) s = Ok (Some ia, s') /\
    li_hasnext (Some ia) s' =
      Ok (if decide (S j < length xs)%nat then 1 else 0, s').
Proof.
  intros Hv Hj Ho.
  eexists. split; [by eapply ll_itr_valid|].
  destruct Hv as (l & Hl & Hseg & _).
  destruct (lseg_next _ _ _ _ _ _ _ _ Hseg Hj) as (nx & Ha & Hnx).
  erewrite li_hasnext_at; [|simpl; apply lookup_insert_eq|exact Ha].
  simpl next. rewrite Hnx. destruct (decide (S j < length xs)%nat) as [Hlt|Hge].
  - destruct (lookup_lt_is_Some_2 xs (S j) Hlt) as [c Hc]. by rewrite Hc.
  - by rewrite (lookup_ge_None_2 xs (S j)) by lia.
Qed.

Lemma li_hasnext_after_itr_witness :
  ll_valid ex_state 1%positive ex_cells /\
  ex_cells !! 1%nat = Some (3%positive, Some 20%positive) /\
  exists s',
    ll_itr (Some 1%positive) 1 ex_state = Ok (Some 5%positive, s') /\
    li_hasnext (Some 5%positive) s' = Ok (1, s').
Proof.
  assert (ll_valid ex_state 1%positive ex_cells) as Hv by solve_valid.
  split; [exact Hv|]. split; [reflexivity|].
  exact (li_hasnext_after_itr ex_state 1%positive ex_cells 1 3%positive (Some 20%positive)
           5%positive [Some 6%positive] Hv eq_refl eq_refl).
Defined.

(** X23.  Removing the element under the cursor invalidates the
    iterator: on a valid list, after [ll_remove] at the index of the node
    an iterator points to, [li_next] and [li_hasnext] on that iterator
    read the freed node. *)
Theorem li_next_after_remove_faults s lp xs j a e it :
  ll_valid s lp xs -> xs !! j = Some (a, e) ->
  iters s !! it = Some (LIter (Some a)) ->
  exists s',
    ll_remove (Some lp) (Z.of_nat j) s = Ok (e, s') /\
    li_next (Some it) s' = Fault DanglingDeref /\
    li_hasnext (Some it) s' = Fault DanglingDeref.
Proof.
  intros Hv Hj Hi.
  destruct (ll_remove_spec _ _ _ _ _ _ Hv Hj)
    as (s' & _ & _ & Hrun & _ & _ & _ & Hgone & _ & _ & _ & Hit & _).
  rewrite <- Hit in Hi.
  exists s'. split; [done|]. split.
  - unfold li_next. simpl.
    rewrite (bind_ok _ _ _ _ _ (get_itr_next_ok s' it _ Hi)). simpl.
    unfold bind, get_next, bind, load_node. by rewrite Hgone.
  - unfold li_hasnext. simpl.
    rewrite (bind_ok _ _ _ _ _ (get_itr_next_ok s' it _ Hi)). simpl.
    unfold bind, get_next, bind, load_node. by rewrite Hgone.
Qed.

Lemma li_next_after_remove_faults_witness :
  ll_valid ex_iter_last 1%positive ex_cells /\
  ex_cells !! 2%nat = Some (4%positive, Some 30%positive) /\
  iters ex_iter_last !! 5%positive = Some (LIter (Some 4%positive)) /\
  exists s',
    ll_remove (Some 1%positive) 2 ex_iter_last = Ok (Some 30%positive, s') /\
    li_next (Some 5%positive) s' = Fault DanglingDeref.
Proof.
  assert (ll_valid ex_iter_last 1%positive ex_cells) as Hv by solve_valid.
  destruct (li_next_after_remove_faults ex_iter_last 1%positive ex_cells 2 4%positive
              (Some 30%positive) 5%positive Hv eq_refl eq_refl)
    as (s' & Hrun & Hnext & _).
  split; [exact Hv|]. split; [reflexivity|]. split; [reflexivity|].
  exists s'. split; [exact Hrun|exact Hnext].
Defined.

(** X24.  [li_destroy] releases the cursor and nothing else: on a valid
    list, [ll_itr] at a valid index followed by [li_destroy] of the
    iterator it returned leaves the list structs, nodes, payloads and
    iterators exactly as they were, one allocation having been used and
    given back.  [li_destroy] of [NULL] does nothing. *)
Theorem ll_itr_then_destroy s lp xs j a e ia o :
  ll_valid s lp xs -> xs !! j = Some (a, e) ->
  oracle s = Some ia :: o -> iters s !! ia = None ->
  (do it <- ll_itr (Some lp) (Z.of_nat j); li_destroy it) s =
    Ok (tt, with_oracle o s) /\
  li_destroy NULL s = Ok (tt, s).
Proof.
  intros Hv Hj Ho Hfresh. split; [|done].
  rewrite (bind_ok _ _ _ _ _ (ll_itr_valid _ _ _ _ _ _ _ _ Hv Hj Ho)).
  unfold li_destroy, free_iter. simpl. rewrite lookup_insert_eq.
  do 2 f_equal. unfold with_iters, with_oracle. simpl. f_equal.
  rewrite delete_insert_eq. by apply delete_id.
Qed.

Lemma ll_itr_then_destroy_witness :
  ll_valid ex_state 1%positive ex_cells /\
  ex_cells !! 1%nat = Some (3%positive, Some 20%positive) /\
  iters ex_state !! 5%positive = None /\
  (do it <- ll_itr (Some 1%positive) 1; li_destroy it) ex_state =
    Ok (tt, with_oracle [Some 6%positive] ex_state).
Proof.
  assert (ll_valid ex_state 1%positive ex_cells) as Hv by solve_valid.
  split; [exact Hv|]. split; [reflexivity|]. split; [reflexivity|].
  exact (proj1 (ll_itr_then_destroy ex_state 1%positive ex_cells 1 3%positive
                  (Some 20%positive) 5%positive [Some 6%positive] Hv eq_refl eq_refl
                  eq_refl)).
Defined.

(** ** Insertion and search *)

Lemma first_bytes_same_objs s s' n p :
  objs s' = objs s -> first_bytes s' n p = first_bytes s n p.
Proof. intros E. unfold first_bytes. by rewrite E. Qed.

Lemma byte_equal_refl s n p : readable s n p -> byte_equal s n p p.
Proof. intros [bs Hbs]. by exists bs. Qed.

Lemma preserves_same_elem_size_add list i e :
  preserves same_elem_size (ll_add list i e).
Proof.
  apply preserves_ll_add.
  - apply same_elem_size_refl.
  - apply same_elem_size_trans.
  - apply same_elem_size_set_list.
  - intros. by apply same_elem_size_lists.
  - intros. by apply same_elem_size_lists.
  - intros. by apply same_elem_size_lists.
Qed.

(** X25.  What [ll_add] stores, the searches find.  On a valid list whose
    stored elements, like the new one, point to at least [__elem_size]
    readable bytes, after [ll_add] of an element at index [j] (given a
    fresh node by [malloc]) [ll_contains] of that element returns 1 and
    [ll_indexof] returns an index between 0 and [j]. *)
Theorem ll_add_then_found s lp xs l j e na o :
  ll_valid s lp xs -> lists s !! lp = Some l ->
  readable s (__elem_size l) e ->
  Forall (fun c => readable s (__elem_size l) c.2) xs ->
  (j <= length xs)%nat -> Z.of_nat (length xs) < INT_MAX ->
  oracle s = Some na :: o -> nodes s !! na = None ->
  exists s' r,
    ll_add (Some lp) (Z.of_nat j) e s = Ok (1, s') /\
    ll_contains (Some lp) e s' = Ok (1, s') /\
    ll_indexof (Some lp) e s' = Ok (r, s') /\
    0 <= r <= Z.of_nat j.
Proof.
  intros Hv Hl He Hr Hj Hlen Ho Hfresh.
  destruct (ll_add_valid s lp xs j na o e Hv Hj Hlen Ho Hfresh)
    as (s' & Hadd & Hv' & Hobjs & _).
  destruct (preserves_same_elem_size_add _ _ _ _ _ _ Hadd _ _ Hl) as (l' & Hl' & Hsz).
  set (xs' := take j xs ++ (na, e) :: drop j xs) in *.
  set (n := __elem_size l) in *.
  assert (forall p, readable s n p -> readable s' n p) as Hread.
  { intros p. unfold readable. by rewrite (first_bytes_same_objs s s'). }
  assert (Forall (fun c => readable s' n c.2) xs') as Hr'.
  { apply Forall_app. split; [|apply Forall_cons; split].
    - apply Forall_take. eapply Forall_impl; [exact Hr|]. intros c. apply Hread.
    - by apply Hread.
    - apply Forall_drop. eapply Forall_impl; [exact Hr|]. intros c. apply Hread. }
  assert (xs' !! j = Some (na, e)) as Hat.
  { unfold xs'. rewrite lookup_app_r by (rewrite length_take; lia).
    rewrite length_take. by replace (j - j `min` length xs)%nat with 0%nat by lia. }
  assert (byte_equal s' n e e) as Hee by (by apply byte_equal_refl, Hread).
  destruct Hv' as (l0 & Hl0 & Hseg & _).
  rewrite Hl' in Hl0. injection Hl0 as <-.
  pose proof (lseg_length_le _ _ _ _ _ Hseg) as Hle.
  destruct (contains_loop_ok s' _ 0 xs' e n (S (size (nodes s'))) Hseg Hr' (Hread _ He))
    as (rc & Hc & Hcres); [lia|].
  destruct (indexof_loop_ok s' _ 0 xs' e n (S (size (nodes s'))) Hseg Hr' (Hread _ He))
    as (ri & Hi & Hires); [lia|].
  exists s', ri. split; [done|].
  assert (rc = 1) as ->.
  { destruct Hcres as [[-> _]|[_ Hall]]; [done|].
    by destruct (Forall_lookup_1 _ _ _ _ Hall Hat). }
  split; [|split].
  - unfold ll_contains. simpl.
    rewrite (bind_ok _ _ _ _ _ (get_first_ok s' lp l' Hl')).
    rewrite (bind_ok _ _ _ _ _ (get_elem_size_ok s' lp l' Hl')).
    rewrite (bind_ok _ _ _ _ _ (loop_budget_ok s')). by rewrite Hsz.
  - unfold ll_indexof. simpl.
    rewrite (bind_ok _ _ _ _ _ (get_first_ok s' lp l' Hl')).
    rewrite (bind_ok _ _ _ _ _ (get_elem_size_ok s' lp l' Hl')).
    rewrite (bind_ok _ _ _ _ _ (loop_budget_ok s')). by rewrite Hsz.
  - destruct Hires as [[_ Hall]|(j' & c & -> & Hj' & Hm & Hall)].
    + by destruct (Forall_lookup_1 _ _ _ _ Hall Hat).
    + split; [lia|]. destruct (decide (j' <= j)%nat) as [?|Hgt]; [lia|].
      assert (take j' xs' !! j = Some (na, e)) as Ht
        by (rewrite lookup_take_lt by lia; done).
      by destruct (Forall_lookup_1 _ _ _ _ Hall Ht).
Qed.

Lemma ll_add_then_found_witness :
  ll_valid ex_state 1%positive ex_cells /\
  readable ex_state 4 (Some 15%positive) /\
  Forall (fun c => readable ex_state 4 c.2) ex_cells /\
  (1 <= length ex_cells)%nat /\ Z.of_nat (length ex_cells) < INT_MAX /\
  nodes ex_state !! 5%positive = None /\
  exists s' r,
    ll_add (Some 1%positive) 1 (Some 15%positive) ex_state = Ok (1, s') /\
    ll_contains (Some 1%positive) (Some 15%positive) s' = Ok (1, s') /\
    ll_indexof (Some 1%positive) (Some 15%positive) s' = Ok (r, s') /\
    0 <= r <= 1.
Proof.
  assert (ll_valid ex_state 1%positive ex_cells) as Hv by solve_valid.
  assert (readable ex_state 4 (Some 15%positive)) as He by (eexists; reflexivity).
  assert (Forall (fun c => readable ex_state 4 c.2) ex_cells) as Hr
    by (repeat constructor; eexists; reflexivity).
  assert (1 <= length ex_cells)%nat as Hj by (simpl; lia).
  assert (Z.of_nat (length ex_cells) < INT_MAX) as Hb by (vm_compute; reflexivity).
  split; [exact Hv|]. split; [exact He|]. split; [exact Hr|]. split; [exact Hj|].
  split; [exact Hb|]. split; [reflexivity|].
  exact (ll_add_then_found ex_state 1%positive ex_cells _ 1 (Some 15%positive)
           5%positive [Some 6%positive] Hv eq_refl He Hr Hj Hb eq_refl eq_refl).
Defined.
